(** * FuzzQLite: the differential SQLite runner ([archive/sqlite_runner.py])

    A shallow embedding of [SQLiteRunner] and the proofs of its
    specification.  Python [str] values are sequences of code points; the
    development works with the Latin-1 range, one [ascii] per code point. *)

From Stdlib Require Import ZArith Ascii String List Bool Lia.
From stdpp Require Import gmap strings list fin_maps.

Local Open Scope Z_scope.
Local Open Scope list_scope.

(** ** Python strings *)

Definition text := list ascii.

Definition str (s : string) : text := list_ascii_of_string s.

Definition code (c : ascii) : Z := Z.of_N (N_of_ascii c).

(** [str.isspace] on a single code point below 256: TAB..CR, FS..US,
    SPACE, NEL and NBSP. *)
Definition isspace (c : ascii) : bool :=
  let n := code c in
  ((9 <=? n) && (n <=? 13)) || ((28 <=? n) && (n <=? 32))
  || (n =? 133) || (n =? 160).

Section Strip.
Variable ws : ascii -> bool.

Fixpoint lstrip_by (s : text) : text :=
  match s with
  | [] => []
  | c :: t => if ws c then lstrip_by t else s
  end.

Fixpoint rstrip_by (s : text) : text :=
  match s with
  | [] => []
  | c :: t =>
      match rstrip_by t with
      | [] => if ws c then [] else [c]
      | t' => c :: t'
      end
  end.

Definition strip_by (s : text) : text := rstrip_by (lstrip_by s).
End Strip.

(** [s.strip()] *)
Definition strip (s : text) : text := strip_by isspace s.

(** [s.split(sep)] for a one-character separator: never the empty list. *)
Fixpoint split (sep : ascii) (s : text) : list text :=
  match s with
  | [] => [[]]
  | c :: t =>
      if Ascii.eqb c sep then [] :: split sep t
      else match split sep t with
           | [] => [[c]]
           | h :: r => (c :: h) :: r
           end
  end.

(** [sep.join(parts)] *)
Fixpoint join (sep : text) (parts : list text) : text :=
  match parts with
  | [] => []
  | [p] => p
  | p :: rest => p ++ sep ++ join sep rest
  end.

(** [c in s] *)
Definition contains (c : ascii) (s : text) : bool := existsb (Ascii.eqb c) s.

Definition is_empty (s : text) : bool :=
  match s with [] => true | _ => false end.

(** ** Python floats: IEEE binary64 with correct rounding

    A finite binary64 is [m * 2^k] in units of the least subnormal
    [2^-1074]: [0 <= m < 2^53] and [0 <= k <= 2045]. *)

Inductive pyfloat :=
| FNan
| FInf (neg : bool)
| FFin (neg : bool) (m k : Z).

Definition ulp_bias : Z := 1074.
Definition mant_bound : Z := 2 ^ 53.
Definition overflow_bound : Z := 2 ^ 2098.   (* 2^1024 in units of 2^-1074 *)

Definition binary64 (m k : Z) : Prop :=
  0 <= m < mant_bound /\ 0 <= k <= 2045.

(** Round half to even of the quotient [a / b], [b > 0]. *)
Definition rhe_div (a b : Z) : Z :=
  let q := a / b in
  let r := a mod b in
  if 2 * r <? b then q
  else if b <? 2 * r then q + 1
  else if Z.even q then q else q + 1.

(** The binary64 nearest to the positive rational [n / d] (ties to even),
    before the overflow test: mantissa and biased exponent. *)
Definition round_core (n d : Z) : Z * Z :=
  if n =? 0 then (0, 0)
  else
    let num := n * 2 ^ ulp_bias in
    let k1 := Z.max 0 (Z.log2 n - Z.log2 d - 53 + ulp_bias) in
    let k := if num / (d * 2 ^ k1) <? mant_bound then k1 else k1 + 1 in
    (rhe_div num (d * 2 ^ k), k).

Definition round64 (neg : bool) (n d : Z) : pyfloat :=
  let '(m, k) := round_core n d in
  if m * 2 ^ k <? overflow_bound then FFin neg m k else FInf neg.

(** *** Decimal digits *)

Definition is_digit (c : ascii) : bool :=
  let n := code c in (48 <=? n) && (n <=? 57).

Definition digit_val (c : ascii) : Z := code c - 48.

Definition digit_char (d : Z) : ascii := ascii_of_N (Z.to_N (d + 48)).

Definition dec_value (ds : text) : Z :=
  fold_left (fun acc c => 10 * acc + digit_val c) ds 0.

(** The last [w] decimal digits of [n], zero padded. *)
Fixpoint digits_fixed (w : nat) (n : Z) : text :=
  match w with
  | O => []
  | S w' => digits_fixed w' (n / 10) ++ [digit_char (n mod 10)]
  end.

(** Number of decimal digits of [n >= 0], at least one. *)
Fixpoint count_digits (fuel : nat) (n : Z) : nat :=
  match fuel with
  | O => 1%nat
  | S f => if n <? 10 then 1%nat else S (count_digits f (n / 10))
  end.

Definition dec_digits (n : Z) : text :=
  digits_fixed (count_digits (Z.to_nat (Z.log2 n)) n) n.

(** *** [float(s)] *)

Fixpoint span_digits (s : text) : text * text :=
  match s with
  | c :: t => if is_digit c then let '(ds, r) := span_digits t in (c :: ds, r)
              else ([], s)
  | [] => ([], [])
  end.

Definition read_sign (s : text) : bool * text :=
  match s with
  | "-"%char :: t => (true, t)
  | "+"%char :: t => (false, t)
  | _ => (false, s)
  end.

(** The exponent suffix; a malformed one is not consumed. *)
Definition read_exponent (s : text) : Z * text :=
  match s with
  | c :: t =>
      if Ascii.eqb c "e" || Ascii.eqb c "E" then
        let '(neg, t1) := read_sign t in
        let '(ds, t2) := span_digits t1 in
        if is_empty ds then (0, s)
        else ((if neg then - dec_value ds else dec_value ds), t2)
      else (0, s)
  | [] => (0, [])
  end.

Definition decimal_to_float (neg : bool) (ds : text) (e10 : Z) : pyfloat :=
  let D := dec_value ds in
  if 0 <=? e10 then round64 neg (D * 10 ^ e10) 1
  else round64 neg D (10 ^ (- e10)).

(** [_Py_dg_strtod]: the longest decimal prefix, with what is left. *)
Definition strtod (s : text) : option (pyfloat * text) :=
  let '(neg, s1) := read_sign s in
  let '(ip, s2) := span_digits s1 in
  let '(fp, s3) := match s2 with
                   | "."%char :: t => span_digits t
                   | _ => ([], s2)
                   end in
  if is_empty ip && is_empty fp then None
  else
    let '(ex, s4) := read_exponent s3 in
    Some (decimal_to_float neg (ip ++ fp) (ex - Z.of_nat (length fp)), s4).

Definition to_lower (c : ascii) : ascii :=
  let n := code c in
  if (65 <=? n) && (n <=? 90) then ascii_of_N (Z.to_N (n + 32)) else c.

(** [case_insensitive_match]: [pat] is lower case; returns the rest. *)
Fixpoint match_ci (pat s : text) : option text :=
  match pat, s with
  | [], _ => Some s
  | p :: pat', c :: s' =>
      if Ascii.eqb (to_lower c) p then match_ci pat' s' else None
  | _ :: _, [] => None
  end.

(** [_Py_parse_inf_or_nan] *)
Definition parse_inf_or_nan (s : text) : option (pyfloat * text) :=
  let '(neg, s1) := read_sign s in
  match match_ci (str "inf") s1 with
  | Some r =>
      match match_ci (str "inity") r with
      | Some r' => Some (FInf neg, r')
      | None => Some (FInf neg, r)
      end
  | None =>
      match match_ci (str "nan") s1 with
      | Some r => Some (FNan, r)
      | None => None
      end
  end.

(** Underscores are allowed between two digits only, and are dropped. *)
Fixpoint underscores_ok (prev : option ascii) (s : text) : bool :=
  match s with
  | [] => match prev with Some "_"%char => false | _ => true end
  | c :: t =>
      (if Ascii.eqb c "_"
       then match prev with Some p => is_digit p | None => false end
       else match prev with Some "_"%char => is_digit c | _ => true end)
      && underscores_ok (Some c) t
  end.

Definition drop_underscores (s : text) : text :=
  List.filter (fun c => negb (Ascii.eqb c "_")) s.

(** White space skipped by [float]: the C set, NEL and NBSP having been
    turned into spaces. *)
Definition isspace_float (c : ascii) : bool :=
  let n := code c in
  ((9 <=? n) && (n <=? 13)) || (n =? 32) || (n =? 133) || (n =? 160).

Definition float_inner (s : text) : option pyfloat :=
  let s' := strip_by isspace_float s in
  match strtod s' with
  | Some (x, []) => Some x
  | Some (_, _ :: _) => None
  | None =>
      match parse_inf_or_nan s' with
      | Some (x, []) => Some x
      | _ => None
      end
  end.

(** [float(s)]: [None] stands for [ValueError]. *)
Definition float_of_str (s : text) : option pyfloat :=
  if contains "_" s then
    if underscores_ok None s then float_inner (drop_underscores s) else None
  else float_inner s.

(** [f"{x:.10f}"] *)
Definition fmt10 (x : pyfloat) : text :=
  match x with
  | FNan => str "nan"
  | FInf neg => if neg then str "-inf" else str "inf"
  | FFin neg m k =>
      let N := rhe_div (m * 2 ^ k * 10 ^ 10) (2 ^ ulp_bias) in
      (if neg then str "-" else [])
        ++ dec_digits (N / 10 ^ 10) ++ str "." ++ digits_fixed 10 (N mod 10 ^ 10)
  end.

(** ** [SQLiteRunner._normalize_output] *)

Definition normalize_part (part : text) : text :=
  let part := strip part in
  match float_of_str part with
  | Some float_val => if contains "." part then fmt10 float_val else part
  | None => part
  end.

Definition normalize_line (line : text) : text :=
  join (str "|") (map normalize_part (split "|" line)).

Definition nonblank (line : text) : bool := negb (is_empty (strip line)).

Definition normalize_output (output : text) : text :=
  let lines := split "010" (strip output) in
  join (str (String "010" "")) (map normalize_line (List.filter nonblank lines)).

(** ** Outcomes and results

    Modelled from the spec: the [Outcome] labels of [runner.outcome], whose
    declaration is not part of the sources; [__init__] spells the same five
    labels as dictionary keys. *)
Inductive Outcome := PASS | CRASH | LOGIC_BUG | REFERENCE_ERROR | INVALID_QUERY.

Global Instance Outcome_eq_dec : EqDecision Outcome.
Proof. solve_decision. Defined.

Definition Outcome_to_nat (o : Outcome) : nat :=
  match o with
  | PASS => 0 | CRASH => 1 | LOGIC_BUG => 2
  | REFERENCE_ERROR => 3 | INVALID_QUERY => 4
  end%nat.

Definition Outcome_of_nat (n : nat) : option Outcome :=
  match n with
  | 0 => Some PASS | 1 => Some CRASH | 2 => Some LOGIC_BUG
  | 3 => Some REFERENCE_ERROR | 4 => Some INVALID_QUERY | _ => None
  end%nat.

Global Program Instance Outcome_countable : Countable Outcome :=
  inj_countable Outcome_to_nat Outcome_of_nat _.
Next Obligation. by intros []. Qed.

(** The dictionary built by [_run_sqlite]. *)
Record ExecResult := {
  returncode : Z;
  stdout : option text;
  stderr : option text;
}.

(** Modelled from the spec: the [RunResult] objects of [runner.run_result],
    whose class is not part of the sources: the fields given to the
    constructor in [run], and [bug_dir], set by [record_results]. *)
Record RunResult := {
  outcome : Outcome;
  sql_query : text;
  db_path : option text;
  saved_db_path : option text;
  target_sqlite_version : text;
  target_result : ExecResult;
  reference_sqlite_version : text;
  reference_result : ExecResult;
  bug_dir : option text;
}.

Definition set_bug_dir (d : text) (r : RunResult) : RunResult :=
  {| outcome := outcome r; sql_query := sql_query r; db_path := db_path r;
     saved_db_path := saved_db_path r;
     target_sqlite_version := target_sqlite_version r;
     target_result := target_result r;
     reference_sqlite_version := reference_sqlite_version r;
     reference_result := reference_result r;
     bug_dir := Some d |}.

(** The keyword arguments of [bug_tracker.save_reproducer]. *)
Record ReproArgs := {
  a_bug_type : Outcome;
  a_sql_query : text;
  a_db_path : option text;
  a_saved_db_path : option text;
  a_target_sqlite_version : text;
  a_target_result : ExecResult;
  a_reference_sqlite_version : text;
  a_reference_result : ExecResult;
}.

Definition repro_args (r : RunResult) : ReproArgs :=
  {| a_bug_type := outcome r; a_sql_query := sql_query r;
     a_db_path := db_path r; a_saved_db_path := saved_db_path r;
     a_target_sqlite_version := target_sqlite_version r;
     a_target_result := target_result r;
     a_reference_sqlite_version := reference_sqlite_version r;
     a_reference_result := reference_result r |}.

(** ** Exceptions *)

Inductive exn :=
| TimeoutExpired (out err : option text)   (* [subprocess.TimeoutExpired] *)
| Error (cls msg : text).                  (* any other [Exception] *)

Inductive result (A : Type) :=
| Ok (a : A)
| Raise (e : exn).
Arguments Ok {A} a.
Arguments Raise {A} e.

(** ** The environment of the harness

    What the operating system answers: how a launched program behaves,
    which file operations fail, what the random source yields, what the
    bug tracker returns.  Every request carries the time of the request. *)

Inductive proc_outcome :=
| Completed (rc : Z) (out err : text)
| TimedOut (out err : option text)
| LaunchFailed (cls msg : text).

Record Env := {
  rand32 : nat -> Z;
  io_fault : nat -> option exn;
  process : nat -> text -> text -> text -> gmap text text
            -> proc_outcome * gmap text text;
  save_reproducer : nat -> ReproArgs -> result text;
}.

(** What the ghost log records: a copy made, with the bytes copied, and a
    launch requested. *)
Inductive event :=
| EvCopy (src dst data : text)
| EvRun (program : text) (db : option text).

(** Python dictionaries keep insertion order. *)
Definition dict (V : Type) := list (text * V).

Fixpoint dict_set {V} (k : text) (v : V) (d : dict V) : dict V :=
  match d with
  | [] => [(k, v)]
  | (k', v') :: r =>
      if decide (k' = k) then (k, v) :: r else (k', v') :: dict_set k v r
  end.

Fixpoint dict_get {V} (k : text) (d : dict V) : option V :=
  match d with
  | [] => None
  | (k', v') :: r => if decide (k' = k) then Some v' else dict_get k r
  end.

(** The fields of [SQLiteRunner]; the console and the live display hold
    no state of the runner and are left out. *)
Record Runner := {
  target_sqlite_paths : list text;
  reference_sqlite_path : text;
  timeout : Z;
  temp_dir : text;
  stats : gmap text (gmap Outcome Z);
  start_time : option nat;
  total_trials : Z;
  current_trial : Z;
  run_results : list (text * nat);
}.

(** The state of the process: the file system, the clock, the objects, the
    runner [self], and what the bug tracker was asked to save.  [trace]
    is a ghost log of copies and launches. *)
Record State := {
  files : gmap text text;
  clock : nat;
  trace : list event;
  heap : gmap nat RunResult;
  self : Runner;
  tracker : list (nat * ReproArgs);
}.

Definition with_files (f : gmap text text) (s : State) : State :=
  {| files := f; clock := clock s; trace := trace s; heap := heap s;
     self := self s; tracker := tracker s |}.
Definition with_clock (c : nat) (s : State) : State :=
  {| files := files s; clock := c; trace := trace s; heap := heap s;
     self := self s; tracker := tracker s |}.
Definition with_trace (t : list event) (s : State) : State :=
  {| files := files s; clock := clock s; trace := t; heap := heap s;
     self := self s; tracker := tracker s |}.
Definition with_heap (h : gmap nat RunResult) (s : State) : State :=
  {| files := files s; clock := clock s; trace := trace s; heap := h;
     self := self s; tracker := tracker s |}.
Definition with_self (r : Runner) (s : State) : State :=
  {| files := files s; clock := clock s; trace := trace s; heap := heap s;
     self := r; tracker := tracker s |}.
Definition with_tracker (t : list (nat * ReproArgs)) (s : State) : State :=
  {| files := files s; clock := clock s; trace := trace s; heap := heap s;
     self := self s; tracker := t |}.

Definition with_stats (st : gmap text (gmap Outcome Z)) (r : Runner) : Runner :=
  {| target_sqlite_paths := target_sqlite_paths r;
     reference_sqlite_path := reference_sqlite_path r;
     timeout := timeout r; temp_dir := temp_dir r; stats := st;
     start_time := start_time r; total_trials := total_trials r;
     current_trial := current_trial r; run_results := run_results r |}.
Definition with_current_trial (n : Z) (r : Runner) : Runner :=
  {| target_sqlite_paths := target_sqlite_paths r;
     reference_sqlite_path := reference_sqlite_path r;
     timeout := timeout r; temp_dir := temp_dir r; stats := stats r;
     start_time := start_time r; total_trials := total_trials r;
     current_trial := n; run_results := run_results r |}.
Definition with_run_results (l : list (text * nat)) (r : Runner) : Runner :=
  {| target_sqlite_paths := target_sqlite_paths r;
     reference_sqlite_path := reference_sqlite_path r;
     timeout := timeout r; temp_dir := temp_dir r; stats := stats r;
     start_time := start_time r; total_trials := total_trials r;
     current_trial := current_trial r; run_results := l |}.
Definition with_start_time (t : option nat) (r : Runner) : Runner :=
  {| target_sqlite_paths := target_sqlite_paths r;
     reference_sqlite_path := reference_sqlite_path r;
     timeout := timeout r; temp_dir := temp_dir r; stats := stats r;
     start_time := t; total_trials := total_trials r;
     current_trial := current_trial r; run_results := run_results r |}.

(** ** The monad of the harness: state and exceptions *)

Definition M (A : Type) : Type := State -> result A * State.

Definition ret {A} (a : A) : M A := fun s => (Ok a, s).
Definition raise {A} (e : exn) : M A := fun s => (Raise e, s).
Definition bind {A B} (c : M A) (k : A -> M B) : M B :=
  fun s => match c s with
           | (Ok a, s') => k a s'
           | (Raise e, s') => (Raise e, s')
           end.
Definition gets {A} (f : State -> A) : M A := fun s => (Ok (f s), s).
Definition modify (f : State -> State) : M unit := fun s => (Ok tt, f s).

(** [try: body  except Exception as e: handler e] *)
Definition try_except {A} (body : M A) (handler : exn -> M A) : M A :=
  fun s => match body s with
           | (Ok a, s') => (Ok a, s')
           | (Raise e, s') => handler e s'
           end.

Notation "'let!' x ':=' c 'in' k" := (bind c (fun x => k))
  (at level 10, x pattern, c at level 100, k at level 200).

(** [for x in xs: acc = body acc x] *)
Fixpoint for_each {A B} (body : B -> A -> M B) (xs : list A) (acc : B) : M B :=
  match xs with
  | [] => ret acc
  | x :: rest => let! acc' := body acc x in for_each body rest acc'
  end.

(** The time of a request; the clock advances with each one. *)
Definition tick : M nat :=
  fun s => (Ok (clock s), with_clock (S (clock s)) s).

Definition log (e : event) : M unit :=
  modify (fun s => with_trace (trace s ++ [e]) s).

Definition lift {A} (r : result A) : M A := fun s => (r, s).

(** ** Paths and identifiers *)

(** [os.path.basename] *)
Definition basename (p : text) : text := List.last (split "/" p) [].

(** [os.path.join] of two components *)
Definition path_join (a b : text) : text :=
  match b with
  | "/"%char :: _ => b
  | _ => if is_empty a || Ascii.eqb (List.last a " "%char) "/" then a ++ b
         else a ++ str "/" ++ b
  end.

Definition hex_char (d : Z) : ascii :=
  if d <? 10 then ascii_of_N (Z.to_N (48 + d)) else ascii_of_N (Z.to_N (87 + d)).

Fixpoint hex_fixed (w : nat) (n : Z) : text :=
  match w with
  | O => []
  | S w' => hex_fixed w' (n / 16) ++ [hex_char (n mod 16)]
  end.

(** The version label: [p.split('-')[-1] if '-' in p else "unknown"] *)
Definition version_of (p : text) : text :=
  if contains "-" p then List.last (split "-" p) [] else str "unknown".

(** ** The outcome of one target against the reference ([run], the
    [if]/[elif] chain) *)

Definition none_has_no_strip : exn :=
  Error (str "AttributeError") (str "'NoneType' object has no attribute 'strip'").

Definition classify (reference_result target_result : ExecResult) : result Outcome :=
  let target_crashed := negb (returncode target_result =? 0) in
  let reference_crashed := negb (returncode reference_result =? 0) in
  if target_crashed && negb reference_crashed then Ok CRASH
  else if negb target_crashed && reference_crashed then Ok REFERENCE_ERROR
  else if negb target_crashed && negb reference_crashed then
    match stdout target_result with
    | None => Raise none_has_no_strip
    | Some out_t =>
        match stdout reference_result with
        | None => Raise none_has_no_strip
        | Some out_r =>
            let normalized_output_target := normalize_output out_t in
            let normalized_output_reference := normalize_output out_r in
            if decide (normalized_output_target <> normalized_output_reference)
            then Ok LOGIC_BUG else Ok PASS
        end
    end
  else Ok INVALID_QUERY.

(** ** [SQLiteRunner.__init__]: the runner, [temp_dir] being what
    [tempfile.mkdtemp] returned *)

Definition zero_counts : gmap Outcome Z :=
  <[PASS := 0]> (<[CRASH := 0]> (<[LOGIC_BUG := 0]>
    (<[REFERENCE_ERROR := 0]> (<[INVALID_QUERY := 0]> ∅)))).

Definition new_runner (targets : list text) (reference : text)
    (total : Z) (tmo : Z) (tmp : text) : Runner :=
  {| target_sqlite_paths := targets;
     reference_sqlite_path := reference;
     timeout := tmo;
     temp_dir := tmp;
     stats := fold_left (fun st path => <[path := zero_counts]> st) targets ∅;
     start_time := None;
     total_trials := total;
     current_trial := 0;
     run_results := [] |}.

(** [os.path.exists]: the empty path names no file. *)
Definition path_exists (f : gmap text text) (p : text) : bool :=
  negb (is_empty p) && bool_decide (is_Some (f !! p)).

Section Harness.
Variable env : Env.

(** [shutil.copy2]: fails when the system says so, when the source is
    missing or is the destination itself. *)
Definition copy2 (src dst : text) : M unit :=
  let! t := tick in
  match io_fault env t with
  | Some e => raise e
  | None =>
      let! f := gets files in
      match f !! src with
      | None => raise (Error (str "FileNotFoundError") src)
      | Some c =>
          if decide (src = dst) then raise (Error (str "SameFileError") src)
          else
            let! _ := modify (with_files (<[dst := c]> f)) in
            log (EvCopy src dst c)
      end
  end.

(** [_save_database_state] *)
Definition save_database_state (db_path : text) : M (option text) :=
  let! present := gets (fun s => path_exists (files s) db_path) in
  if negb (is_empty db_path)
     && bool_decide (db_path <> str ":memory:") && present
  then
    let! t := tick in
    let random_id := hex_fixed 8 (rand32 env t) in
    let base_name := basename db_path in
    let! tmp := gets (fun s => temp_dir (self s)) in
    let saved_db_path := path_join tmp (random_id ++ str "_" ++ base_name) in
    let! _ := copy2 db_path saved_db_path in
    ret (Some saved_db_path)
  else ret None.

(** Writing the statement to the temporary [.sql] file. *)
Definition write_script (sql : text) : M unit :=
  let! t := tick in
  match io_fault env t with
  | Some e => raise e
  | None => ret tt
  end.

(** [os.unlink] under [try ... except: pass] *)
Definition unlink_script : M unit :=
  let! _ := tick in ret tt.

(** [subprocess.run([sqlite_path, db_path], stdin=..., timeout=...)] *)
Definition subprocess_run (program : text) (db : option text) (stdin : text)
  : M (Z * text * text) :=
  let! _ := log (EvRun program db) in
  match db with
  | None =>
      raise (Error (str "TypeError")
               (str "expected str, bytes or os.PathLike object, not NoneType"))
  | Some d =>
      let! t := tick in
      fun s =>
        let '(o, f) := process env t program d stdin (files s) in
        let s' := with_files f s in
        match o with
        | Completed rc out err => (Ok (rc, out, err), s')
        | TimedOut out err => (Raise (TimeoutExpired out err), s')
        | LaunchFailed cls msg => (Raise (Error cls msg), s')
        end
  end.

(** [_run_sqlite] *)
Definition run_sqlite (sqlite_path sql : text) (db : option text) : M ExecResult :=
  let! _ := write_script sql in
  let! result :=
    try_except
      (let! (rc, out, err) := subprocess_run sqlite_path db sql in
       ret {| returncode := rc; stdout := Some out; stderr := Some err |})
      (fun e =>
         match e with
         | TimeoutExpired out err =>
             ret {| returncode := -1; stdout := out; stderr := err |}
         | Error _ msg =>
             ret {| returncode := -1; stdout := None; stderr := Some msg |}
         end) in
  let! _ := unlink_script in
  ret result.

Definition alloc (r : RunResult) : M nat :=
  fun s => let l := fresh (dom (heap s)) in
           (Ok l, with_heap (<[l := r]> (heap s)) s).

(** Reading an object; a reference always has one. *)
Definition deref (l : nat) : M RunResult :=
  fun s => match heap s !! l with
           | Some r => (Ok r, s)
           | None => (Raise (Error (str "ReferenceError") []), s)
           end.

Definition key_error {A} (k : text) : M A := raise (Error (str "KeyError") k).

(** [run]: the body of the loop over the targets. *)
Definition run_target (sql : text) (target_db_paths : dict (option text))
    (saved : option text) (reference_version : text) (reference_res : ExecResult)
    (results : dict nat) (target : text) : M (dict nat) :=
  let! target_db_path :=
    match dict_get target target_db_paths with
    | Some p => ret p
    | None => key_error target
    end in
  let! target_res := run_sqlite target sql target_db_path in
  let target_version := version_of target in
  let! o := lift (classify reference_res target_res) in
  let! r := alloc {| outcome := o; sql_query := sql;
                     db_path := target_db_path;
                     saved_db_path := saved;
                     target_sqlite_version := target_version;
                     target_result := target_res;
                     reference_sqlite_version := reference_version;
                     reference_result := reference_res;
                     bug_dir := None |} in
  ret (dict_set target r results).

(** [run] *)
Definition run (inp : text * text) : M (dict nat) :=
  let '(sql, db) := inp in
  let! reference_db_path := save_database_state db in
  let! targets := gets (fun s => target_sqlite_paths (self s)) in
  let! target_db_paths :=
    for_each (fun d target =>
                let! p := save_database_state db in ret (dict_set target p d))
      targets [] in
  let! saved := save_database_state db in
  let! reference := gets (fun s => reference_sqlite_path (self s)) in
  let! reference_res := run_sqlite reference sql reference_db_path in
  let reference_version := version_of reference in
  for_each
    (run_target sql target_db_paths saved reference_version reference_res)
    targets [].

Definition modify_self (f : Runner -> Runner) : M unit :=
  modify (fun s => with_self (f (self s)) s).

(** [start_fuzzing_session]: the loop that resets the counters,
    [for path in ...: for outcome in self.stats[path]: ... = 0]. *)
Definition reset_loop (ps : list text) : M unit :=
  for_each
    (fun _ path =>
       let! st := gets (fun s => stats (self s)) in
       match st !! path with
       | None => key_error path
       | Some counts =>
           modify_self (with_stats (<[path := (fun _ => 0) <$> counts]> st))
       end)
    ps tt.

(** [start_fuzzing_session]; starting the display changes no state. *)
Definition start_fuzzing_session : M unit :=
  let! now := gets clock in
  let! _ := modify_self (with_start_time (Some now)) in
  let! _ := modify_self (with_current_trial 0) in
  let! _ := modify_self (with_run_results []) in
  let! targets := gets (fun s => target_sqlite_paths (self s)) in
  reset_loop targets.

Definition max_results_to_keep : nat := 50.

Definition archived (o : Outcome) : bool :=
  bool_decide (o ∈ [CRASH; LOGIC_BUG; REFERENCE_ERROR]).

(** The body of the loop of [record_results]. *)
Definition record_one (item : text * nat) : M unit :=
  let '(target_path, l) := item in
  let! run_result := deref l in
  let o := outcome run_result in
  let! st := gets (fun s => stats (self s)) in
  let! counts := match st !! target_path with
                 | Some c => ret c
                 | None => key_error target_path
                 end in
  let! _ := modify_self
              (with_stats (<[target_path := <[o := default 0 (counts !! o) + 1]> counts]> st)) in
  let! _ := modify_self (fun r => with_run_results (run_results r ++ [(target_path, l)]) r) in
  if archived o then
    let! t := tick in
    let! _ := modify (fun s => with_tracker (tracker s ++ [(t, repro_args run_result)]) s) in
    let! dir := lift (save_reproducer env t (repro_args run_result)) in
    modify (fun s => with_heap (alter (set_bug_dir dir) l (heap s)) s)
  else ret tt.

(** [record_results]; refreshing the display changes no state. *)
Definition record_results (results : dict nat) : M unit :=
  let! _ := modify_self (fun r => with_current_trial (current_trial r + 1) r) in
  let! _ := for_each (fun _ item => record_one item) results tt in
  let! recent := gets (fun s => run_results (self s)) in
  if (max_results_to_keep <? length recent)%nat
  then modify_self (with_run_results (drop (length recent - max_results_to_keep) recent))
  else ret tt.

(** A session: the reset, then one [record_results] per trial. *)
Definition record_all (trials : list (dict nat)) : M unit :=
  for_each (fun _ results => record_results results) trials tt.

End Harness.

(** ** [_generate_progress_display]: the texts it computes *)

(** The label of the statistics panel:
    [p.split('-')[-1] if '-' in p and p.split('-')[-1] else 'unknown'] *)
Definition panel_version (p : text) : text :=
  if contains "-" p && negb (is_empty (List.last (split "-" p) []))
  then List.last (split "-" p) [] else str "unknown".

(** [max(30, console_width - 30)] *)
Definition available_width (console_width : Z) : Z := Z.max 30 (console_width - 30).

(** [s[:n]] *)
Definition slice_to (n : Z) (s : text) : text :=
  if 0 <=? n then take (Z.to_nat n) s
  else take (length s - Z.to_nat (- n)) s.

(** [if len(q) > w: q = q[:w - 3] + "..."] *)
Definition truncate (w : Z) (q : text) : text :=
  if w <? Z.of_nat (length q) then slice_to (w - 3) q ++ str "..." else q.

(** The statement as a line of the recent trials shows it. *)
Definition display_query (console_width : Z) (sql_query : text) : text :=
  truncate (available_width console_width) (strip sql_query).


(** ** Sample environments *)

Definition calm : Env :=
  {| rand32 := fun t => 3735928559 + Z.of_nat t;
     io_fault := fun _ => None;
     process := fun _ _ _ sql f => (Completed 0 sql [], f);
     save_reproducer := fun t _ => Ok (str "bugs/" ++ hex_fixed 8 (Z.of_nat t)) |}.

(** No temporary file can be created, no copy made. *)
Definition disk_full : Env :=
  {| rand32 := rand32 calm;
     io_fault := fun _ => Some (Error (str "OSError") (str "No space left on device"));
     process := process calm;
     save_reproducer := save_reproducer calm |}.

(** Every launch times out. *)
Definition stalled : Env :=
  {| rand32 := rand32 calm;
     io_fault := io_fault calm;
     process := fun _ _ _ _ f => (TimedOut None None, f);
     save_reproducer := save_reproducer calm |}.

Definition sample_runner : Runner :=
  new_runner [str "/opt/sqlite3-3.26.0"; str "/opt/sqlite3-3.39.4"]
    (str "/opt/sqlite3-3.49.1") 100 30 (str "/tmp/fuzzqlite_k3x9").

Definition sample_state : State :=
  {| files := <[str "/data/test.db" := str "SQLite format 3"]> ∅;
     clock := 0; trace := []; heap := ∅; self := sample_runner; tracker := [] |}.

Definition sample_result (o : Outcome) : RunResult :=
  {| outcome := o; sql_query := str "SELECT 1;";
     db_path := Some (str "/tmp/fuzzqlite_k3x9/0badc0de_test.db");
     saved_db_path := Some (str "/tmp/fuzzqlite_k3x9/0badf00d_test.db");
     target_sqlite_version := str "3.26.0";
     target_result := {| returncode := if decide (o = PASS) then 0 else 1;
                         stdout := Some (str "1"); stderr := Some [] |};
     reference_sqlite_version := str "3.49.1";
     reference_result := {| returncode := if decide (o = INVALID_QUERY) then 1 else 0;
                            stdout := Some (str "1"); stderr := Some [] |};
     bug_dir := None |}.

(** The sample state with three results, ready to be recorded. *)
Definition recorded_state : State :=
  with_heap (<[0%nat := sample_result PASS]>
               (<[1%nat := sample_result CRASH]>
                  (<[2%nat := sample_result INVALID_QUERY]> ∅))) sample_state.

Definition sample_trial : dict nat :=
  [(str "/opt/sqlite3-3.26.0", 1%nat); (str "/opt/sqlite3-3.39.4", 2%nat)].

(** Thirty trials of two targets: sixty entries. *)
Definition sample_trials : list (dict nat) := repeat sample_trial 30.

(** ** Vocabulary of the specification *)

(** "Crashed": the exit status is not zero. *)
Definition crashed (r : ExecResult) : Prop := returncode r <> 0.

(** What [_run_sqlite] guarantees of its result: a zero exit status comes
    with the captured output. *)
Definition well_formed (r : ExecResult) : Prop :=
  returncode r = 0 -> is_Some (stdout r).

Definition normalized (r : ExecResult) : option text :=
  normalize_output <$> stdout r.

(** The name of a snapshot: eight hexadecimal digits, an underscore, the
    base name of the original. *)
Definition snapshot_name (rid : Z) (db : text) : text :=
  hex_fixed 8 rid ++ str "_" ++ basename db.

Definition snapshot_path (env : Env) (s : State) (db : text) : text :=
  path_join (temp_dir (self s)) (snapshot_name (rand32 env (clock s)) db).

(** The finite binary64 values, in units of the least subnormal. *)
Definition representable (W : Z) : Prop :=
  exists m k, W = m * 2 ^ k /\ binary64 m k.

(** The exponent chosen by [round_core]. *)
Definition round_exp (n d : Z) : Z :=
  let k1 := Z.max 0 (Z.log2 n - Z.log2 d - 53 + ulp_bias) in
  if n * 2 ^ ulp_bias / (d * 2 ^ k1) <? mant_bound then k1 else k1 + 1.

(** Nothing to strip on the left, on the right. *)
Definition ltrimmed (ws : ascii -> bool) (s : text) : Prop :=
  match s with [] => True | c :: _ => ws c = false end.

Definition rtrimmed (ws : ascii -> bool) (s : text) : Prop :=
  rstrip_by ws s = s.

Definition trimmed (s : text) : Prop := ltrimmed isspace s /\ rtrimmed isspace s.

(** A finite float as [f"{x:.10f}"] prints it, from its sign and its value
    in units of [10^-10]. *)
Definition rendered (neg : bool) (N : Z) : text :=
  (if neg then str "-" else [])
    ++ dec_digits (N / 10 ^ 10) ++ str "." ++ digits_fixed 10 (N mod 10 ^ 10).

(** The contribution of one line of the output: nothing for a blank line. *)
Definition line_result (line : text) : list text :=
  if nonblank line then [normalize_line line] else [].

(** A list of pieces with one more character at the end of the last. *)
Fixpoint snoc_last (ls : list text) (c : ascii) : list text :=
  match ls with
  | [] => [[c]]
  | [l] => [l ++ [c]]
  | l :: r => l :: snoc_last r c
  end.

(** An optional sign and digits, nothing else. *)
Definition integer_looking (s : text) : bool :=
  let '(_, r) := read_sign s in negb (is_empty r) && forallb is_digit r.

(** The field rule as the specification words it: every field that parses
    as a float is printed anew, unless it looks like an integer. *)
Definition claimed_part (part : text) : text :=
  let part := strip part in
  match float_of_str part with
  | Some v => if integer_looking part then part else fmt10 v
  | None => part
  end.

Definition claimed_normalize (output : text) : text :=
  join ["010"%char]
    (map (fun line => join ["|"%char] (map claimed_part (split "|" line)))
       (List.filter nonblank (split "010" output))).

(** Every counter present is zero. *)
Definition all_zero (c : gmap Outcome Z) : Prop :=
  forall o v, c !! o = Some v -> v = 0.

(** The tracker was asked to save [r], answered [dir], and [dir] is what
    the object at [l] now carries. *)
Definition archived_at env (asked : list (nat * ReproArgs)) (h : gmap nat RunResult)
    (l : nat) (r : RunResult) : Prop :=
  exists tm dir,
    In (tm, repro_args r) asked
    /\ save_reproducer env tm (repro_args r) = Ok dir
    /\ h !! l = Some (set_bug_dir dir r).


(** Whether [_save_database_state] copies anything. *)
Definition can_snapshot (f : gmap text text) (db : text) : bool :=
  bool_decide (db <> str ":memory:") && path_exists f db.







(** [sum(self.stats[path].values())] *)
Definition total_count (counts : gmap Outcome Z) : Z :=
  map_fold (fun _ v acc => v + acc) 0 counts.

(** One counter, as the display reads it: [version_stats.get(outcome, 0)]. *)
Definition counter (r : Runner) (target : text) (o : Outcome) : Z :=
  match stats r !! target with
  | Some counts => default 0 (counts !! o)
  | None => 0
  end.

(** How many of the recorded entries belong to [target]. *)
Definition recorded_for (target : text) (entries : list (text * nat)) : Z :=
  Z.of_nat (length (List.filter (fun e => bool_decide (fst e = target)) entries)).

(** [l[-n:]] for [n > 0] *)
Definition last_n {A} (n : nat) (l : list A) : list A := drop (length l - n) l.

(** A session: the reset, then the trials. *)
Definition session (env : Env) (trials : list (dict nat)) : M unit :=
  let! _ := start_fuzzing_session in record_all env trials.

(** ** Further vocabulary *)

(** The outcome seen from the other side: target and reference exchanged. *)
Definition mirror (o : Outcome) : Outcome :=
  match o with
  | CRASH => REFERENCE_ERROR
  | REFERENCE_ERROR => CRASH
  | _ => o
  end.

(** Only white space. *)
Definition blank (s : text) : Prop := Forall (fun c => isspace c = true) s.

(** The lines of the output that the normalizer keeps. *)
Definition rows (output : text) : list text :=
  List.filter nonblank (split "010" output).

(** Two texts, one after the other on lines of their own. *)
Definition stack (a b : text) : text :=
  match a, b with
  | [], _ => b
  | _, [] => a
  | _, _ => a ++ "010"%char :: b
  end.

(** A copy of [db], a launch. *)
Definition is_copy_of (db : text) (e : event) : Prop :=
  exists dst data, e = EvCopy db dst data.

Definition is_launch (e : event) : Prop := exists p d, e = EvRun p d.

(** [e] is what the system answered to a file operation requested between
    [s] and [s']. *)
Definition io_failure (env : Env) (s s' : State) (e : exn) : Prop :=
  exists t, (clock s <= t < clock s')%nat /\ io_fault env t = Some e.

(** What a step that only copies or launches leaves alone. *)
Definition books_kept (s s' : State) : Prop :=
  self s' = self s /\ tracker s' = tracker s /\ heap s ⊆ heap s'
  /\ (clock s <= clock s')%nat.

(** How many of the entries belong to [target] and carry the outcome [o]. *)
Definition tally (h : gmap nat RunResult) (target : text) (o : Outcome)
    (entries : list (text * nat)) : Z :=
  Z.of_nat (length (List.filter
                      (fun e => bool_decide (fst e = target
                                             /\ outcome <$> h !! snd e = Some o))
                      entries)).

(** What the constructor fixes and no method changes but the start of a
    session. *)
Definition settings (r : Runner) : list text * text * Z * text * option nat * Z :=
  (target_sqlite_paths r, reference_sqlite_path r, timeout r, temp_dir r,
   start_time r, total_trials r).

(** The result of a launch without a data path. *)
Definition no_data_path : ExecResult :=
  {| returncode := -1; stdout := None;
     stderr := Some (str "expected str, bytes or os.PathLike object, not NoneType") |}.

(** * Proofs *)

(** ** The classifier *)

Lemma classify_cases (reference target : ExecResult) :
  well_formed reference -> well_formed target ->
  (crashed target /\ ~ crashed reference /\ classify reference target = Ok CRASH)
  \/ (crashed reference /\ ~ crashed target
      /\ classify reference target = Ok REFERENCE_ERROR)
  \/ (~ crashed reference /\ ~ crashed target
      /\ normalized target = normalized reference
      /\ classify reference target = Ok PASS)
  \/ (~ crashed reference /\ ~ crashed target
      /\ normalized target <> normalized reference
      /\ classify reference target = Ok LOGIC_BUG)
  \/ (crashed reference /\ crashed target
      /\ classify reference target = Ok INVALID_QUERY).
Proof.
  intros Hr Ht. unfold classify, crashed, normalized, well_formed in *.
  destruct (Z.eqb_spec (returncode target) 0) as [Et|Et];
    destruct (Z.eqb_spec (returncode reference) 0) as [Er|Er]; simpl.
  - destruct (Ht Et) as [ot Hot], (Hr Er) as [or Hor]. rewrite Hot, Hor. simpl.
    destruct (decide (normalize_output ot <> normalize_output or)) as [Hne|Heq].
    + right; right; right; left. repeat split; try lia. congruence.
    + right; right; left. repeat split; try lia.
      f_equal. destruct (decide (normalize_output ot = normalize_output or)); tauto.
  - right; left. repeat split; auto; lia.
  - left. repeat split; auto; lia.
  - right; right; right; right. repeat split; auto.
Qed.

(** C1: on every pair of results a launch can produce, the classifier
    returns one outcome, and each of the five outcomes is returned exactly
    in its row of the table; two outputs that both normalize to the empty
    text pass. *)
Theorem classify_table (reference target : ExecResult) :
  well_formed reference -> well_formed target ->
  exists o, classify reference target = Ok o
    /\ (o = CRASH <-> crashed target /\ ~ crashed reference)
    /\ (o = REFERENCE_ERROR <-> crashed reference /\ ~ crashed target)
    /\ (o = PASS <-> ~ crashed reference /\ ~ crashed target
                     /\ normalized target = normalized reference)
    /\ (o = LOGIC_BUG <-> ~ crashed reference /\ ~ crashed target
                          /\ normalized target <> normalized reference)
    /\ (o = INVALID_QUERY <-> crashed reference /\ crashed target)
    /\ (~ crashed reference -> ~ crashed target ->
        normalized target = Some [] -> normalized reference = Some [] ->
        o = PASS).
Proof.
  intros Hr Ht.
  destruct (classify_cases reference target Hr Ht)
    as [(A & B & C)|[(A & B & C)|[(A & B & D & C)|[(A & B & D & C)|(A & B & C)]]]];
    eexists; (split; [exact C|]);
    repeat split; try discriminate; try tauto; try congruence;
    intros; try tauto; try congruence.
Qed.

Lemma classify_table_witness :
  exists o,
    classify {| returncode := 0; stdout := Some (str "1|2.0000000000"); stderr := Some [] |}
             {| returncode := 0; stdout := Some (str "1|2.00000000001"); stderr := Some [] |}
    = Ok o /\ o = PASS.
Proof.
  destruct (classify_table
              {| returncode := 0; stdout := Some (str "1|2.0000000000"); stderr := Some [] |}
              {| returncode := 0; stdout := Some (str "1|2.00000000001"); stderr := Some [] |})
    as (o & Ho & _ & _ & Hp & _).
  - intros _. simpl. eauto.
  - intros _. simpl. eauto.
  - exists o. split; [exact Ho|]. apply Hp.
    unfold crashed, normalized.
    split; [intros H; apply H; reflexivity|].
    split; [intros H; apply H; reflexivity|].
    vm_compute. reflexivity.
Defined.

(** C10: two pairs of results with the same exit statuses and the same
    standard outputs get the same outcome, whatever their error streams. *)
Theorem classify_ignores_stderr (reference target reference' target' : ExecResult) :
  returncode reference = returncode reference' ->
  stdout reference = stdout reference' ->
  returncode target = returncode target' ->
  stdout target = stdout target' ->
  classify reference target = classify reference' target'.
Proof.
  intros Hrc Hro Htc Hto. unfold classify.
  rewrite Hrc, Hro, Htc, Hto. reflexivity.
Qed.

Lemma classify_ignores_stderr_witness :
  classify {| returncode := 0; stdout := Some (str "5"); stderr := Some [] |}
           {| returncode := 0; stdout := Some (str "6"); stderr := Some [] |}
  = classify {| returncode := 0; stdout := Some (str "5");
                stderr := Some (str "warning: journal") |}
             {| returncode := 0; stdout := Some (str "6"); stderr := None |}.
Proof. apply classify_ignores_stderr; reflexivity. Defined.

(** ** The executor *)

(** A launch result is well formed. *)
Lemma run_sqlite_well_formed env p sql db s r s' :
  run_sqlite env p sql db s = (Ok r, s') -> well_formed r.
Proof.
  unfold run_sqlite, write_script, try_except, subprocess_run, unlink_script,
    bind, tick, log, modify, ret, raise, well_formed.
  simpl. destruct (io_fault env (clock s)); [discriminate|].
  destruct db as [d|]; simpl.
  - destruct (process env _ p d sql (files s)) as [[rc out err|out err|cls msg] f];
      simpl; intros [= <- _]; simpl; eauto; discriminate.
  - intros [= <- _]. simpl. discriminate.
Qed.

(** C2 (amended): once the statement is in its temporary file, no failure
    of the launch leaves the executor as an exception: the program's own
    exit, a timeout, a launch failure and a missing data path each give a
    result, the last three with status -1. *)
Theorem run_sqlite_converts_failures env (p sql : text) (db : option text) (s : State) :
  io_fault env (clock s) = None ->
  exists r s', run_sqlite env p sql db s = (Ok r, s')
    /\ match db with
       | None =>
           r = {| returncode := -1; stdout := None;
                  stderr := Some (str "expected str, bytes or os.PathLike object, not NoneType") |}
       | Some d =>
           match fst (process env (S (clock s)) p d sql (files s)) with
           | Completed rc out err =>
               r = {| returncode := rc; stdout := Some out; stderr := Some err |}
           | TimedOut out err =>
               r = {| returncode := -1; stdout := out; stderr := err |}
           | LaunchFailed _ msg =>
               r = {| returncode := -1; stdout := None; stderr := Some msg |}
           end
       end.
Proof.
  intros Hio.
  unfold run_sqlite, write_script, try_except, subprocess_run, unlink_script,
    bind, tick, log, modify, ret, raise.
  simpl. rewrite Hio.
  destruct db as [d|]; simpl.
  - destruct (process env _ p d sql (files s)) as [[rc out err|out err|cls msg] f];
      simpl; eauto.
  - eauto.
Qed.

Lemma run_sqlite_converts_failures_witness :
  exists r s', run_sqlite calm (str "/opt/sqlite3-3.26.0") (str "SELECT 1;") None sample_state
               = (Ok r, s')
    /\ returncode r = -1.
Proof.
  destruct (run_sqlite_converts_failures calm (str "/opt/sqlite3-3.26.0")
              (str "SELECT 1;") None sample_state) as (r & s' & H & Hr).
  - reflexivity.
  - exists r, s'. split; [exact H|]. rewrite Hr. reflexivity.
Defined.

(** C2 as stated fails: an error while the statement is written to its
    temporary file, before the guarded block, reaches the caller. *)
Lemma run_sqlite_can_raise :
  fst (run_sqlite disk_full (str "/opt/sqlite3-3.26.0") (str "SELECT 1;")
         (Some (str "/tmp/fuzzqlite_k3x9/0badc0de_test.db")) sample_state)
  = Raise (Error (str "OSError") (str "No space left on device")).
Proof. reflexivity. Qed.

(** ** Paths *)

Lemma split_nonempty sep s : split sep s <> [].
Proof.
  destruct s as [|c t]; simpl; [discriminate|].
  destruct (Ascii.eqb c sep); [discriminate|].
  destruct (split sep t); discriminate.
Qed.

Lemma split_app_sep sep x y :
  split sep (x ++ sep :: y) = split sep x ++ split sep y.
Proof.
  induction x as [|c x IH]; simpl.
  - rewrite Ascii.eqb_refl. reflexivity.
  - destruct (Ascii.eqb c sep); [now rewrite IH|].
    rewrite IH. pose proof (split_nonempty sep x) as Hx.
    destruct (split sep x); [contradiction|reflexivity].
Qed.

Lemma split_without_sep sep s :
  contains sep s = false -> split sep s = [s].
Proof.
  unfold contains. induction s as [|c t IH]; simpl; [reflexivity|].
  rewrite (Ascii.eqb_sym sep c). intros H. apply orb_false_iff in H as [Hc Ht].
  rewrite Hc, (IH Ht). reflexivity.
Qed.

Lemma split_pieces sep s :
  Forall (fun piece => contains sep piece = false) (split sep s).
Proof.
  induction s as [|c t IH]; simpl.
  - constructor; [reflexivity|constructor].
  - destruct (Ascii.eqb c sep) eqn:E.
    + constructor; [reflexivity|exact IH].
    + destruct (split sep t) as [|h r]; [repeat constructor|].
      * unfold contains; simpl. now rewrite Ascii.eqb_sym, E.
      * inversion IH; subst. constructor; [|assumption].
        unfold contains in *; simpl. now rewrite Ascii.eqb_sym, E.
Qed.

Lemma last_app_nonempty {A} (l1 l2 : list A) d :
  l2 <> [] -> List.last (l1 ++ l2) d = List.last l2 d.
Proof.
  intros H. induction l1 as [|a l1 IH]; simpl; [reflexivity|].
  rewrite IH. destruct (l1 ++ l2) eqn:E; [|reflexivity].
  apply app_eq_nil in E as [_ ?]. contradiction.
Qed.

Lemma basename_has_no_slash p : contains "/" (basename p) = false.
Proof.
  unfold basename. pose proof (split_pieces "/" p) as H.
  pose proof (split_nonempty "/" p) as Hn.
  induction H as [|x l Hx Hl IH]; [contradiction|].
  destruct l; simpl; [exact Hx|]. apply IH. discriminate.
Qed.

Lemma basename_after_slash a b :
  contains "/" b = false -> basename (a ++ "/"%char :: b) = b.
Proof.
  intros H. unfold basename. rewrite split_app_sep.
  rewrite last_app_nonempty by apply split_nonempty.
  now rewrite split_without_sep.
Qed.

Lemma basename_plain b : contains "/" b = false -> basename b = b.
Proof. intros H. unfold basename. now rewrite split_without_sep. Qed.

Lemma contains_app c a b : contains c (a ++ b) = contains c a || contains c b.
Proof. unfold contains. apply existsb_app. Qed.

Lemma hex_char_not_slash d : 0 <= d < 16 -> Ascii.eqb "/" (hex_char d) = false.
Proof.
  intros H.
  assert (d = 0 \/ d = 1 \/ d = 2 \/ d = 3 \/ d = 4 \/ d = 5 \/ d = 6 \/ d = 7
          \/ d = 8 \/ d = 9 \/ d = 10 \/ d = 11 \/ d = 12 \/ d = 13 \/ d = 14
          \/ d = 15) as E by lia.
  repeat (destruct E as [->|E]; [reflexivity|]). subst. reflexivity.
Qed.

Lemma hex_fixed_no_slash w n : contains "/" (hex_fixed w n) = false.
Proof.
  revert n. induction w as [|w IH]; intros n; simpl; [reflexivity|].
  rewrite contains_app, IH.
  change (contains "/" [hex_char (n mod 16)])
    with (Ascii.eqb "/" (hex_char (n mod 16)) || false).
  rewrite hex_char_not_slash; [reflexivity|]. apply Z.mod_pos_bound. lia.
Qed.

Lemma hex_fixed_length w n : length (hex_fixed w n) = w.
Proof.
  revert n. induction w as [|w IH]; intros n; simpl; [reflexivity|].
  rewrite length_app, IH. simpl. lia.
Qed.

Lemma snapshot_name_no_slash rid db : contains "/" (snapshot_name rid db) = false.
Proof.
  unfold snapshot_name. rewrite !contains_app, hex_fixed_no_slash, basename_has_no_slash.
  reflexivity.
Qed.

Lemma path_join_relative a c b :
  Ascii.eqb c "/" = false ->
  path_join a (c :: b)
  = if is_empty a || Ascii.eqb (List.last a " "%char) "/" then a ++ c :: b
    else a ++ str "/" ++ c :: b.
Proof.
  intros H. unfold path_join.
  destruct c as [[] [] [] [] [] [] [] []]; try reflexivity. discriminate.
Qed.

Lemma basename_path_join a b :
  b <> [] -> contains "/" b = false -> basename (path_join a b) = b.
Proof.
  intros Hne Hb. destruct b as [|c b']; [contradiction|].
  rewrite path_join_relative.
  2:{ unfold contains in Hb. simpl in Hb. apply orb_false_iff in Hb as [Hc _].
      now rewrite Ascii.eqb_sym. }
  destruct a as [|x a'] eqn:Ea; simpl is_empty; cbn [orb].
  - now apply basename_plain.
  - rewrite <- Ea.
    destruct (Ascii.eqb (List.last a " "%char) "/") eqn:El.
    + assert (exists a0, a = a0 ++ ["/"%char]) as [a0 ->].
      { destruct (exists_last (l := a)) as (a0 & z & ->); [subst; discriminate|].
        rewrite last_last in El. apply Ascii.eqb_eq in El. subst z. eauto. }
      rewrite <- app_assoc. now apply basename_after_slash.
    + now apply basename_after_slash.
Qed.

(** A snapshot is never written over its original. *)
Lemma snapshot_path_differs tmp rid db :
  path_join tmp (snapshot_name rid db) <> db.
Proof.
  intros E. apply (f_equal basename) in E.
  rewrite basename_path_join in E.
  - apply (f_equal (@length ascii)) in E. unfold snapshot_name in E.
    rewrite !length_app, hex_fixed_length in E. simpl in E. lia.
  - unfold snapshot_name. destruct (hex_fixed 8 rid) eqn:Eh; [|discriminate].
    apply (f_equal (@length ascii)) in Eh. rewrite hex_fixed_length in Eh. discriminate.
  - apply snapshot_name_no_slash.
Qed.

(** ** The snapshotter *)

Lemma path_exists_lookup f p :
  path_exists f p = true -> exists c, f !! p = Some c.
Proof.
  unfold path_exists. intros H. apply andb_true_iff in H as [_ H].
  apply bool_decide_eq_true in H. exact H.
Qed.

Lemma path_exists_nonempty f p : path_exists f p = true -> is_empty p = false.
Proof.
  unfold path_exists. intros H. apply andb_true_iff in H as [H _].
  now apply negb_true_iff in H.
Qed.

Lemma save_absent env db s :
  db = str ":memory:" \/ path_exists (files s) db = false ->
  save_database_state env db s = (Ok None, s).
Proof.
  intros H. unfold save_database_state, bind, gets. simpl.
  destruct H as [-> | ->].
  - reflexivity.
  - now rewrite andb_false_r.
Qed.

Lemma save_present env db s c :
  db <> str ":memory:" -> path_exists (files s) db = true ->
  files s !! db = Some c ->
  save_database_state env db s
  = match io_fault env (S (clock s)) with
    | Some e => (Raise e, with_clock (S (S (clock s))) s)
    | None =>
        (Ok (Some (snapshot_path env s db)),
         {| files := <[snapshot_path env s db := c]> (files s);
            clock := S (S (clock s));
            trace := trace s ++ [EvCopy db (snapshot_path env s db) c];
            heap := heap s; self := self s; tracker := tracker s |})
    end.
Proof.
  intros Hm He Hc.
  unfold save_database_state, copy2, bind, gets, tick, log, modify, ret, raise.
  simpl. rewrite He, (path_exists_nonempty _ _ He). simpl.
  rewrite bool_decide_eq_true_2 by assumption. simpl.
  destruct (io_fault env (S (clock s))); [reflexivity|].
  simpl. rewrite Hc.
  fold (snapshot_name (rand32 env (clock s)) db).
  destruct (decide (db = _)) as [E|_].
  - symmetry in E. now apply snapshot_path_differs in E.
  - reflexivity.
Qed.

(** C7: the snapshotter returns none for the sentinel and for a path that
    does not exist; otherwise it copies the file into the scratch directory
    under eight random hexadecimal digits, an underscore and the base name,
    leaves the original as it was, and lets a failed copy reach the caller.
    The trial number plays no part. *)
Theorem save_database_state_contract env (db : text) (s : State) :
  (db = str ":memory:" \/ path_exists (files s) db = false ->
   save_database_state env db s = (Ok None, s))
  /\ (db <> str ":memory:" -> path_exists (files s) db = true ->
      exists c s', files s !! db = Some c
        /\ snd (save_database_state env db s) = s'
        /\ files s' !! db = Some c
        /\ match io_fault env (S (clock s)) with
           | Some e => fst (save_database_state env db s) = Raise e
                       /\ files s' = files s
           | None =>
               let dst := path_join (temp_dir (self s))
                            (hex_fixed 8 (rand32 env (clock s)) ++ str "_" ++ basename db) in
               fst (save_database_state env db s) = Ok (Some dst)
               /\ files s' = <[dst := c]> (files s)
           end)
  /\ (forall n : Z,
        fst (save_database_state env db
               (with_self (with_current_trial n (self s)) s))
        = fst (save_database_state env db s)).
Proof.
  split; [apply save_absent|]. split.
  - intros Hm He. destruct (path_exists_lookup _ _ He) as [c Hc].
    exists c. eexists. split; [exact Hc|]. split; [reflexivity|].
    rewrite (save_present env db s c Hm He Hc).
    destruct (io_fault env (S (clock s))); simpl.
    + auto.
    + split; [|split; reflexivity].
      rewrite lookup_insert_ne; [exact Hc|]. apply snapshot_path_differs.
  - intros n.
    destruct (decide (db = str ":memory:")) as [Hm|Hm].
    { now rewrite !save_absent by auto. }
    destruct (path_exists (files s) db) eqn:He.
    2:{ now rewrite !save_absent by auto. }
    destruct (path_exists_lookup _ _ He) as [c Hc].
    rewrite (save_present env db s c Hm He Hc).
    rewrite (save_present env db (with_self (with_current_trial n (self s)) s)
               c Hm He Hc).
    simpl. destruct (io_fault env (S (clock s))); reflexivity.
Qed.

Lemma save_database_state_contract_witness :
  save_database_state calm (str ":memory:") sample_state = (Ok None, sample_state)
  /\ fst (save_database_state calm (str "/data/test.db") sample_state)
     = Ok (Some (str "/tmp/fuzzqlite_k3x9/deadbeef_test.db")).
Proof.
  destruct (save_database_state_contract calm (str ":memory:") sample_state)
    as (Ha & _).
  destruct (save_database_state_contract calm (str "/data/test.db") sample_state)
    as (_ & Hb & _).
  split.
  - apply Ha. left. reflexivity.
  - destruct Hb as (c & s' & _ & _ & _ & Hd).
    + discriminate.
    + reflexivity.
    + assert (io_fault calm (S (clock sample_state)) = None) as E by reflexivity.
      rewrite E in Hd. destruct Hd as [Hd _]. exact Hd.
Defined.

(** ** The session *)

Lemma total_count_empty : total_count ∅ = 0.
Proof. apply map_fold_empty. Qed.

Lemma total_count_insert_fresh (c : gmap Outcome Z) o v :
  c !! o = None -> total_count (<[o := v]> c) = v + total_count c.
Proof.
  intros H. unfold total_count.
  rewrite map_fold_insert_L; [reflexivity| |exact H].
  intros. lia.
Qed.

Lemma total_count_bump (c : gmap Outcome Z) o :
  total_count (<[o := default 0 (c !! o) + 1]> c) = total_count c + 1.
Proof.
  destruct (c !! o) as [v|] eqn:E; simpl.
  - rewrite <- insert_delete_eq.
    rewrite total_count_insert_fresh by apply lookup_delete_eq.
    rewrite <- (insert_delete_id c o v) at 2 by exact E.
    rewrite total_count_insert_fresh by apply lookup_delete_eq. lia.
  - rewrite total_count_insert_fresh by exact E. lia.
Qed.

Lemma total_count_zeroed (c : gmap Outcome Z) :
  total_count ((fun _ => 0) <$> c) = 0.
Proof.
  induction c as [|o v c Hc IH] using map_ind.
  - rewrite fmap_empty. apply total_count_empty.
  - rewrite fmap_insert, total_count_insert_fresh, IH; [reflexivity|].
    rewrite lookup_fmap, Hc. reflexivity.
Qed.

(** The sum of the values is the sum of the five counters. *)
Lemma total_count_five (c : gmap Outcome Z) :
  total_count c
  = default 0 (c !! PASS) + default 0 (c !! CRASH) + default 0 (c !! LOGIC_BUG)
    + default 0 (c !! REFERENCE_ERROR) + default 0 (c !! INVALID_QUERY).
Proof.
  induction c as [|o v c Hc IH] using map_ind.
  - rewrite total_count_empty, !lookup_empty. reflexivity.
  - rewrite total_count_insert_fresh, IH by exact Hc.
    destruct o; rewrite lookup_insert_eq, !lookup_insert_ne, Hc by discriminate;
      simpl; lia.
Qed.

(** What one pass of the loop of [record_results] does. *)
Lemma record_one_eq env target l s :
  record_one env (target, l) s
  = match heap s !! l with
    | None => (Raise (Error (str "ReferenceError") []), s)
    | Some rr =>
        match stats (self s) !! target with
        | None => (Raise (Error (str "KeyError") target), s)
        | Some counts =>
            let o := outcome rr in
            let me :=
              with_run_results (run_results (self s) ++ [(target, l)])
                (with_stats
                   (<[target := <[o := default 0 (counts !! o) + 1]> counts]>
                      (stats (self s))) (self s)) in
            if archived o then
              match save_reproducer env (clock s) (repro_args rr) with
              | Ok dir =>
                  (Ok tt,
                   {| files := files s; clock := S (clock s); trace := trace s;
                      heap := alter (set_bug_dir dir) l (heap s); self := me;
                      tracker := tracker s ++ [(clock s, repro_args rr)] |})
              | Raise e =>
                  (Raise e,
                   {| files := files s; clock := S (clock s); trace := trace s;
                      heap := heap s; self := me;
                      tracker := tracker s ++ [(clock s, repro_args rr)] |})
              end
            else (Ok tt, with_self me s)
        end
    end.
Proof.
  unfold record_one, deref, bind, gets, modify_self, modify, key_error, raise,
    ret, tick, lift.
  destruct (heap s !! l) as [rr|]; [|reflexivity]. simpl.
  destruct (stats (self s) !! target) as [counts|]; [|reflexivity]. simpl.
  destruct (archived (outcome rr)); [|reflexivity]. simpl.
  destruct (save_reproducer env (clock s) (repro_args rr)); reflexivity.
Qed.

(** The runner after one pass, whether or not the tracker failed. *)
Lemma record_one_runner env target l s res s' :
  record_one env (target, l) s = (res, s') ->
  self s' = self s
  \/ exists counts o,
       stats (self s) !! target = Some counts
       /\ self s' = with_run_results (run_results (self s) ++ [(target, l)])
                      (with_stats
                         (<[target := <[o := default 0 (counts !! o) + 1]> counts]>
                            (stats (self s))) (self s)).
Proof.
  rewrite record_one_eq.
  destruct (heap s !! l) as [rr|]; [|intros [= _ <-]; now left].
  destruct (stats (self s) !! target) as [counts|] eqn:Ec; [|intros [= _ <-]; now left].
  cbv zeta. intros H. right. exists counts, (outcome rr). split; [reflexivity|].
  destruct (archived (outcome rr)).
  - destruct (save_reproducer env (clock s) (repro_args rr));
      injection H as _ <-; reflexivity.
  - injection H as _ <-. reflexivity.
Qed.

Lemma record_one_ok_runner env target l s s' :
  record_one env (target, l) s = (Ok tt, s') ->
  exists counts o,
    stats (self s) !! target = Some counts
    /\ self s' = with_run_results (run_results (self s) ++ [(target, l)])
                   (with_stats
                      (<[target := <[o := default 0 (counts !! o) + 1]> counts]>
                         (stats (self s))) (self s)).
Proof.
  rewrite record_one_eq.
  destruct (heap s !! l) as [rr|]; [|discriminate].
  destruct (stats (self s) !! target) as [counts|] eqn:Ec; [|discriminate].
  cbv zeta. intros H. exists counts, (outcome rr). split; [reflexivity|].
  destruct (archived (outcome rr)).
  - destruct (save_reproducer env (clock s) (repro_args rr));
      [injection H as <-; reflexivity|discriminate].
  - injection H as <-. reflexivity.
Qed.

Lemma counter_bump r target l counts o t0 o0 :
  stats r !! target = Some counts ->
  counter r t0 o0
  <= counter (with_run_results (run_results r ++ [(target, l)])
               (with_stats (<[target := <[o := default 0 (counts !! o) + 1]> counts]>
                              (stats r)) r)) t0 o0.
Proof.
  intros H. unfold counter. simpl.
  destruct (decide (target = t0)) as [->|Hn].
  - rewrite lookup_insert_eq, H.
    destruct (decide (o = o0)) as [->|Ho].
    + rewrite lookup_insert_eq. simpl. lia.
    + rewrite lookup_insert_ne by exact Ho. lia.
  - rewrite lookup_insert_ne by exact Hn. lia.
Qed.

Lemma for_each_unit_cons {A} (body : A -> M unit) x xs s :
  for_each (fun _ a => body a) (x :: xs) tt s
  = match body x s with
    | (Ok _, s1) => for_each (fun _ a => body a) xs tt s1
    | (Raise e, s1) => (Raise e, s1)
    end.
Proof.
  simpl. unfold bind. destruct (body x s) as [[[]|e] s1]; reflexivity.
Qed.

(** No counter ever decreases in the loop of [record_results]. *)
Lemma record_loop_monotone env results : forall s res s' t0 o0,
  for_each (fun _ item => record_one env item) results tt s = (res, s') ->
  counter (self s) t0 o0 <= counter (self s') t0 o0.
Proof.
  induction results as [|[target l] rest IH]; intros s res s' t0 o0 H.
  - injection H as _ <-. lia.
  - rewrite (for_each_unit_cons (record_one env)) in H.
    destruct (record_one env (target, l) s) as [[[]|e] s1] eqn:E1.
    + specialize (IH _ _ _ t0 o0 H).
      apply record_one_runner in E1 as [E|(counts & o & Hc & E)];
        rewrite E in IH; [exact IH|].
      etransitivity; [|exact IH]. now apply counter_bump.
    + injection H as _ <-.
      apply record_one_runner in E1 as [E|(counts & o & Hc & E)]; rewrite E;
        [lia|now apply counter_bump].
Qed.

Lemma recorded_for_cons t0 target l rest :
  recorded_for t0 ((target, l) :: rest)
  = (if decide (target = t0) then 1 else 0) + recorded_for t0 rest.
Proof.
  unfold recorded_for. simpl.
  destruct (decide (target = t0)) as [E|E].
  - rewrite bool_decide_eq_true_2 by exact E. simpl length. lia.
  - rewrite bool_decide_eq_false_2 by exact E. lia.
Qed.

Lemma recorded_for_app t0 a b :
  recorded_for t0 (a ++ b) = recorded_for t0 a + recorded_for t0 b.
Proof.
  unfold recorded_for. rewrite List.filter_app, length_app. lia.
Qed.

(** The loop of [record_results], when it runs to its end: every entry is
    appended to the history and counted once for its target. *)
Lemma record_loop_ok env results : forall s s',
  for_each (fun _ item => record_one env item) results tt s = (Ok tt, s') ->
  run_results (self s') = run_results (self s) ++ results
  /\ target_sqlite_paths (self s') = target_sqlite_paths (self s)
  /\ forall t0 c, stats (self s) !! t0 = Some c ->
       exists c', stats (self s') !! t0 = Some c'
                  /\ total_count c' = total_count c + recorded_for t0 results.
Proof.
  induction results as [|[target l] rest IH]; intros s s' H.
  - injection H as <-. rewrite app_nil_r. repeat split.
    intros t0 c Hc. exists c. split; [exact Hc|]. unfold recorded_for. simpl. lia.
  - rewrite (for_each_unit_cons (record_one env)) in H.
    destruct (record_one env (target, l) s) as [[[]|e] s1] eqn:E1; [|discriminate].
    apply record_one_ok_runner in E1 as (counts & o & Hc & E).
    destruct (IH _ _ H) as (Hh & Ht & Hs). rewrite E in Hh, Ht, Hs. simpl in *.
    split; [now rewrite Hh, <- app_assoc|]. split; [exact Ht|].
    intros t0 c Ht0. rewrite recorded_for_cons.
    destruct (decide (target = t0)) as [->|Hn].
    + destruct (Hs t0 (<[o := default 0 (counts !! o) + 1]> counts)) as (c' & Hc' & Hsum).
      { apply lookup_insert_eq. }
      exists c'. split; [exact Hc'|]. rewrite Hsum, total_count_bump.
      assert (c = counts) as -> by congruence. lia.
    + destruct (Hs t0 c) as (c' & Hc' & Hsum).
      { now rewrite lookup_insert_ne. }
      exists c'. split; [exact Hc'|]. lia.
Qed.

Lemma record_results_eq env results s :
  record_results env results s
  = match for_each (fun _ item => record_one env item) results tt
            (with_self (with_current_trial (current_trial (self s) + 1) (self s)) s) with
    | (Ok _, s1) =>
        (Ok tt,
         if (max_results_to_keep <? length (run_results (self s1)))%nat
         then with_self (with_run_results
                           (drop (length (run_results (self s1)) - max_results_to_keep)
                              (run_results (self s1))) (self s1)) s1
         else s1)
    | (Raise e, s1) => (Raise e, s1)
    end.
Proof.
  unfold record_results, bind, modify_self, modify, gets, ret. simpl.
  destruct (for_each _ results tt _) as [[[]|e] s1]; [|reflexivity].
  destruct (max_results_to_keep <? _)%nat; reflexivity.
Qed.

Lemma last_n_short {A} n (l : list A) : (length l <= n)%nat -> last_n n l = l.
Proof. intros H. unfold last_n. replace (length l - n)%nat with 0%nat by lia. reflexivity. Qed.

Lemma last_n_length {A} n (l : list A) : (length (last_n n l) <= n)%nat.
Proof. unfold last_n. rewrite length_drop. lia. Qed.

Lemma last_n_app {A} n (a b : list A) :
  last_n n (last_n n a ++ b) = last_n n (a ++ b).
Proof.
  unfold last_n. rewrite !length_app, length_drop.
  rewrite !drop_app, drop_drop, length_drop. f_equal.
  - f_equal. lia.
  - f_equal. lia.
Qed.

(** One call of [record_results] that returns. *)
Lemma record_results_ok env results s s' :
  record_results env results s = (Ok tt, s') ->
  run_results (self s') = last_n max_results_to_keep (run_results (self s) ++ results)
  /\ target_sqlite_paths (self s') = target_sqlite_paths (self s)
  /\ forall t0 c, stats (self s) !! t0 = Some c ->
       exists c', stats (self s') !! t0 = Some c'
                  /\ total_count c' = total_count c + recorded_for t0 results.
Proof.
  rewrite record_results_eq.
  destruct (for_each _ results tt _) as [[[]|e] s1] eqn:E; [|discriminate].
  apply record_loop_ok in E as (Hh & Ht & Hs). simpl in Hh, Ht, Hs.
  intros [= <-]. rewrite <- Hh.
  destruct (Nat.ltb_spec max_results_to_keep (length (run_results (self s1)))).
  - simpl. repeat split; auto.
  - rewrite last_n_short by lia. repeat split; auto.
Qed.

Lemma record_results_monotone env results s res s' t0 o0 :
  record_results env results s = (res, s') ->
  counter (self s) t0 o0 <= counter (self s') t0 o0.
Proof.
  rewrite record_results_eq.
  destruct (for_each _ results tt _) as [[[]|e] s1] eqn:E;
    apply record_loop_monotone with (t0 := t0) (o0 := o0) in E;
    intros [= _ <-]; [|exact E].
  destruct (max_results_to_keep <? _)%nat; exact E.
Qed.

(** A sequence of calls that all return. *)
Lemma record_all_ok env trials : forall s s',
  (length (run_results (self s)) <= max_results_to_keep)%nat ->
  record_all env trials s = (Ok tt, s') ->
  run_results (self s')
  = last_n max_results_to_keep (run_results (self s) ++ concat trials)
  /\ target_sqlite_paths (self s') = target_sqlite_paths (self s)
  /\ forall t0 c, stats (self s) !! t0 = Some c ->
       exists c', stats (self s') !! t0 = Some c'
                  /\ total_count c' = total_count c + recorded_for t0 (concat trials).
Proof.
  unfold record_all.
  induction trials as [|results rest IH]; intros s s' Hlen H.
  - injection H as <-. simpl. rewrite app_nil_r, last_n_short by exact Hlen.
    repeat split. intros t0 c Hc. exists c. split; [exact Hc|].
    unfold recorded_for. simpl. lia.
  - rewrite (for_each_unit_cons (record_results env)) in H.
    destruct (record_results env results s) as [[[]|e] s1] eqn:E1; [|discriminate].
    apply record_results_ok in E1 as (Hh1 & Ht1 & Hs1).
    destruct (IH s1 s') as (Hh & Ht & Hs); [|exact H|].
    { rewrite Hh1. apply last_n_length. }
    split; [|split].
    + rewrite Hh, Hh1. simpl. rewrite last_n_app, <- app_assoc. reflexivity.
    + congruence.
    + intros t0 c Hc. destruct (Hs1 t0 c Hc) as (c1 & Hc1 & Hsum1).
      destruct (Hs t0 c1 Hc1) as (c' & Hc' & Hsum).
      exists c'. split; [exact Hc'|]. simpl. rewrite recorded_for_app. lia.
Qed.

Lemma record_all_monotone env trials : forall s res s' t0 o0,
  record_all env trials s = (res, s') ->
  counter (self s) t0 o0 <= counter (self s') t0 o0.
Proof.
  unfold record_all.
  induction trials as [|results rest IH]; intros s res s' t0 o0 H.
  - injection H as _ <-. lia.
  - rewrite (for_each_unit_cons (record_results env)) in H.
    destruct (record_results env results s) as [[[]|e] s1] eqn:E1.
    + etransitivity; [eapply record_results_monotone; exact E1|].
      eapply IH; exact H.
    + injection H as _ <-. eapply record_results_monotone; exact E1.
Qed.

Lemma all_zero_total c : all_zero c -> total_count c = 0.
Proof.
  induction c as [|o v c Hc IH] using map_ind; intros H.
  - apply total_count_empty.
  - rewrite total_count_insert_fresh by exact Hc.
    rewrite (H o v) by apply lookup_insert_eq. rewrite IH; [reflexivity|].
    intros o' v' Ho'. apply (H o' v').
    rewrite lookup_insert_ne; [exact Ho'|]. intros ->. congruence.
Qed.

Lemma all_zero_zeroed (c : gmap Outcome Z) : all_zero ((fun _ => 0) <$> c).
Proof.
  intros o v. rewrite lookup_fmap. destruct (c !! o); simpl; congruence.
Qed.

Lemma reset_loop_cons p ps s :
  reset_loop (p :: ps) s
  = match stats (self s) !! p with
    | None => (Raise (Error (str "KeyError") p), s)
    | Some counts =>
        reset_loop ps
          (with_self (with_stats (<[p := (fun _ => 0) <$> counts]> (stats (self s)))
                        (self s)) s)
    end.
Proof.
  unfold reset_loop. simpl. unfold bind at 1. unfold bind at 1. unfold gets at 1.
  destruct (stats (self s) !! p); reflexivity.
Qed.

Lemma reset_loop_ok ps : forall s s',
  reset_loop ps s = (Ok tt, s') ->
  run_results (self s') = run_results (self s)
  /\ target_sqlite_paths (self s') = target_sqlite_paths (self s)
  /\ (forall t0, In t0 ps ->
        exists c c', stats (self s) !! t0 = Some c
                     /\ stats (self s') !! t0 = Some c'
                     /\ c' = (fun _ => 0) <$> c)
  /\ (forall t0 c, stats (self s) !! t0 = Some c ->
        exists c', stats (self s') !! t0 = Some c'
                   /\ (c' = c \/ c' = (fun _ => 0) <$> c)).
Proof.
  induction ps as [|p ps IH]; intros s s' H.
  - injection H as <-. repeat split; [intros ? []|]. eauto.
  - rewrite reset_loop_cons in H.
    destruct (stats (self s) !! p) as [counts|] eqn:Ep; [|discriminate].
    destruct (IH _ _ H) as (Hh & Ht & Hin & Hpres). simpl in *.
    split; [exact Hh|]. split; [exact Ht|]. split.
    + intros t0 [<-|Hi].
      * destruct (Hpres p ((fun _ => 0) <$> counts)) as (c' & Hc' & Hz).
        { apply lookup_insert_eq. }
        exists counts, c'. split; [exact Ep|]. split; [exact Hc'|].
        destruct Hz as [->| ->]; [reflexivity|].
        rewrite <- map_fmap_compose. reflexivity.
      * destruct (Hin t0 Hi) as (c & c' & Hc & Hc' & Hz).
        destruct (decide (p = t0)) as [->|Hn].
        -- rewrite lookup_insert_eq in Hc. injection Hc as <-.
           exists counts, c'. split; [exact Ep|]. split; [exact Hc'|].
           rewrite Hz, <- map_fmap_compose. reflexivity.
        -- rewrite lookup_insert_ne in Hc by exact Hn. eauto.
    + intros t0 c Hc.
      destruct (decide (p = t0)) as [->|Hn].
      * destruct (Hpres t0 ((fun _ => 0) <$> counts)) as (c' & Hc' & Hz).
        { apply lookup_insert_eq. }
        exists c'. split; [exact Hc'|]. right.
        assert (c = counts) as -> by congruence.
        destruct Hz as [->| ->]; [reflexivity|].
        rewrite <- map_fmap_compose. reflexivity.
      * apply Hpres. now rewrite lookup_insert_ne.
Qed.

Lemma start_fuzzing_session_ok s s' :
  start_fuzzing_session s = (Ok tt, s') ->
  run_results (self s') = []
  /\ target_sqlite_paths (self s') = target_sqlite_paths (self s)
  /\ forall t0, In t0 (target_sqlite_paths (self s)) ->
       exists c, stats (self s) !! t0 = Some c
                 /\ stats (self s') !! t0 = Some ((fun _ => 0) <$> c).
Proof.
  unfold start_fuzzing_session, bind, gets, modify_self, modify. simpl.
  intros H. apply reset_loop_ok in H as (Hh & Ht & Hin & _). simpl in *.
  split; [exact Hh|]. split; [exact Ht|].
  intros t0 Hi. destruct (Hin t0 Hi) as (c & c' & Hc & Hc' & ->). eauto.
Qed.

(** C8: after the reset, which puts every counter of every target at
    zero, and any number of recorded trials, the counts of a target add up
    to the number of results recorded for it; and no call of
    [record_results] lowers a counter. *)
Theorem session_counts_balance env (trials : list (dict nat)) (s s' : State) :
  session env trials s = (Ok tt, s') ->
  (exists s0, start_fuzzing_session s = (Ok tt, s0)
     /\ record_all env trials s0 = (Ok tt, s')
     /\ forall target o, In target (target_sqlite_paths (self s)) ->
          counter (self s0) target o = 0)
  /\ (forall target, In target (target_sqlite_paths (self s)) ->
        exists counts, stats (self s') !! target = Some counts
          /\ total_count counts = recorded_for target (concat trials)
          /\ default 0 (counts !! PASS) + default 0 (counts !! CRASH)
             + default 0 (counts !! LOGIC_BUG)
             + default 0 (counts !! REFERENCE_ERROR)
             + default 0 (counts !! INVALID_QUERY)
             = recorded_for target (concat trials))
  /\ (forall results s1 res s2 target o,
        record_results env results s1 = (res, s2) ->
        counter (self s1) target o <= counter (self s2) target o).
Proof.
  unfold session, bind. intros H.
  destruct (start_fuzzing_session s) as [[[]|e] s0] eqn:E0; [|discriminate].
  pose proof (start_fuzzing_session_ok _ _ E0) as (Hh0 & Ht0 & Hz).
  split; [|split].
  - exists s0. repeat split; [exact H|].
    intros target o Hin. destruct (Hz target Hin) as (c & _ & Hc).
    unfold counter. rewrite Hc, lookup_fmap. destruct (c !! o); reflexivity.
  - intros target Hin. destruct (Hz target Hin) as (c & _ & Hc).
    apply record_all_ok in H as (_ & _ & Hs).
    2:{ rewrite Hh0. simpl. unfold max_results_to_keep. lia. }
    destruct (Hs target _ Hc) as (c' & Hc' & Hsum).
    rewrite total_count_zeroed in Hsum.
    exists c'. split; [exact Hc'|]. split; [lia|].
    rewrite <- total_count_five. lia.
  - intros results s1 res s2 target o. apply record_results_monotone.
Qed.


Lemma session_counts_balance_witness :
  exists counts,
    stats (self (snd (session calm sample_trials recorded_state)))
      !! str "/opt/sqlite3-3.26.0" = Some counts
    /\ total_count counts = 30.
Proof.
  destruct (session_counts_balance calm sample_trials recorded_state
              (snd (session calm sample_trials recorded_state)))
    as (_ & H & _).
  - vm_compute. reflexivity.
  - destruct (H (str "/opt/sqlite3-3.26.0")) as (counts & Hc & Hsum & _).
    + left. reflexivity.
    + exists counts. split; [exact Hc|]. rewrite Hsum. vm_compute. reflexivity.
Defined.


(** ** Archiving *)

Lemma repro_args_set_bug_dir d r : repro_args (set_bug_dir d r) = repro_args r.
Proof. reflexivity. Qed.

Lemma set_bug_dir_twice d d' r : set_bug_dir d (set_bug_dir d' r) = set_bug_dir d r.
Proof. reflexivity. Qed.

(** A result is its constructor arguments and its archive location. *)
Lemma run_result_eta r r' d :
  repro_args r' = repro_args r -> bug_dir r' = Some d -> r' = set_bug_dir d r.
Proof.
  destruct r, r'. unfold repro_args, set_bug_dir. simpl.
  intros [= -> -> -> -> -> -> -> ->] ->. reflexivity.
Qed.

Lemma run_result_same r r' :
  repro_args r' = repro_args r -> bug_dir r' = bug_dir r -> r' = r.
Proof.
  destruct r, r'. unfold repro_args. simpl.
  intros [= -> -> -> -> -> -> -> ->] ->. reflexivity.
Qed.

(** The objects and the tracker after one pass that returns. *)
Lemma record_one_ok_heap env target l s s' :
  record_one env (target, l) s = (Ok tt, s') ->
  exists rr, heap s !! l = Some rr
    /\ ((archived (outcome rr) = false
         /\ heap s' = heap s /\ tracker s' = tracker s)
        \/ (archived (outcome rr) = true
            /\ exists dir,
                 save_reproducer env (clock s) (repro_args rr) = Ok dir
                 /\ heap s' = alter (set_bug_dir dir) l (heap s)
                 /\ tracker s' = tracker s ++ [(clock s, repro_args rr)])).
Proof.
  rewrite record_one_eq.
  destruct (heap s !! l) as [rr|]; [|discriminate].
  destruct (stats (self s) !! target) as [counts|]; [|discriminate].
  cbv zeta. intros H. exists rr. split; [reflexivity|].
  destruct (archived (outcome rr)).
  - destruct (save_reproducer env (clock s) (repro_args rr)) as [dir|e] eqn:Es;
      [|discriminate].
    injection H as <-. right. split; [reflexivity|]. exists dir. auto.
  - injection H as <-. left. auto.
Qed.

Lemma record_loop_archive env results : forall s s',
  for_each (fun _ item => record_one env item) results tt s = (Ok tt, s') ->
  exists asked,
    tracker s' = tracker s ++ asked
    /\ Forall (fun x => archived (a_bug_type (snd x)) = true) asked
    /\ (forall l r, heap s !! l = Some r ->
          heap s' !! l = Some r \/ archived_at env asked (heap s') l r)
    /\ (forall l r, heap s !! l = Some r -> archived (outcome r) = false ->
          heap s' !! l = Some r)
    /\ (forall target l r, In (target, l) results -> heap s !! l = Some r ->
          archived (outcome r) = true -> archived_at env asked (heap s') l r).
Proof.
  induction results as [|[target l] rest IH]; intros s s' H.
  - injection H as <-. exists []. rewrite app_nil_r.
    repeat split; auto. intros ? ? ? [].
  - rewrite (for_each_unit_cons (record_one env)) in H.
    destruct (record_one env (target, l) s) as [[[]|e] s1] eqn:E1; [|discriminate].
    apply record_one_ok_heap in E1 as (rr & Hl & Hcase).
    destruct (IH _ _ H) as (asked & Htr & Hall & Hobj & Hkeep & Harch).
    destruct Hcase as [(Hna & Hh1 & Ht1)|(Ha & dir & Hsave & Hh1 & Ht1)].
    + (* nothing to archive for this entry *)
      rewrite Hh1 in Hobj, Hkeep, Harch. rewrite Ht1 in Htr.
      exists asked. repeat split; auto.
      intros target0 l0 r0 [[= <- <-]|Hin] Hl0 Ha0.
      * congruence.
      * eauto.
    + (* the entry is handed to the tracker *)
      rewrite Hh1 in Hobj, Hkeep, Harch. rewrite Ht1, <- app_assoc in Htr.
      assert (forall d r, archived_at env asked (heap s') l (set_bug_dir d r) ->
              archived_at env ([(clock s, repro_args r)] ++ asked) (heap s') l r)
        as Hlift.
      { intros d r (tm & dir' & Hin & Hs & Hh). exists tm, dir'.
        split; [right; exact Hin|]. split; [exact Hs|exact Hh]. }
      assert (forall l0 r, archived_at env asked (heap s') l0 r ->
              archived_at env ([(clock s, repro_args rr)] ++ asked) (heap s') l0 r)
        as Hweak.
      { intros l0 r (tm & dir' & Hin & Hs & Hh). exists tm, dir'.
        split; [right; exact Hin|]. auto. }
      assert (archived_at env ([(clock s, repro_args rr)] ++ asked) (heap s') l rr)
        as Hhead.
      { destruct (Hobj l (set_bug_dir dir rr)) as [Hsame|Hlater].
        - rewrite lookup_alter_eq, Hl. reflexivity.
        - exists (clock s), dir. split; [left; reflexivity|]. auto.
        - eapply Hlift; exact Hlater. }
      exists ([(clock s, repro_args rr)] ++ asked).
      split; [exact Htr|]. split; [constructor; [exact Ha|exact Hall]|].
      split; [|split].
      * intros l0 r0 Hl0.
        destruct (decide (l0 = l)) as [->|Hn].
        -- right. assert (r0 = rr) as -> by congruence. exact Hhead.
        -- destruct (Hobj l0 r0) as [Hsame|Hlater].
           ++ rewrite lookup_alter_ne by congruence. exact Hl0.
           ++ now left.
           ++ right. now apply Hweak.
      * intros l0 r0 Hl0 Hn0. apply Hkeep; [|exact Hn0].
        rewrite lookup_alter_ne; [exact Hl0|]. intros ->. congruence.
      * intros target0 l0 r0 [[= <- <-]|Hin] Hl0 Ha0.
        -- assert (r0 = rr) as -> by congruence. exact Hhead.
        -- destruct (decide (l0 = l)) as [->|Hn].
           ++ assert (r0 = rr) as -> by congruence. exact Hhead.
           ++ apply Hweak. eapply Harch; eauto.
              rewrite lookup_alter_ne by congruence. exact Hl0.
Qed.

(** C3 (amended): when [record_results] returns, every result it was given
    whose outcome is CRASH, LOGIC_BUG or REFERENCE_ERROR has been handed to
    the bug tracker during the call, and carries the location the tracker
    returned; a PASS or INVALID_QUERY result is not handed over and is left
    as it was. *)
Theorem record_results_archives env (results : dict nat) (s s' : State) :
  record_results env results s = (Ok tt, s') ->
  exists asked,
    tracker s' = tracker s ++ asked
    /\ forall target l r,
         In (target, l) results -> heap s !! l = Some r ->
         (outcome r ∈ [CRASH; LOGIC_BUG; REFERENCE_ERROR] ->
          exists tm dir,
            In (tm, repro_args r) asked
            /\ save_reproducer env tm (repro_args r) = Ok dir
            /\ heap s' !! l = Some (set_bug_dir dir r))
         /\ (outcome r ∈ [PASS; INVALID_QUERY] ->
             heap s' !! l = Some r
             /\ ~ In (repro_args r) (map snd asked)).
Proof.
  rewrite record_results_eq.
  destruct (for_each _ results tt _) as [[[]|e] s1] eqn:E; [|discriminate].
  apply record_loop_archive in E as (asked & Htr & Hall & _ & Hkeep & Harch).
  simpl in Htr, Hkeep, Harch.
  intros [= <-]. exists asked. split.
  { destruct (max_results_to_keep <? _)%nat; exact Htr. }
  intros target l r Hin Hl.
  assert (heap (if (max_results_to_keep <? length (run_results (self s1)))%nat
                then with_self (with_run_results
                                  (drop (length (run_results (self s1))
                                         - max_results_to_keep)
                                     (run_results (self s1))) (self s1)) s1
                else s1) = heap s1) as ->.
  { destruct (max_results_to_keep <? _)%nat; reflexivity. }
  split.
  - intros Ho. apply (Harch target l r Hin Hl).
    unfold archived. now apply bool_decide_eq_true.
  - intros Ho.
    assert (archived (outcome r) = false) as Hna.
    { unfold archived. apply bool_decide_eq_false. intros Hc.
      rewrite !elem_of_cons in Ho. rewrite !elem_of_cons in Hc.
      destruct Ho as [Ho|[Ho|Ho]]; [| |now apply elem_of_nil in Ho];
        rewrite Ho in Hc;
        destruct Hc as [Hc|[Hc|[Hc|Hc]]]; try discriminate;
        now apply elem_of_nil in Hc. }
    split; [now apply Hkeep|].
    intros Hi. apply in_map_iff in Hi as ([tm a] & Ha & Hi). simpl in Ha. subst a.
    rewrite Forall_forall in Hall. specialize (Hall _ (proj2 (list_elem_of_In _ _) Hi)).
    simpl in Hall. congruence.
Qed.

Lemma record_results_archives_witness :
  exists tm dir,
    save_reproducer calm tm (repro_args (sample_result CRASH)) = Ok dir
    /\ heap (snd (record_results calm sample_trial recorded_state)) !! 1%nat
       = Some (set_bug_dir dir (sample_result CRASH)).
Proof.
  destruct (record_results_archives calm sample_trial recorded_state
              (snd (record_results calm sample_trial recorded_state)))
    as (asked & _ & H).
  - vm_compute. reflexivity.
  - destruct (H (str "/opt/sqlite3-3.26.0") 1%nat (sample_result CRASH))
      as [Ha _].
    + left. reflexivity.
    + vm_compute. reflexivity.
    + destruct Ha as (tm & dir & _ & Hs & Hh).
      * apply elem_of_cons. left. reflexivity.
      * exists tm, dir. split; [exact Hs|exact Hh].
Defined.

(** C3 as stated fails: an INVALID_QUERY result is recorded and counted,
    yet the bug tracker is never asked and no location is attached. *)
Lemma invalid_query_left_unarchived :
  let after := record_results calm [(str "/opt/sqlite3-3.39.4", 2%nat)] recorded_state in
  fst after = Ok tt
  /\ heap recorded_state !! 2%nat = Some (sample_result INVALID_QUERY)
  /\ outcome (sample_result INVALID_QUERY) <> PASS
  /\ tracker (snd after) = []
  /\ bug_dir <$> heap (snd after) !! 2%nat = Some None
  /\ counter (self (snd after)) (str "/opt/sqlite3-3.39.4") INVALID_QUERY = 1.
Proof.
  vm_compute. repeat split; try reflexivity. discriminate.
Qed.

(** ** One trial *)

Section Trial.
Variable env : Env.
Hypothesis no_fault : forall t, io_fault env t = None.







Lemma classify_well_formed r t :
  well_formed r -> well_formed t -> exists o, classify r t = Ok o.
Proof.
  intros Hr Ht. destruct (classify_cases r t Hr Ht)
    as [(_ & _ & C)|[(_ & _ & C)|[(_ & _ & _ & C)|[(_ & _ & _ & C)|(_ & _ & C)]]]];
    eauto.
Qed.

Lemma dict_set_keys {V} (k : text) (v : V) d :
  map fst (dict_set k v d)
  = if decide (k ∈ map fst d) then map fst d else map fst d ++ [k].
Proof.
  induction d as [|[k' v'] d IH].
  - destruct (decide (k ∈ map fst [])) as [Hi|Hi]; [|reflexivity].
    now apply elem_of_nil in Hi.
  - cbn [dict_set map fst].
    destruct (decide (k' = k)) as [->|Hn]; cbn [map fst].
    + destruct (decide (k ∈ k :: map fst d)) as [Hi|Hi]; [reflexivity|].
      exfalso. apply Hi, elem_of_cons. now left.
    + rewrite IH.
      destruct (decide (k ∈ map fst d)) as [Hi|Hi];
        destruct (decide (k ∈ k' :: map fst d)) as [Hj|Hj]; try reflexivity.
      * exfalso. apply Hj, elem_of_cons. now right.
      * exfalso. apply elem_of_cons in Hj as [E|E]; [congruence|contradiction].
Qed.

Lemma dict_set_elem {V} (k : text) (v : V) d x :
  In x (dict_set k v d) -> x = (k, v) \/ In x d.
Proof.
  induction d as [|[k' v'] d IH]; simpl.
  - intros [<-|[]]. now left.
  - destruct (decide (k' = k)) as [->|Hn]; simpl.
    + intros [<-|H]; auto.
    + intros [<-|H]; auto. destruct (IH H); auto.
Qed.













End Trial.

(** *** Distinct identifiers give distinct snapshots *)










(** ** The arithmetic of rounding *)

Lemma rhe_div_cases a b :
  0 < b ->
  (rhe_div a b = a / b /\ 2 * (a mod b) <= b
   /\ (2 * (a mod b) = b -> Z.even (a / b) = true))
  \/ (rhe_div a b = a / b + 1 /\ b <= 2 * (a mod b)
      /\ (2 * (a mod b) = b -> Z.even (a / b + 1) = true)).
Proof.
  intros Hb. unfold rhe_div.
  destruct (Z.ltb_spec (2 * (a mod b)) b) as [H1|H1].
  - left. repeat split; lia.
  - destruct (Z.ltb_spec b (2 * (a mod b))) as [H2|H2].
    + right. repeat split; lia.
    + destruct (Z.even (a / b)) eqn:E.
      * left. repeat split; auto; lia.
      * right. repeat split; try lia. intros _.
        rewrite Z.add_1_r, Z.even_succ, <- Z.negb_even, E. reflexivity.
Qed.

(** The rounded quotient is within half a unit, and even on a tie. *)
Lemma rhe_div_spec a b :
  0 < b ->
  Z.abs (2 * a - 2 * rhe_div a b * b) <= b
  /\ (Z.abs (2 * a - 2 * rhe_div a b * b) = b -> Z.even (rhe_div a b) = true).
Proof.
  intros Hb. pose proof (Z.div_mod a b ltac:(lia)) as Hd.
  pose proof (Z.mod_pos_bound a b Hb) as Hr.
  destruct (rhe_div_cases a b Hb) as [(-> & H1 & H2)|(-> & H1 & H2)].
  - split; [nia|]. intros H. apply H2. nia.
  - split; [nia|]. intros H. apply H2. nia.
Qed.

Lemma rhe_div_dist a b :
  0 < b ->
  Z.abs (rhe_div a b * b - a) <= a mod b
  /\ Z.abs (rhe_div a b * b - a) <= b - a mod b.
Proof.
  intros Hb. pose proof (Z.div_mod a b ltac:(lia)) as Hd.
  pose proof (Z.mod_pos_bound a b Hb) as Hr.
  destruct (rhe_div_cases a b Hb) as [(-> & H1 & H2)|(-> & H1 & H2)]; nia.
Qed.

(** Whatever is within half a unit, and even on a tie, is the rounded
    quotient. *)
Lemma rhe_div_unique a b N :
  0 < b ->
  Z.abs (2 * a - 2 * N * b) < b
  \/ (Z.abs (2 * a - 2 * N * b) = b /\ Z.even N = true) ->
  rhe_div a b = N.
Proof.
  intros Hb H. pose proof (Z.div_mod a b ltac:(lia)) as Hd.
  pose proof (Z.mod_pos_bound a b Hb) as Hr.
  assert (N = a / b \/ N = a / b + 1) as HN by nia.
  destruct (rhe_div_cases a b Hb) as [(-> & H1 & H2)|(-> & H1 & H2)];
    destruct HN as [->| ->]; try reflexivity; exfalso.
  - destruct H as [H|[H He]]; [nia|].
    assert (2 * (a mod b) = b) as Ht by nia. specialize (H2 Ht).
    rewrite Z.add_1_r, Z.even_succ, <- Z.negb_even, H2 in He. discriminate.
  - destruct H as [H|[H He]]; [nia|].
    assert (2 * (a mod b) = b) as Ht by nia. specialize (H2 Ht).
    rewrite Z.add_1_r, Z.even_succ, <- Z.negb_even, He in H2. discriminate.
Qed.

Lemma rhe_div_nonneg a b : 0 <= a -> 0 < b -> 0 <= rhe_div a b.
Proof.
  intros Ha Hb. pose proof (Z.div_pos a b Ha Hb).
  destruct (rhe_div_cases a b Hb) as [(-> & _)|(-> & _)]; lia.
Qed.

Lemma rhe_div_zero b : 0 < b -> rhe_div 0 b = 0.
Proof. intros Hb. apply rhe_div_unique; [exact Hb|]. left. simpl. lia. Qed.

Lemma pow2_pos x : 0 <= x -> 0 < 2 ^ x.
Proof. intros. apply Z.pow_pos_nonneg; lia. Qed.

Lemma pow2_add x y : 0 <= x -> 0 <= y -> 2 ^ (x + y) = 2 ^ x * 2 ^ y.
Proof. intros. now apply Z.pow_add_r. Qed.

Lemma pow2_le x y : 0 <= x <= y -> 2 ^ x <= 2 ^ y.
Proof. intros. apply Z.pow_le_mono_r; lia. Qed.

Lemma pow2_lt_inv x y : 0 <= y -> 2 ^ x < 2 ^ y -> x < y.
Proof. intros Hy H. apply (Z.pow_lt_mono_r_iff 2); [lia|exact Hy|exact H]. Qed.

Lemma ulp_bias_nonneg : 0 <= ulp_bias.
Proof. unfold ulp_bias. lia. Qed.

Lemma mant_bound_half : mant_bound = 2 * 2 ^ 52.
Proof. reflexivity. Qed.

Lemma round_core_eq n d :
  n <> 0 ->
  round_core n d = (rhe_div (n * 2 ^ ulp_bias) (d * 2 ^ round_exp n d), round_exp n d).
Proof.
  intros Hn. unfold round_core, round_exp.
  destruct (Z.eqb_spec n 0); [contradiction|reflexivity].
Qed.

(** The scaled quotient has at most 53 bits, and exactly 53 unless the
    value is subnormal. *)
Lemma round_exp_bounds n d :
  0 < n -> 0 < d ->
  let k := round_exp n d in
  let q := n * 2 ^ ulp_bias / (d * 2 ^ k) in
  0 <= k /\ 0 <= q < mant_bound /\ (k = 0 \/ 2 ^ 52 <= q).
Proof.
  intros Hn Hd.
  pose proof (Z.log2_spec n Hn) as [Ha1 Ha2].
  pose proof (Z.log2_spec d Hd) as [Hb1 Hb2].
  pose proof (Z.log2_nonneg n) as Ha0. pose proof (Z.log2_nonneg d) as Hb0.
  pose proof ulp_bias_nonneg as Hu.
  pose proof (pow2_pos ulp_bias Hu) as HP.
  unfold round_exp.
  set (a := Z.log2 n) in *. set (b := Z.log2 d) in *.
  set (e0 := a - b - 53 + ulp_bias).
  set (k1 := Z.max 0 e0).
  assert (0 <= k1) as Hk1 by lia.
  set (num := n * 2 ^ ulp_bias).
  assert (0 < d * 2 ^ k1) as Hden.
  { apply Z.mul_pos_pos; [exact Hd|now apply pow2_pos]. }
  (* the upper bound *)
  assert (num < 2 * mant_bound * (d * 2 ^ k1)) as HU.
  { assert (num < 2 ^ (a + 1 + ulp_bias)) as H1.
    { unfold num. rewrite pow2_add by lia. rewrite <- Z.add_1_r in Ha2. nia. }
    assert (2 ^ (a + 1 + ulp_bias) <= 2 ^ (54 + (b + k1))) as H2.
    { apply pow2_le. lia. }
    assert (2 ^ (54 + (b + k1)) = 2 * mant_bound * (2 ^ b * 2 ^ k1)) as H3.
    { rewrite pow2_add by lia. rewrite (pow2_add b k1) by lia. reflexivity. }
    assert (2 ^ b * 2 ^ k1 <= d * 2 ^ k1) as H4.
    { apply Z.mul_le_mono_nonneg_r; [pose proof (pow2_pos k1 Hk1); lia|exact Hb1]. }
    unfold mant_bound in *. nia. }
  assert (2 ^ (k1 + 1) = 2 * 2 ^ k1) as Hk1s.
  { rewrite pow2_add by lia. lia. }
  destruct (Z.ltb_spec (num / (d * 2 ^ k1)) mant_bound) as [Hq|Hq]; cbv zeta.
  - split; [exact Hk1|]. split.
    { split; [|exact Hq]. apply Z.div_pos; [unfold num; nia|exact Hden]. }
    destruct (Z.eq_dec k1 0) as [E|E]; [now left|right].
    assert (k1 = e0) as Ek by lia. 
    apply Z.div_le_lower_bound; [exact Hden|].
    assert (d * 2 ^ k1 * 2 ^ 52 <= 2 ^ (b + 1) * 2 ^ k1 * 2 ^ 52) as H1.
    { rewrite <- Z.add_1_r in Hb2. pose proof (pow2_pos k1 Hk1). nia. }
    assert (2 ^ (b + 1) * 2 ^ k1 * 2 ^ 52 = 2 ^ (a + ulp_bias)) as H2.
    { rewrite <- !pow2_add by lia. f_equal. lia. }
    assert (2 ^ (a + ulp_bias) <= num) as H3.
    { unfold num. rewrite pow2_add by lia. nia. }
    lia.
  - split; [lia|]. rewrite Hk1s. split.
    { split.
      - apply Z.div_pos; [unfold num; nia|lia].
      - apply Z.div_lt_upper_bound; [lia|]. lia. }
    right. apply Z.div_le_lower_bound; [lia|].
    pose proof (Z.mul_div_le num (d * 2 ^ k1) Hden) as H1.
    rewrite mant_bound_half in Hq. nia.
Qed.

(** No binary64 lies strictly between two neighbours of the grid the
    rounding works on. *)
Lemma no_double_between q k W :
  representable W -> 0 <= k -> (k = 0 \/ 2 ^ 52 <= q) ->
  W <= q * 2 ^ k \/ (q + 1) * 2 ^ k <= W.
Proof.
  intros (m' & k' & -> & [Hm Hk']) Hk Hq.
  destruct (Z_le_gt_dec k k') as [Hle|Hgt].
  - assert (2 ^ k' = 2 ^ (k' - k) * 2 ^ k) as ->.
    { rewrite <- pow2_add by lia. f_equal. lia. }
    pose proof (pow2_pos k Hk) as HP.
    pose proof (pow2_pos (k' - k) ltac:(lia)) as HQ.
    destruct (Z_le_gt_dec (m' * 2 ^ (k' - k)) q) as [H|H]; [left|right]; nia.
  - left. destruct Hq as [->|Hq]; [lia|].
    assert (2 ^ k = 2 ^ (k - k' - 1) * (2 * 2 ^ k')) as ->.
    { replace k with ((k - k' - 1) + (1 + k')) at 1 by lia.
      rewrite pow2_add by lia. rewrite (pow2_add 1 k') by lia. reflexivity. }
    pose proof (pow2_pos k' ltac:(lia)) as HP.
    pose proof (pow2_pos (k - k' - 1) ltac:(lia)) as HQ.
    pose proof (pow2_pos 52 ltac:(lia)) as HC.
    rewrite mant_bound_half in Hm.
    set (P := 2 ^ k') in *. set (Q := 2 ^ (k - k' - 1)) in *.
    set (C := 2 ^ 52) in *.
    assert (m' * P <= 2 * C * P) as H1 by nia.
    assert (2 * C * P <= 2 * q * P) as H2 by nia.
    assert (0 <= 2 * q * P * (Q - 1)) as H3.
    { apply Z.mul_nonneg_nonneg; [|lia]. nia. }
    nia.
Qed.

(** [round_core] returns a nearest binary64. *)
Lemma round_core_nearest n d m k W :
  0 < n -> 0 < d -> round_core n d = (m, k) -> representable W ->
  Z.abs (m * 2 ^ k * d - n * 2 ^ ulp_bias) <= Z.abs (W * d - n * 2 ^ ulp_bias).
Proof.
  intros Hn Hd E HW. rewrite round_core_eq in E by lia. injection E as <- <-.
  destruct (round_exp_bounds n d Hn Hd) as (Hk & Hq & Hnorm).
  set (k := round_exp n d) in *. set (num := n * 2 ^ ulp_bias) in *.
  pose proof (pow2_pos k Hk) as HP.
  assert (0 < d * 2 ^ k) as Hden by nia.
  destruct (rhe_div_dist num (d * 2 ^ k) Hden) as [H1 H2].
  pose proof (Z.div_mod num (d * 2 ^ k) ltac:(lia)) as Hdm.
  pose proof (Z.mod_pos_bound num (d * 2 ^ k) Hden) as Hr.
  set (q := num / (d * 2 ^ k)) in *. set (r := num mod (d * 2 ^ k)) in *.
  set (m := rhe_div num (d * 2 ^ k)) in *.
  replace (m * 2 ^ k * d) with (m * (d * 2 ^ k)) by ring.
  destruct (no_double_between q k W HW Hk Hnorm) as [Hlo|Hhi].
  - assert (W * d <= q * (d * 2 ^ k)) by nia. lia.
  - assert ((q + 1) * (d * 2 ^ k) <= W * d) by nia. lia.
Qed.

Lemma overflow_bound_split : overflow_bound = mant_bound * 2 ^ 2045.
Proof.
  unfold overflow_bound, mant_bound. rewrite <- pow2_add by lia. reflexivity.
Qed.

(** What [round_core] returns below the overflow bound is a binary64. *)
Lemma round_core_representable n d m k :
  0 <= n -> 0 < d -> round_core n d = (m, k) ->
  m * 2 ^ k < overflow_bound ->
  0 <= m /\ 0 <= k /\ representable (m * 2 ^ k).
Proof.
  intros Hn Hd E Hov.
  destruct (Z.eq_dec n 0) as [->|Hn0].
  { injection E as <- <-. repeat split; try lia.
    exists 0, 0. unfold binary64, mant_bound. repeat split; lia. }
  rewrite round_core_eq in E by exact Hn0. injection E as <- <-.
  destruct (round_exp_bounds n d ltac:(lia) Hd) as (Hk & Hq & Hnorm).
  set (k := round_exp n d) in *. set (num := n * 2 ^ ulp_bias) in *.
  pose proof (pow2_pos k Hk) as HP.
  assert (0 < d * 2 ^ k) as Hden by nia.
  set (m := rhe_div num (d * 2 ^ k)) in *.
  assert (m = num / (d * 2 ^ k) \/ m = num / (d * 2 ^ k) + 1) as Hm.
  { destruct (rhe_div_cases num (d * 2 ^ k) Hden) as [(E & _)|(E & _)]; auto. }
  set (q := num / (d * 2 ^ k)) in *.
  rewrite overflow_bound_split in Hov.
  pose proof (pow2_pos 2045 ltac:(lia)) as HP2045.
  split; [lia|]. split; [exact Hk|].
  destruct (Z_lt_ge_dec m mant_bound) as [Hlt|Hge].
  - exists m, k. split; [reflexivity|]. split; [lia|]. split; [exact Hk|].
    destruct Hnorm as [->|Hn52]; [lia|].
    assert (2 ^ k < 2 ^ 2046) as Hpk.
    { replace 2046 with (1 + 2045) by lia. rewrite pow2_add by lia.
      rewrite mant_bound_half in *. change (2 ^ 1) with 2. nia. }
    apply pow2_lt_inv in Hpk; lia.
  - assert (m = mant_bound) as Em by lia.
    assert (2 ^ k < 2 ^ 2045) as Hpk by (rewrite Em in Hov; unfold mant_bound in *; nia).
    apply pow2_lt_inv in Hpk; [|lia].
    exists (2 ^ 52), (k + 1). split.
    + rewrite Em, mant_bound_half, pow2_add by lia. change (2 ^ 1) with 2. ring.
    + unfold binary64. rewrite mant_bound_half.
      pose proof (pow2_pos 52 ltac:(lia)). lia.
Qed.

Lemma representable_bound W :
  representable W -> 0 <= W <= overflow_bound - 2 ^ 2045.
Proof.
  intros (m & k & -> & [Hm Hk]). rewrite overflow_bound_split.
  pose proof (pow2_pos k ltac:(lia)) as HP.
  pose proof (pow2_le k 2045 ltac:(lia)) as Hle. nia.
Qed.

(** Printing a binary64 with ten fractional digits and reading the digits
    back gives a binary64 that prints the same. *)
Lemma round_trip neg W :
  representable W ->
  let N := rhe_div (W * 10 ^ 10) (2 ^ ulp_bias) in
  exists m k,
    round64 neg N (10 ^ 10) = FFin neg m k
    /\ representable (m * 2 ^ k)
    /\ rhe_div (m * 2 ^ k * 10 ^ 10) (2 ^ ulp_bias) = N.
Proof.
  intros HW N.
  pose proof (representable_bound W HW) as HWb.
  pose proof (pow2_pos ulp_bias ulp_bias_nonneg) as HB.
  assert (1 < 10 ^ 10) as HT by reflexivity.
  assert (0 <= N) as HN0.
  { apply rhe_div_nonneg; [nia|exact HB]. }
  unfold round64. destruct (round_core N (10 ^ 10)) as [m k] eqn:E.
  destruct (Z.eq_dec N 0) as [EN|EN].
  { unfold round_core in E. rewrite EN in E. simpl in E. injection E as <- <-.
    exists 0, 0. split; [reflexivity|]. split.
    - exists 0, 0. unfold binary64, mant_bound. repeat split; lia.
    - rewrite EN. simpl. now apply rhe_div_zero. }
  pose proof (round_core_nearest N (10 ^ 10) m k W ltac:(lia) ltac:(lia) E HW)
    as Hnear.
  destruct (rhe_div_spec (W * 10 ^ 10) (2 ^ ulp_bias) HB) as [Hhalf Htie].
  fold N in Hhalf, Htie.
  assert (0 <= m /\ 0 <= k) as [Hm0 Hk0].
  { rewrite round_core_eq in E by exact EN. injection E as <- <-.
    destruct (round_exp_bounds N (10 ^ 10) ltac:(lia) ltac:(lia)) as (Hk & _).
    split; [|exact Hk]. apply rhe_div_nonneg; [nia|].
    pose proof (pow2_pos _ Hk). nia. }
  assert (m * 2 ^ k < overflow_bound) as Hov.
  { pose proof (pow2_le ulp_bias 2045 ltac:(unfold ulp_bias; lia)) as Hle.
    destruct (Z_lt_ge_dec (m * 2 ^ k) overflow_bound) as [H|H]; [exact H|].
    exfalso. nia. }
  destruct (Z.ltb_spec (m * 2 ^ k) overflow_bound) as [_|H]; [|lia].
  exists m, k. split; [reflexivity|].
  split.
  { eapply round_core_representable; [| |exact E|exact Hov]; lia. }
  apply rhe_div_unique; [exact HB|].
  destruct (Z_lt_ge_dec (Z.abs (2 * (m * 2 ^ k * 10 ^ 10) - 2 * N * 2 ^ ulp_bias))
              (2 ^ ulp_bias)) as [Hlt|Hge]; [now left|right].
  assert (Z.abs (2 * (W * 10 ^ 10) - 2 * N * 2 ^ ulp_bias) = 2 ^ ulp_bias) as Ht by lia.
  split; [lia|]. exact (Htie Ht).
Qed.

(** ** Stripping *)

Section StripFacts.
Variable ws : ascii -> bool.

Lemma lstrip_ltrimmed s : ltrimmed ws s -> lstrip_by ws s = s.
Proof. destruct s as [|c t]; simpl; [reflexivity|]. now intros ->. Qed.

Lemma ltrimmed_lstrip s : ltrimmed ws (lstrip_by ws s).
Proof.
  induction s as [|c t IH]; simpl; [exact I|].
  destruct (ws c) eqn:E; [exact IH|exact E].
Qed.

Lemma rstrip_cons c t :
  rstrip_by ws (c :: t)
  = match rstrip_by ws t with
    | [] => if ws c then [] else [c]
    | t' => c :: t'
    end.
Proof. reflexivity. Qed.

Lemma rstrip_idem s : rstrip_by ws (rstrip_by ws s) = rstrip_by ws s.
Proof.
  induction s as [|c t IH]; [reflexivity|].
  rewrite rstrip_cons. destruct (rstrip_by ws t) as [|c' t'] eqn:E.
  - destruct (ws c) eqn:Ec; [reflexivity|]. simpl. now rewrite Ec.
  - rewrite rstrip_cons, IH. reflexivity.
Qed.

Lemma ltrimmed_rstrip s : ltrimmed ws s -> ltrimmed ws (rstrip_by ws s).
Proof.
  destruct s as [|c t]; [trivial|]. simpl. intros E.
  destruct (rstrip_by ws t); [now rewrite E|exact E].
Qed.

Lemma strip_trimmed s : ltrimmed ws s -> rtrimmed ws s -> strip_by ws s = s.
Proof.
  intros Hl Hr. unfold strip_by. rewrite lstrip_ltrimmed by exact Hl. exact Hr.
Qed.

Lemma trimmed_strip s :
  ltrimmed ws (strip_by ws s) /\ rtrimmed ws (strip_by ws s).
Proof.
  unfold strip_by. split.
  - apply ltrimmed_rstrip, ltrimmed_lstrip.
  - apply rstrip_idem.
Qed.

Lemma strip_idem s : strip_by ws (strip_by ws s) = strip_by ws s.
Proof. apply strip_trimmed; apply trimmed_strip. Qed.

(** A text ending in a character that is not white space. *)
Lemma rtrimmed_snoc s c : ws c = false -> rtrimmed ws (s ++ [c]).
Proof.
  intros Hc. unfold rtrimmed. induction s as [|x s IH]; simpl.
  - now rewrite Hc.
  - rewrite IH. destruct (s ++ [c]) eqn:E; [|reflexivity].
    now apply app_eq_nil in E as [_ ?].
Qed.

Lemma rtrimmed_app a b : b <> [] -> rtrimmed ws b -> rtrimmed ws (a ++ b).
Proof.
  intros Hb Hr. unfold rtrimmed in *. induction a as [|x a IH]; simpl; [exact Hr|].
  rewrite IH. destruct (a ++ b) eqn:E; [|reflexivity].
  now apply app_eq_nil in E as [_ ?].
Qed.

Lemma rtrimmed_nil : rtrimmed ws [].
Proof. reflexivity. Qed.

Lemma rtrimmed_last s c :
  rtrimmed ws (s ++ [c]) -> ws c = false.
Proof.
  unfold rtrimmed. induction s as [|x s IH]; simpl.
  - destruct (ws c); [discriminate|reflexivity].
  - destruct (rstrip_by ws (s ++ [c])) eqn:E.
    + destruct (ws x); intros H; [discriminate|].
      injection H as H. symmetry in H. now apply app_eq_nil in H as [_ ?].
    + intros [= H]. apply IH. exact H.
Qed.

Lemma ltrimmed_app a b :
  ltrimmed ws a -> (a = [] -> ltrimmed ws b) -> ltrimmed ws (a ++ b).
Proof. destruct a; simpl; auto. Qed.

(** The strip of a text with something left is not empty either way. *)
Lemma strip_nonempty_has s :
  strip_by ws s <> [] -> exists c, In c s /\ ws c = false.
Proof.
  unfold strip_by. induction s as [|c t IH]; simpl; [congruence|].
  destruct (ws c) eqn:E.
  - intros H. destruct (IH H) as (x & Hx & Hw). eauto.
  - intros _. eauto.
Qed.

Lemma rstrip_has s c : In c s -> ws c = false -> rstrip_by ws s <> [].
Proof.
  induction s as [|x s IH]; simpl; [intros []|].
  intros [->|Hin] Hc.
  - destruct (rstrip_by ws s); [now rewrite Hc|discriminate].
  - specialize (IH Hin Hc). destruct (rstrip_by ws s); [contradiction|discriminate].
Qed.

Lemma lstrip_has s c : In c s -> ws c = false -> In c (lstrip_by ws s).
Proof.
  induction s as [|x s IH]; simpl; [intros []|].
  intros [->|Hin] Hc.
  - rewrite Hc. now left.
  - destruct (ws x); [now apply IH|now right].
Qed.

Lemma strip_has s c : In c s -> ws c = false -> strip_by ws s <> [].
Proof.
  intros Hin Hc. unfold strip_by. eapply rstrip_has; [|exact Hc].
  now apply lstrip_has.
Qed.

Lemma lstrip_incl s c : In c (lstrip_by ws s) -> In c s.
Proof.
  induction s as [|x s IH]; simpl; [trivial|].
  destruct (ws x); [intros H; right; now apply IH|trivial].
Qed.

Lemma rstrip_incl s c : In c (rstrip_by ws s) -> In c s.
Proof.
  induction s as [|x s IH]; simpl; [trivial|].
  destruct (rstrip_by ws s) as [|y r].
  - destruct (ws x); [intros []|]. intros [->|[]]. now left.
  - intros [->|H]; [now left|right; now apply IH].
Qed.

Lemma strip_incl s c : In c (strip_by ws s) -> In c s.
Proof. intros H. apply lstrip_incl, rstrip_incl, H. Qed.

End StripFacts.

Lemma contains_false c s : contains c s = false <-> ~ In c s.
Proof.
  unfold contains. split.
  - intros H Hin. assert (existsb (Ascii.eqb c) s = true) as E.
    { apply existsb_exists. exists c. split; [exact Hin|apply Ascii.eqb_refl]. }
    congruence.
  - intros H. destruct (existsb (Ascii.eqb c) s) eqn:E; [|reflexivity].
    apply existsb_exists in E as (x & Hx & Ex). apply Ascii.eqb_eq in Ex. now subst.
Qed.

Lemma contains_strip c s : contains c s = false -> contains c (strip s) = false.
Proof.
  rewrite !contains_false. intros H Hin. apply H. eapply strip_incl, Hin.
Qed.

(** ** Decimal digits *)

Lemma digit_char_spec d :
  0 <= d < 10 ->
  is_digit (digit_char d) = true /\ digit_val (digit_char d) = d
  /\ isspace (digit_char d) = false /\ isspace_float (digit_char d) = false
  /\ Ascii.eqb "_" (digit_char d) = false
  /\ Ascii.eqb "|" (digit_char d) = false
  /\ Ascii.eqb "010" (digit_char d) = false.
Proof.
  intros H.
  assert (d = 0 \/ d = 1 \/ d = 2 \/ d = 3 \/ d = 4 \/ d = 5 \/ d = 6 \/ d = 7
          \/ d = 8 \/ d = 9) as E by lia.
  repeat (destruct E as [->|E]; [repeat split|]). subst. repeat split.
Qed.

Lemma is_digit_plain c :
  is_digit c = true ->
  read_sign (c :: []) = (false, [c])
  /\ Ascii.eqb c "." = false /\ Ascii.eqb c "-" = false /\ Ascii.eqb c "+" = false.
Proof.
  destruct c as [[] [] [] [] [] [] [] []]; try discriminate; intros _;
    repeat split.
Qed.

Lemma read_sign_digit c t : is_digit c = true -> read_sign (c :: t) = (false, c :: t).
Proof.
  destruct c as [[] [] [] [] [] [] [] []]; try discriminate; reflexivity.
Qed.

Lemma dec_value_snoc ds c : dec_value (ds ++ [c]) = 10 * dec_value ds + digit_val c.
Proof. unfold dec_value. now rewrite fold_left_app. Qed.

Lemma dec_value_app a b :
  dec_value (a ++ b) = dec_value a * 10 ^ Z.of_nat (length b) + dec_value b.
Proof.
  induction b as [|c b IH] using rev_ind.
  - rewrite app_nil_r. simpl. unfold dec_value at 3. simpl. lia.
  - rewrite app_assoc, !dec_value_snoc, IH, length_app. simpl.
    rewrite Nat2Z.inj_add, Z.pow_add_r by lia. change (10 ^ Z.of_nat 1) with 10. ring.
Qed.

Lemma digits_fixed_digits w : forall n, Forall (fun c => is_digit c = true) (digits_fixed w n).
Proof.
  induction w as [|w IH]; intros n; simpl; [constructor|].
  apply Forall_app. split; [apply IH|].
  constructor; [|constructor]. apply digit_char_spec, Z.mod_pos_bound. lia.
Qed.

Lemma digits_fixed_length w n : length (digits_fixed w n) = w.
Proof.
  revert n. induction w as [|w IH]; intros n; simpl; [reflexivity|].
  rewrite length_app, IH. simpl. lia.
Qed.

Lemma digits_fixed_value w : forall n,
  0 <= n -> dec_value (digits_fixed w n) = n mod 10 ^ Z.of_nat w.
Proof.
  induction w as [|w IH]; intros n Hn.
  - simpl. now rewrite Z.mod_1_r.
  - cbn [digits_fixed]. rewrite dec_value_snoc, IH by (apply Z.div_pos; lia).
    destruct (digit_char_spec (n mod 10)) as (_ & -> & _);
      [apply Z.mod_pos_bound; lia|].
    rewrite Nat2Z.inj_succ, Z.pow_succ_r by lia.
    rewrite (Z.rem_mul_r n 10 (10 ^ Z.of_nat w)); [lia|lia|].
    apply Z.pow_pos_nonneg; lia.
Qed.

Lemma count_digits_enough fuel : forall n,
  0 <= n < 2 ^ (Z.of_nat fuel + 1) ->
  n < 10 ^ Z.of_nat (count_digits fuel n).
Proof.
  induction fuel as [|f IH]; intros n Hn.
  - simpl in *. lia.
  - cbn [count_digits]. destruct (Z.ltb_spec n 10) as [H|H].
    + simpl. lia.
    + rewrite Nat2Z.inj_succ, Z.pow_succ_r by lia.
      assert (n / 10 < 10 ^ Z.of_nat (count_digits f (n / 10))) as Hq.
      { apply IH. split; [apply Z.div_pos; lia|].
        apply Z.div_lt_upper_bound; [lia|].
        rewrite Nat2Z.inj_succ in Hn.
        replace (Z.succ (Z.of_nat f) + 1) with (1 + (Z.of_nat f + 1)) in Hn by lia.
        rewrite Z.pow_add_r in Hn by lia. change (2 ^ 1) with 2 in Hn.
        pose proof (pow2_pos (Z.of_nat f + 1) ltac:(lia)). lia. }
      pose proof (Z.div_mod n 10 ltac:(lia)). pose proof (Z.mod_pos_bound n 10 ltac:(lia)).
      lia.
Qed.

Lemma count_digits_pos fuel n : (1 <= count_digits fuel n)%nat.
Proof. destruct fuel; simpl; [lia|]. destruct (n <? 10); lia. Qed.

Lemma dec_digits_value n : 0 <= n -> dec_value (dec_digits n) = n.
Proof.
  intros Hn. unfold dec_digits. rewrite digits_fixed_value by exact Hn.
  apply Z.mod_small. split; [exact Hn|]. apply count_digits_enough.
  split; [exact Hn|]. rewrite Z2Nat.id by apply Z.log2_nonneg.
  destruct (Z.eq_dec n 0) as [->|H0]; [reflexivity|].
  rewrite Z.add_1_r. apply Z.log2_spec. lia.
Qed.

Lemma dec_digits_digits n : Forall (fun c => is_digit c = true) (dec_digits n).
Proof. apply digits_fixed_digits. Qed.

Lemma dec_digits_nonempty n : dec_digits n <> [].
Proof.
  unfold dec_digits. intros E. apply (f_equal (@length ascii)) in E.
  rewrite digits_fixed_length in E.
  pose proof (count_digits_pos (Z.to_nat (Z.log2 n)) n). simpl in E. lia.
Qed.

Lemma span_digits_all ds rest :
  Forall (fun c => is_digit c = true) ds ->
  match rest with [] => True | c :: _ => is_digit c = false end ->
  span_digits (ds ++ rest) = (ds, rest).
Proof.
  intros Hd Hr. induction Hd as [|c ds Hc Hd IH]; simpl.
  - destruct rest as [|c r]; [reflexivity|]. simpl. now rewrite Hr.
  - now rewrite Hc, IH.
Qed.

(** ** Reading back what was printed *)

Lemma fmt10_finite neg m k :
  fmt10 (FFin neg m k) = rendered neg (rhe_div (m * 2 ^ k * 10 ^ 10) (2 ^ ulp_bias)).
Proof. reflexivity. Qed.

Lemma rendered_chars neg N c :
  In c (rendered neg N) -> c = "-"%char \/ c = "."%char \/ is_digit c = true.
Proof.
  unfold rendered. rewrite !in_app_iff. intros [H|[H|[H|H]]].
  - destruct neg; [|destruct H]. destruct H as [<-|[]]. now left.
  - right; right. pose proof (dec_digits_digits (N / 10 ^ 10)) as Hd.
    rewrite Forall_forall in Hd. apply Hd. now apply list_elem_of_In.
  - destruct H as [<-|[]]. right; now left.
  - right; right. pose proof (digits_fixed_digits 10 (N mod 10 ^ 10)) as Hd.
    rewrite Forall_forall in Hd. apply Hd. now apply list_elem_of_In.
Qed.

Lemma rendered_lacks neg N c :
  c <> "-"%char -> c <> "."%char -> is_digit c = false ->
  contains c (rendered neg N) = false.
Proof.
  intros H1 H2 H3. apply contains_false. intros Hin.
  destruct (rendered_chars neg N c Hin) as [E|[E|E]]; congruence.
Qed.

Lemma digit_not_space c : is_digit c = true -> isspace c = false /\ isspace_float c = false.
Proof.
  destruct c as [[] [] [] [] [] [] [] []]; try discriminate; intros _; split; reflexivity.
Qed.

(** What is printed has nothing to strip, for [str.strip] and for
    [float] alike. *)
Lemma rendered_trimmed ws neg N :
  ws "-"%char = false -> (forall c, is_digit c = true -> ws c = false) ->
  ltrimmed ws (rendered neg N) /\ rtrimmed ws (rendered neg N).
Proof.
  intros Hminus Hdig. unfold rendered. split.
  - destruct neg; [exact Hminus|]. simpl.
    pose proof (dec_digits_nonempty (N / 10 ^ 10)) as Hn.
    pose proof (dec_digits_digits (N / 10 ^ 10)) as Hd.
    destruct (dec_digits (N / 10 ^ 10)) as [|c t]; [contradiction|].
    simpl. apply Hdig. now inversion Hd.
  - rewrite !app_assoc. cbn [digits_fixed]. rewrite !app_assoc.
    apply rtrimmed_snoc. apply Hdig, digit_char_spec, Z.mod_pos_bound. lia.
Qed.

Lemma rendered_strtod neg N :
  0 <= N -> strtod (rendered neg N) = Some (round64 neg N (10 ^ 10), []).
Proof.
  intros HN. unfold rendered.
  set (ip := dec_digits (N / 10 ^ 10)). set (fp := digits_fixed 10 (N mod 10 ^ 10)).
  assert (Forall (fun c => is_digit c = true) ip) as Hip by apply dec_digits_digits.
  assert (Forall (fun c => is_digit c = true) fp) as Hfp by apply digits_fixed_digits.
  assert (ip <> []) as Hne by apply dec_digits_nonempty.
  assert (read_sign ((if neg then str "-" else []) ++ ip ++ str "." ++ fp)
          = (neg, ip ++ "."%char :: fp)) as Hsign.
  { destruct neg; [reflexivity|]. simpl.
    destruct ip as [|c t]; [contradiction|]. simpl.
    apply read_sign_digit. now inversion Hip. }
  assert (span_digits (ip ++ "."%char :: fp) = (ip, "."%char :: fp)) as Hspan1.
  { apply span_digits_all; [exact Hip|reflexivity]. }
  assert (span_digits fp = (fp, [])) as Hspan2.
  { rewrite <- (app_nil_r fp) at 1. apply span_digits_all; [exact Hfp|exact I]. }
  unfold strtod. rewrite Hsign, Hspan1, Hspan2.
  assert (is_empty ip = false) as -> by (destruct ip; [contradiction|reflexivity]).
  cbn [andb read_exponent]. f_equal. f_equal.
  unfold decimal_to_float, fp. rewrite digits_fixed_length.
  change (0 - Z.of_nat 10) with (-10). change (0 <=? -10) with false.
  change (- -10) with 10. cbv iota. f_equal.
  rewrite dec_value_app, digits_fixed_length. change (Z.of_nat 10) with 10.
  unfold ip. rewrite dec_digits_value.
  2:{ apply Z.div_pos; [exact HN|reflexivity]. }
  rewrite digits_fixed_value.
  2:{ apply Z.mod_pos_bound. reflexivity. }
  change (Z.of_nat 10) with 10. rewrite Z.mod_mod by discriminate.
  pose proof (Z.div_mod N (10 ^ 10) ltac:(discriminate)). lia.
Qed.

Lemma float_of_rendered neg N :
  0 <= N -> float_of_str (rendered neg N) = Some (round64 neg N (10 ^ 10)).
Proof.
  intros HN. unfold float_of_str.
  rewrite rendered_lacks by (discriminate || reflexivity).
  unfold float_inner.
  destruct (rendered_trimmed isspace_float neg N) as [Hl Hr];
    [reflexivity|intros c Hc; now apply digit_not_space|].
  rewrite strip_trimmed by assumption.
  now rewrite rendered_strtod.
Qed.

Lemma rendered_has_point neg N : contains "." (rendered neg N) = true.
Proof.
  unfold rendered, contains. rewrite !existsb_app. simpl.
  now rewrite !orb_true_r.
Qed.

(** ** The values [float] returns *)

Lemma span_digits_spec s :
  Forall (fun c => is_digit c = true) (fst (span_digits s))
  /\ s = fst (span_digits s) ++ snd (span_digits s).
Proof.
  induction s as [|c t [IH1 IH2]]; simpl; [split; [constructor|reflexivity]|].
  destruct (is_digit c) eqn:E; [|split; [constructor|reflexivity]].
  destruct (span_digits t) as [ds r]. simpl in *. split.
  - now constructor.
  - now rewrite IH2 at 1.
Qed.

Lemma digit_val_nonneg c : is_digit c = true -> 0 <= digit_val c.
Proof.
  unfold is_digit, digit_val. intros H. apply andb_true_iff in H as [H _].
  apply Z.leb_le in H. lia.
Qed.

Lemma dec_value_nonneg ds :
  Forall (fun c => is_digit c = true) ds -> 0 <= dec_value ds.
Proof.
  induction ds as [|c ds IH] using rev_ind; intros H; [unfold dec_value; simpl; lia|].
  apply Forall_app in H as [H1 H2]. rewrite dec_value_snoc.
  inversion H2; subst. pose proof (digit_val_nonneg c ltac:(assumption)).
  specialize (IH H1). lia.
Qed.

Lemma round64_finite neg n d neg' m k :
  0 <= n -> 0 < d -> round64 neg n d = FFin neg' m k -> representable (m * 2 ^ k).
Proof.
  intros Hn Hd. unfold round64. destruct (round_core n d) as [m0 k0] eqn:E.
  destruct (Z.ltb_spec (m0 * 2 ^ k0) overflow_bound) as [H|H]; [|discriminate].
  intros [= _ <- <-]. now apply (round_core_representable n d).
Qed.

Lemma decimal_to_float_finite neg ds e neg' m k :
  Forall (fun c => is_digit c = true) ds ->
  decimal_to_float neg ds e = FFin neg' m k -> representable (m * 2 ^ k).
Proof.
  intros Hd. pose proof (dec_value_nonneg ds Hd) as H0. unfold decimal_to_float.
  destruct (Z.leb_spec 0 e) as [He|He]; apply round64_finite.
  - assert (0 < 10 ^ e) by (apply Z.pow_pos_nonneg; lia). nia.
  - lia.
  - exact H0.
  - apply Z.pow_pos_nonneg; lia.
Qed.

Lemma strtod_finite s neg m k r :
  strtod s = Some (FFin neg m k, r) -> representable (m * 2 ^ k).
Proof.
  unfold strtod. destruct (read_sign s) as [sg s1].
  pose proof (span_digits_spec s1) as [Hip _].
  destruct (span_digits s1) as [ip s2]. simpl in Hip.
  assert (forall t, Forall (fun c => is_digit c = true) (fst (span_digits t))) as Hany
    by (intros t; apply span_digits_spec).
  assert (Forall (fun c => is_digit c = true)
            (fst (match s2 with
                  | "."%char :: t => span_digits t
                  | _ => ([], s2)
                  end))) as Hfp.
  { destruct s2 as [|c t]; [constructor|].
    destruct (Ascii.eqb_spec c ".") as [->|Hn]; [apply Hany|].
    destruct c as [[] [] [] [] [] [] [] []]; try constructor. contradiction. }
  destruct (match s2 with
            | "."%char :: t => span_digits t
            | _ => ([], s2)
            end) as [fp s3]. simpl in Hfp.
  destruct (is_empty ip && is_empty fp); [discriminate|].
  destruct (read_exponent s3) as [ex s4]. intros [= H _].
  eapply decimal_to_float_finite; [|exact H]. apply Forall_app. now split.
Qed.

Lemma parse_inf_or_nan_not_finite s neg m k r :
  parse_inf_or_nan s <> Some (FFin neg m k, r).
Proof.
  unfold parse_inf_or_nan. destruct (read_sign s) as [sg s1].
  destruct (match_ci (str "inf") s1) as [r1|].
  - destruct (match_ci (str "inity") r1); discriminate.
  - destruct (match_ci (str "nan") s1); discriminate.
Qed.

Lemma float_inner_finite s neg m k :
  float_inner s = Some (FFin neg m k) -> representable (m * 2 ^ k).
Proof.
  unfold float_inner.
  destruct (strtod (strip_by isspace_float s)) as [[x [|c r]]|] eqn:E.
  - intros [= ->]. eapply strtod_finite, E.
  - discriminate.
  - destruct (parse_inf_or_nan (strip_by isspace_float s)) as [[x [|c r]]|] eqn:E2;
      try discriminate.
    intros [= ->]. now apply parse_inf_or_nan_not_finite in E2.
Qed.

(** A finite value returned by [float] is a binary64. *)
Lemma float_of_str_finite s neg m k :
  float_of_str s = Some (FFin neg m k) -> representable (m * 2 ^ k).
Proof.
  unfold float_of_str. destruct (contains "_" s).
  - destruct (underscores_ok None s); [apply float_inner_finite|discriminate].
  - apply float_inner_finite.
Qed.

(** ** One field *)

(** What [fmt10] prints comes back unchanged from the field rule. *)
Lemma normalize_part_fmt10 s v :
  float_of_str s = Some v -> normalize_part (fmt10 v) = fmt10 v.
Proof.
  intros Hv. destruct v as [|neg|neg m k].
  - reflexivity.
  - destruct neg; reflexivity.
  - pose proof (float_of_str_finite s neg m k Hv) as Hrep.
    rewrite fmt10_finite.
    set (N := rhe_div (m * 2 ^ k * 10 ^ 10) (2 ^ ulp_bias)).
    assert (0 <= N) as HN.
    { apply rhe_div_nonneg; [|apply pow2_pos, ulp_bias_nonneg].
      destruct (representable_bound _ Hrep) as [H0 _]. nia. }
    unfold normalize_part.
    destruct (rendered_trimmed isspace neg N) as [Hl Hr];
      [reflexivity|intros c Hc; now apply digit_not_space|].
    unfold strip. rewrite strip_trimmed by assumption.
    rewrite float_of_rendered by exact HN. rewrite rendered_has_point.
    destruct (round_trip neg (m * 2 ^ k) Hrep) as (m' & k' & E & _ & EN).
    fold N in E, EN. rewrite E, fmt10_finite, EN. reflexivity.
Qed.

Lemma normalize_part_cases p :
  normalize_part p = strip p
  \/ exists v, float_of_str (strip p) = Some v /\ normalize_part p = fmt10 v.
Proof.
  unfold normalize_part. destruct (float_of_str (strip p)) as [v|]; [|now left].
  destruct (contains "." (strip p)); [right; eauto|now left].
Qed.

Lemma normalize_part_idem p : normalize_part (normalize_part p) = normalize_part p.
Proof.
  destruct (normalize_part_cases p) as [E|(v & Hv & E)].
  - rewrite E. unfold normalize_part in *. unfold strip in *. rewrite strip_idem.
    exact E.
  - rewrite E. eapply normalize_part_fmt10, Hv.
Qed.

Lemma fmt10_props v :
  fmt10 v <> [] /\ trimmed (fmt10 v)
  /\ contains "|" (fmt10 v) = false /\ contains "010" (fmt10 v) = false.
Proof.
  destruct v as [|neg|neg m k].
  - repeat split; discriminate.
  - destruct neg; repeat split; discriminate.
  - rewrite fmt10_finite. set (N := rhe_div _ _). split; [|split; [|split]].
    + intros E. pose proof (rendered_has_point neg N) as H. now rewrite E in H.
    + apply rendered_trimmed; [reflexivity|intros c Hc; now apply digit_not_space].
    + apply rendered_lacks; (discriminate || reflexivity).
    + apply rendered_lacks; (discriminate || reflexivity).
Qed.

Lemma strip_is_trimmed s : trimmed (strip s).
Proof. apply trimmed_strip. Qed.

Lemma trimmed_strip_id s : trimmed s -> strip s = s.
Proof. intros [Hl Hr]. now apply strip_trimmed. Qed.

Lemma normalize_part_trimmed p : trimmed (normalize_part p).
Proof.
  destruct (normalize_part_cases p) as [->|(v & _ & ->)];
    [apply strip_is_trimmed|apply fmt10_props].
Qed.

Lemma normalize_part_lacks c p :
  c = "|"%char \/ c = "010"%char ->
  contains c p = false -> contains c (normalize_part p) = false.
Proof.
  intros Hc Hp. destruct (normalize_part_cases p) as [->|(v & _ & ->)].
  - now apply contains_strip.
  - destruct Hc as [->| ->]; apply fmt10_props.
Qed.

Lemma normalize_part_nonempty p : strip p <> [] -> normalize_part p <> [].
Proof.
  intros H. destruct (normalize_part_cases p) as [->|(v & _ & ->)];
    [exact H|apply fmt10_props].
Qed.

(** ** Splitting and joining *)

Lemma split_join sep ps :
  ps <> [] -> Forall (fun p => contains sep p = false) ps ->
  split sep (join [sep] ps) = ps.
Proof.
  intros Hne Hall. induction Hall as [|p ps Hp Hps IH]; [contradiction|].
  destruct ps as [|q r].
  - simpl. now apply split_without_sep.
  - change (join [sep] (p :: q :: r)) with (p ++ sep :: join [sep] (q :: r)).
    rewrite split_app_sep, IH by discriminate.
    now rewrite split_without_sep.
Qed.

Lemma join_lacks c sep ps :
  contains c sep = false -> Forall (fun p => contains c p = false) ps ->
  contains c (join sep ps) = false.
Proof.
  intros Hs Hall. induction Hall as [|p ps Hp Hps IH]; [reflexivity|].
  destruct ps as [|q r]; [exact Hp|].
  change (join sep (p :: q :: r)) with (p ++ sep ++ join sep (q :: r)).
  now rewrite !contains_app, Hp, Hs, IH.
Qed.

Lemma split_lacks c sep s :
  contains c s = false -> Forall (fun p => contains c p = false) (split sep s).
Proof.
  intros H. induction s as [|x s IH]; simpl; [repeat constructor|].
  unfold contains in H. simpl in H. apply orb_false_iff in H as [Hx Hs].
  specialize (IH Hs). destruct (Ascii.eqb x sep).
  - constructor; [reflexivity|exact IH].
  - destruct (split sep s) as [|h t]; [repeat constructor; unfold contains; simpl; now rewrite Hx|].
    inversion IH; subst. constructor; [|assumption].
    unfold contains in *. simpl. now rewrite Hx.
Qed.

(** Joining trimmed fields with a separator that is not white space. *)
Lemma join_trimmed_sep c ps :
  isspace c = false -> ps <> [] -> Forall trimmed ps -> trimmed (join [c] ps).
Proof.
  intros Hc Hne Hall. induction Hall as [|p ps Hp Hps IH]; [contradiction|].
  destruct ps as [|q r]; [exact Hp|].
  change (join [c] (p :: q :: r)) with (p ++ c :: join [c] (q :: r)).
  destruct (IH ltac:(discriminate)) as [Hl Hr]. destruct Hp as [Hpl Hpr]. split.
  - apply ltrimmed_app; [exact Hpl|]. intros _. exact Hc.
  - apply rtrimmed_app; [discriminate|].
    destruct (join [c] (q :: r)) as [|x t] eqn:E.
    + apply (rtrimmed_snoc isspace [] c Hc).
    + change (c :: x :: t) with ([c] ++ x :: t). apply rtrimmed_app; [discriminate|exact Hr].
Qed.

Lemma join_nonempty sep p ps : p <> [] -> join sep (p :: ps) <> [].
Proof.
  intros Hp. destruct ps; simpl; [exact Hp|].
  destruct p; [contradiction|discriminate].
Qed.

(** Joining trimmed lines, none of them empty, with any separator. *)
Lemma join_trimmed_lines sep ps :
  ps <> [] -> Forall (fun p => p <> [] /\ trimmed p) ps -> trimmed (join sep ps).
Proof.
  intros Hne Hall. induction Hall as [|p ps [Hp0 [Hpl Hpr]] Hps IH]; [contradiction|].
  destruct ps as [|q r]; [now split|].
  change (join sep (p :: q :: r)) with (p ++ sep ++ join sep (q :: r)).
  destruct (IH ltac:(discriminate)) as [Hl Hr]. split.
  - apply ltrimmed_app; [exact Hpl|]. intros E. contradiction.
  - rewrite app_assoc. apply rtrimmed_app; [|exact Hr].
    apply join_nonempty. inversion Hps; subst. tauto.
Qed.

(** ** One line *)

Lemma Forall_map_intro {A B} (f : A -> B) (P : B -> Prop) (Q : A -> Prop) l :
  Forall Q l -> (forall x, Q x -> P (f x)) -> Forall P (map f l).
Proof. intros H Hf. induction H; simpl; constructor; auto. Qed.

Lemma Forall_trivial {A} (l : list A) : Forall (fun _ => True) l.
Proof. induction l; constructor; auto. Qed.

Lemma nonblank_nonempty l : nonblank l = true <-> strip l <> [].
Proof.
  unfold nonblank. destruct (strip l); simpl; split; congruence.
Qed.

Lemma normalize_line_fields l :
  let fields := map normalize_part (split "|" l) in
  fields <> []
  /\ Forall trimmed fields
  /\ Forall (fun p => contains "|" p = false) fields
  /\ (contains "010" l = false -> Forall (fun p => contains "010" p = false) fields).
Proof.
  cbv zeta. split; [|split; [|split]].
  - pose proof (split_nonempty "|" l). destruct (split "|" l); [contradiction|discriminate].
  - eapply Forall_map_intro; [apply Forall_trivial|].
    intros p _. apply normalize_part_trimmed.
  - eapply Forall_map_intro; [apply split_pieces|].
    intros p Hp. apply normalize_part_lacks; auto.
  - intros Hl. eapply Forall_map_intro; [apply (split_lacks "010" "|" l Hl)|].
    intros p Hp. apply normalize_part_lacks; auto.
Qed.

Lemma normalize_line_idem l : normalize_line (normalize_line l) = normalize_line l.
Proof.
  destruct (normalize_line_fields l) as (Hne & _ & Hbar & _).
  unfold normalize_line at 1. unfold normalize_line at 1.
  change (str "|") with ["|"%char].
  rewrite split_join by assumption.
  rewrite map_map. unfold normalize_line. f_equal.
  apply map_ext. intros p. apply normalize_part_idem.
Qed.

Lemma split_single sep s p :
  split sep s = [p] -> p = s /\ contains sep s = false.
Proof.
  revert p. induction s as [|c t IH]; intros p E.
  - injection E as <-. now split.
  - cbn [split] in E.
    change (contains sep (c :: t)) with (Ascii.eqb sep c || contains sep t).
    destruct (Ascii.eqb c sep) eqn:Ec.
    + injection E as _ E. now apply split_nonempty in E.
    + destruct (split sep t) as [|h r] eqn:Et; [now apply split_nonempty in Et|].
      injection E as <- ->. destruct (IH h eq_refl) as [-> Hc].
      rewrite Ascii.eqb_sym, Ec, Hc. now split.
Qed.

Lemma normalize_line_props l :
  contains "010" l = false -> nonblank l = true ->
  normalize_line l <> [] /\ trimmed (normalize_line l)
  /\ contains "010" (normalize_line l) = false.
Proof.
  intros Hnl Hnb. destruct (normalize_line_fields l) as (Hne & Htr & _ & Hlack).
  unfold normalize_line. change (str "|") with ["|"%char].
  split; [|split].
  - destruct (split "|" l) as [|p [|q r]] eqn:E.
    + now apply split_nonempty in E.
    + simpl. apply normalize_part_nonempty.
      apply split_single in E as [-> _]. now apply nonblank_nonempty.
    + simpl. intros H. destruct (normalize_part p); discriminate.
  - apply join_trimmed_sep; [reflexivity|exact Hne|exact Htr].
  - apply join_lacks; [reflexivity|auto].
Qed.

(** ** The whole output *)

Lemma filter_all {A} (f : A -> bool) l :
  Forall (fun x => f x = true) l -> List.filter f l = l.
Proof.
  induction 1 as [|x l Hx Hl IH]; simpl; [reflexivity|]. now rewrite Hx, IH.
Qed.

Lemma kept_lines output :
  Forall (fun l => contains "010" l = false /\ nonblank l = true)
    (List.filter nonblank (split "010" (strip output))).
Proof.
  apply Forall_forall. intros l Hl. apply list_elem_of_In, filter_In in Hl as [Hin Hnb].
  split; [|exact Hnb].
  pose proof (split_pieces "010" (strip output)) as Hp.
  rewrite Forall_forall in Hp. apply Hp. now apply list_elem_of_In.
Qed.

(** C4: normalizing a normalized output changes nothing. *)
Theorem normalize_output_idempotent (x : text) :
  normalize_output (normalize_output x) = normalize_output x.
Proof.
  unfold normalize_output at 2 3.
  set (lines := List.filter nonblank (split "010" (strip x))).
  pose proof (kept_lines x) as Hkept. fold lines in Hkept.
  cbv zeta. change (str (String "010" "")) with ["010"%char].
  destruct lines as [|l0 rest] eqn:El; [reflexivity|]. rewrite <- El in *.
  set (outs := map normalize_line lines).
  assert (outs <> []) as Hne by (unfold outs; rewrite El; discriminate).
  assert (Forall (fun o => o <> [] /\ trimmed o) outs) as Htr.
  { eapply Forall_map_intro; [exact Hkept|].
    intros l [H1 H2]. destruct (normalize_line_props l H1 H2) as (A & B & _).
    now split. }
  assert (Forall (fun o => contains "010" o = false) outs) as Hnl.
  { eapply Forall_map_intro; [exact Hkept|].
    intros l [H1 H2]. now apply normalize_line_props. }
  assert (Forall (fun o => nonblank o = true) outs) as Hnb.
  { eapply Forall_impl; [exact Htr|]. intros o [H1 H2]. simpl in *.
    apply nonblank_nonempty. now rewrite trimmed_strip_id. }
  unfold normalize_output.
  rewrite (trimmed_strip_id (join ["010"%char] outs))
    by (now apply join_trimmed_lines).
  rewrite split_join by assumption.
  rewrite filter_all by exact Hnb.
  change (str (String "010" "")) with ["010"%char]. f_equal.
  unfold outs. rewrite map_map. apply map_ext. intros l. apply normalize_line_idem.
Qed.

(** ** Lines of the raw output *)

Lemma split_snoc sep a c :
  split sep (a ++ [c])
  = if Ascii.eqb c sep then split sep a ++ [[]] else snoc_last (split sep a) c.
Proof.
  induction a as [|x a IH].
  - simpl. destruct (Ascii.eqb c sep); reflexivity.
  - cbn [app split]. rewrite IH.
    pose proof (split_nonempty sep a) as Hne.
    destruct (Ascii.eqb x sep), (Ascii.eqb c sep);
      destruct (split sep a) as [|h [|h' r]]; try contradiction; reflexivity.
Qed.

Lemma flat_map_snoc_last {B} (g : text -> list B) ls c :
  ls <> [] -> (forall l, g (l ++ [c]) = g l) ->
  flat_map g (snoc_last ls c) = flat_map g ls.
Proof.
  intros Hne Hg. induction ls as [|l [|l' r] IH]; [contradiction| |].
  - simpl. now rewrite Hg.
  - change (snoc_last (l :: l' :: r) c) with (l :: snoc_last (l' :: r) c).
    cbn [flat_map]. f_equal. apply IH. discriminate.
Qed.

Lemma map_snoc_last {B} (f : text -> B) ls c :
  ls <> [] -> (forall l, f (l ++ [c]) = f l) ->
  map f (snoc_last ls c) = map f ls.
Proof.
  intros Hne Hf. induction ls as [|l [|l' r] IH]; [contradiction| |].
  - simpl. now rewrite Hf.
  - change (snoc_last (l :: l' :: r) c) with (l :: snoc_last (l' :: r) c).
    cbn [map]. f_equal. apply IH. discriminate.
Qed.

Lemma space_is_no_bar c : isspace c = true -> Ascii.eqb c "|" = false.
Proof. destruct c as [[] [] [] [] [] [] [] []]; try discriminate; reflexivity. Qed.

Lemma strip_cons_space c s : isspace c = true -> strip (c :: s) = strip s.
Proof. intros H. unfold strip, strip_by. simpl. now rewrite H. Qed.

Lemma rstrip_snoc_space c s :
  isspace c = true -> rstrip_by isspace (s ++ [c]) = rstrip_by isspace s.
Proof.
  intros H. induction s as [|x s IH]; simpl.
  - now rewrite H.
  - now rewrite IH.
Qed.

Lemma lstrip_snoc_space c s :
  isspace c = true ->
  lstrip_by isspace (s ++ [c]) = lstrip_by isspace s ++ [c]
  \/ (lstrip_by isspace (s ++ [c]) = [] /\ lstrip_by isspace s = []).
Proof.
  intros H. induction s as [|x s IH]; simpl.
  - rewrite H. now right.
  - destruct (isspace x); [exact IH|now left].
Qed.

Lemma strip_snoc_space c s : isspace c = true -> strip (s ++ [c]) = strip s.
Proof.
  intros H. unfold strip, strip_by.
  destruct (lstrip_snoc_space c s H) as [->|[-> ->]]; [|reflexivity].
  now apply rstrip_snoc_space.
Qed.

Lemma normalize_part_cons_space c p :
  isspace c = true -> normalize_part (c :: p) = normalize_part p.
Proof. intros H. unfold normalize_part. now rewrite strip_cons_space. Qed.

Lemma normalize_part_snoc_space c p :
  isspace c = true -> normalize_part (p ++ [c]) = normalize_part p.
Proof. intros H. unfold normalize_part. now rewrite strip_snoc_space. Qed.

Lemma normalize_line_cons_space c l :
  isspace c = true -> normalize_line (c :: l) = normalize_line l.
Proof.
  intros H. unfold normalize_line. cbn [split]. rewrite (space_is_no_bar c H).
  pose proof (split_nonempty "|" l) as Hne.
  destruct (split "|" l) as [|h r]; [contradiction|].
  cbn [map]. now rewrite normalize_part_cons_space.
Qed.

Lemma normalize_line_snoc_space c l :
  isspace c = true -> normalize_line (l ++ [c]) = normalize_line l.
Proof.
  intros H. unfold normalize_line. rewrite split_snoc, (space_is_no_bar c H).
  rewrite map_snoc_last; [reflexivity|apply split_nonempty|].
  intros p. now apply normalize_part_snoc_space.
Qed.

Lemma line_result_cons_space c l :
  isspace c = true -> line_result (c :: l) = line_result l.
Proof.
  intros H. unfold line_result, nonblank.
  now rewrite strip_cons_space, normalize_line_cons_space.
Qed.

Lemma line_result_snoc_space c l :
  isspace c = true -> line_result (l ++ [c]) = line_result l.
Proof.
  intros H. unfold line_result, nonblank.
  now rewrite strip_snoc_space, normalize_line_snoc_space.
Qed.

Lemma kept_as_flat_map ls :
  map normalize_line (List.filter nonblank ls) = flat_map line_result ls.
Proof.
  induction ls as [|l ls IH]; simpl; [reflexivity|].
  unfold line_result at 1. destruct (nonblank l); simpl; now rewrite IH.
Qed.

(** White space in front of the output adds no line and changes none. *)
Lemma lines_cons_space c s :
  isspace c = true ->
  flat_map line_result (split "010" (c :: s)) = flat_map line_result (split "010" s).
Proof.
  intros H. cbn [split]. destruct (Ascii.eqb c "010"); [reflexivity|].
  pose proof (split_nonempty "010" s) as Hne.
  destruct (split "010" s) as [|h r]; [contradiction|].
  cbn [flat_map]. now rewrite line_result_cons_space.
Qed.

Lemma lines_snoc_space c s :
  isspace c = true ->
  flat_map line_result (split "010" (s ++ [c])) = flat_map line_result (split "010" s).
Proof.
  intros H. rewrite split_snoc. destruct (Ascii.eqb c "010").
  - rewrite flat_map_app. simpl. now rewrite app_nil_r.
  - apply flat_map_snoc_last; [apply split_nonempty|].
    intros l. now apply line_result_snoc_space.
Qed.

Lemma lines_lstrip s :
  flat_map line_result (split "010" (lstrip_by isspace s))
  = flat_map line_result (split "010" s).
Proof.
  induction s as [|c s IH]; [reflexivity|]. simpl lstrip_by.
  destruct (isspace c) eqn:E; [|reflexivity].
  now rewrite IH, lines_cons_space.
Qed.

Lemma rstrip_decompose s :
  exists w, s = rstrip_by isspace s ++ w /\ Forall (fun c => isspace c = true) w.
Proof.
  induction s as [|c s (w & Hs & Hw)]; [exists []; split; [reflexivity|constructor]|].
  simpl. destruct (rstrip_by isspace s) as [|x r] eqn:E.
  - destruct (isspace c) eqn:Ec.
    + exists (c :: w). simpl in Hs. split; [now rewrite Hs at 1|now constructor].
    + exists w. simpl in *. split; [now rewrite Hs at 1|exact Hw].
  - exists w. split; [|exact Hw]. simpl. now rewrite Hs at 1.
Qed.

Lemma lines_app_space w : forall s,
  Forall (fun c => isspace c = true) w ->
  flat_map line_result (split "010" (s ++ w)) = flat_map line_result (split "010" s).
Proof.
  induction w as [|c w IH]; intros s Hw; [now rewrite app_nil_r|].
  inversion Hw; subst.
  change (s ++ c :: w) with (s ++ [c] ++ w). rewrite app_assoc.
  rewrite IH by assumption. now apply lines_snoc_space.
Qed.

Lemma lines_strip s :
  flat_map line_result (split "010" (strip s)) = flat_map line_result (split "010" s).
Proof.
  unfold strip, strip_by.
  transitivity (flat_map line_result (split "010" (lstrip_by isspace s)));
    [|apply lines_lstrip].
  destruct (rstrip_decompose (lstrip_by isspace s)) as (w & Hs & Hw).
  rewrite <- (lines_app_space w (rstrip_by isspace (lstrip_by isspace s)) Hw).
  now rewrite <- Hs.
Qed.

(** The normalizer, line by line of the raw output. *)
Lemma normalize_output_by_lines x :
  normalize_output x
  = join ["010"%char] (map normalize_line (List.filter nonblank (split "010" x))).
Proof.
  unfold normalize_output. change (str (String "010" "")) with ["010"%char].
  now rewrite !kept_as_flat_map, lines_strip.
Qed.

Lemma read_sign_other c r :
  c <> "-"%char -> c <> "+"%char -> read_sign (c :: r) = (false, c :: r).
Proof.
  intros H1 H2. unfold read_sign.
  destruct c as [[] [] [] [] [] [] [] []]; try reflexivity; contradiction.
Qed.

Lemma digits_no_point r : forallb is_digit r = true -> contains "." r = false.
Proof.
  unfold contains. induction r as [|c r IH]; cbn [existsb forallb]; [reflexivity|].
  intros H. apply andb_true_iff in H as [Hc Hr].
  destruct (is_digit_plain c Hc) as (_ & Hp & _).
  now rewrite Ascii.eqb_sym, Hp, IH.
Qed.

(** Sign and digits only: no decimal point. *)
Lemma integer_looking_no_point t : integer_looking t = true -> contains "." t = false.
Proof.
  unfold integer_looking. destruct t as [|c r]; [discriminate|].
  destruct (Ascii.eqb_spec c "-") as [->|Hm].
  { cbn [read_sign]. intros H. apply andb_true_iff in H as [_ H].
    change (contains "." ("-"%char :: r)) with (contains "." r).
    now apply digits_no_point. }
  destruct (Ascii.eqb_spec c "+") as [->|Hp].
  { cbn [read_sign]. intros H. apply andb_true_iff in H as [_ H].
    change (contains "." ("+"%char :: r)) with (contains "." r).
    now apply digits_no_point. }
  rewrite read_sign_other by assumption.
  intros H. apply andb_true_iff in H as [_ H]. now apply digits_no_point.
Qed.

(** C5 (amended): the normalizer drops the blank lines of the output,
    splits each other line on the bar, trims each field, prints a trimmed
    field anew with ten fractional digits when it parses as a float and
    contains a decimal point, leaves every other field as trimmed (integers
    among them), and joins fields with bars and lines with newlines; both
    outputs of scenario A come out as "1|2.0000000000". *)
Theorem normalize_output_rule :
  (forall x : text,
     normalize_output x
     = join ["010"%char]
         (map (fun line => join ["|"%char] (map normalize_part (split "|" line)))
            (List.filter nonblank (split "010" x))))
  /\ (forall part : text,
        let t := strip part in
        (forall v, float_of_str t = Some v -> contains "." t = true ->
                   normalize_part part = fmt10 v)
        /\ (float_of_str t = None \/ contains "." t = false ->
            normalize_part part = t)
        /\ (integer_looking t = true -> normalize_part part = t))
  /\ (forall (neg : bool) (m k : Z),
        exists ip fp,
          fmt10 (FFin neg m k) = (if neg then str "-" else []) ++ ip ++ str "." ++ fp
          /\ ip <> [] /\ length fp = 10%nat
          /\ Forall (fun c => is_digit c = true) (ip ++ fp))
  /\ normalize_output (str "1|2.0000000000") = str "1|2.0000000000"
  /\ normalize_output (str "1|2.00000000001") = str "1|2.0000000000".
Proof.
  split; [exact normalize_output_by_lines|]. split; [|split].
  - intros part t.
    assert (float_of_str t = None \/ contains "." t = false ->
            normalize_part part = t) as Hkeep.
    { unfold normalize_part. fold t. intros [-> | ->]; [reflexivity|].
      now destruct (float_of_str t). }
    split; [|split].
    + intros v Hv Hp. unfold normalize_part. fold t. now rewrite Hv, Hp.
    + exact Hkeep.
    + intros Hi. apply Hkeep. right. now apply integer_looking_no_point.
  - intros neg m k. rewrite fmt10_finite. unfold rendered.
    do 2 eexists. split; [reflexivity|]. split; [apply dec_digits_nonempty|].
    split; [apply digits_fixed_length|].
    apply Forall_app. split; [apply dec_digits_digits|apply digits_fixed_digits].
  - split; vm_compute; reflexivity.
Qed.

Lemma normalize_output_rule_witness :
  normalize_part (str " 2.5 ") = str "2.5000000000"
  /\ normalize_part (str " 42 ") = str "42".
Proof.
  destruct normalize_output_rule as (_ & H & _).
  destruct (H (str " 2.5 ")) as (Hf & _).
  destruct (H (str " 42 ")) as (_ & _ & Hi).
  split.
  - rewrite (Hf (FFin false 5629499534213120 1023)); vm_compute; reflexivity.
  - rewrite Hi; vm_compute; reflexivity.
Defined.

(** C5 as stated fails: "1e5" parses as a float and does not look like an
    integer, yet it is left as it is; and a field that overflows is printed
    as "inf", without fractional digits. *)
Lemma exponent_field_left_untouched :
  integer_looking (str "1e5") = false
  /\ (exists v, float_of_str (str "1e5") = Some v
                /\ fmt10 v = str "100000.0000000000")
  /\ claimed_normalize (str "1e5") = str "100000.0000000000"
  /\ normalize_output (str "1e5") = str "1e5"
  /\ normalize_output (str "1e5") <> claimed_normalize (str "1e5")
  /\ normalize_output (str "7|1.5e999") = str "7|inf".
Proof.
  split; [reflexivity|]. split.
  { eexists. split; [vm_compute; reflexivity|]. vm_compute. reflexivity. }
  split; [vm_compute; reflexivity|]. split; [vm_compute; reflexivity|].
  split; [vm_compute; discriminate|vm_compute; reflexivity].
Qed.

(** * Further properties of the runner *)

(** ** The shape of a normalized output *)

Lemma join_split sep s : join [sep] (split sep s) = s.
Proof.
  induction s as [|c s IH]; [reflexivity|]. cbn [split].
  pose proof (split_nonempty sep s) as Hne.
  destruct (Ascii.eqb_spec c sep) as [->|Hc].
  - destruct (split sep s) as [|h r]; [contradiction|].
    change (join [sep] ([] :: h :: r)) with (sep :: join [sep] (h :: r)).
    now rewrite IH.
  - destruct (split sep s) as [|h r]; [contradiction|].
    rewrite <- IH. destruct r; reflexivity.
Qed.

Lemma rows_kept x :
  Forall (fun l => contains "010" l = false /\ nonblank l = true) (rows x).
Proof.
  apply Forall_forall. intros l Hl. apply list_elem_of_In, filter_In in Hl as [Hin Hnb].
  split; [|exact Hnb].
  pose proof (split_pieces "010" x) as Hp.
  rewrite Forall_forall in Hp. apply Hp. now apply list_elem_of_In.
Qed.

Lemma normalize_output_rows x :
  normalize_output x = join ["010"%char] (map normalize_line (rows x)).
Proof. apply normalize_output_by_lines. Qed.

Lemma rows_normalized x :
  Forall (fun o => o <> [] /\ trimmed o /\ contains "010" o = false)
    (map normalize_line (rows x)).
Proof.
  eapply Forall_map_intro; [apply rows_kept|].
  intros l [H1 H2]. now apply normalize_line_props.
Qed.

Lemma split_normalize_output x :
  rows x <> [] ->
  split "010" (normalize_output x) = map normalize_line (rows x).
Proof.
  intros Hne. rewrite normalize_output_rows. apply split_join.
  - destruct (rows x); [contradiction|discriminate].
  - eapply Forall_impl; [apply rows_normalized|]. simpl. tauto.
Qed.

Lemma normalize_output_nil x : rows x = [] -> normalize_output x = [].
Proof. intros H. now rewrite normalize_output_rows, H. Qed.

Lemma normalize_output_not_nil x : rows x <> [] -> normalize_output x <> [].
Proof.
  intros H. rewrite normalize_output_rows.
  pose proof (rows_normalized x) as Hall.
  destruct (rows x) as [|l r]; [contradiction|]. cbn [map] in *.
  apply join_nonempty. inversion Hall; subst. tauto.
Qed.

Lemma split_normalize_line l :
  split "|" (normalize_line l) = map normalize_part (split "|" l).
Proof.
  destruct (normalize_line_fields l) as (Hne & _ & Hbar & _).
  unfold normalize_line. change (str "|") with ["|"%char].
  now apply split_join.
Qed.

(** X1: the normalizer keeps the shape of the output: the lines of a
    normalized output are the non-blank lines of the input, one for one and
    in order, and each has as many fields as the line it comes from, each
    being the normalized field. *)
Theorem normalize_output_keeps_shape (x : text) :
  rows x <> [] ->
  split "010" (normalize_output x) = map normalize_line (rows x)
  /\ length (split "010" (normalize_output x)) = length (rows x)
  /\ Forall2 (fun row out =>
                split "|" out = map normalize_part (split "|" row)
                /\ length (split "|" out) = length (split "|" row))
       (rows x) (split "010" (normalize_output x)).
Proof.
  intros Hne. rewrite split_normalize_output by exact Hne.
  split; [reflexivity|]. split; [apply length_map|].
  clear Hne.
  induction (rows x) as [|l r IH]; cbn [map]; [constructor|constructor; [|exact IH]].
  rewrite split_normalize_line. split; [reflexivity|apply length_map].
Qed.

Lemma normalize_output_keeps_shape_witness :
  length (split "010" (normalize_output (str "a|1.5
b|2
"))) = 2%nat.
Proof.
  destruct (normalize_output_keeps_shape (str "a|1.5
b|2
")) as (_ & H & _).
  - vm_compute. discriminate.
  - rewrite H. vm_compute. reflexivity.
Defined.

Lemma blank_strip s : blank s -> strip s = [].
Proof.
  intros H. unfold strip, strip_by.
  assert (lstrip_by isspace s = []) as ->; [|reflexivity].
  induction H as [|c s Hc Hs IH]; simpl; [reflexivity|]. now rewrite Hc.
Qed.

Lemma strip_nil_blank s : strip s = [] -> blank s.
Proof.
  intros H. apply Forall_forall. intros c Hc. apply list_elem_of_In in Hc.
  destruct (isspace c) eqn:E; [reflexivity|].
  exfalso. now apply (strip_has isspace s c Hc E).
Qed.

Lemma blank_join ls : Forall blank ls -> blank (join ["010"%char] ls).
Proof.
  induction 1 as [|l ls Hl Hls IH]; [constructor|].
  destruct ls as [|l' r]; [exact Hl|].
  change (join ["010"%char] (l :: l' :: r))
    with (l ++ "010"%char :: join ["010"%char] (l' :: r)).
  apply Forall_app. split; [exact Hl|]. constructor; [reflexivity|exact IH].
Qed.

(** X2: the normalized output is empty exactly when the output holds
    nothing but white space. *)
Theorem normalize_output_empty_iff (x : text) :
  normalize_output x = [] <-> blank x.
Proof.
  split.
  - intros H.
    assert (rows x = []) as Hr.
    { destruct (rows x) eqn:E; [reflexivity|].
      exfalso. apply (normalize_output_not_nil x); [rewrite E; discriminate|exact H]. }
    rewrite <- (join_split "010" x). apply blank_join.
    apply Forall_forall. intros l Hl. apply list_elem_of_In in Hl.
    apply strip_nil_blank.
    destruct (strip l) eqn:E; [reflexivity|]. exfalso.
    assert (In l (rows x)) as Hin.
    { apply filter_In. split; [exact Hl|]. apply nonblank_nonempty. now rewrite E. }
    now rewrite Hr in Hin.
  - intros H. unfold normalize_output. now rewrite (blank_strip x H).
Qed.

Lemma lines_front_space w : forall s,
  Forall (fun c => isspace c = true) w ->
  flat_map line_result (split "010" (w ++ s)) = flat_map line_result (split "010" s).
Proof.
  induction w as [|c w IH]; intros s Hw; [reflexivity|].
  inversion Hw; subst. cbn [app]. rewrite lines_cons_space by assumption.
  now apply IH.
Qed.

Lemma normalize_output_flat x :
  normalize_output x = join ["010"%char] (flat_map line_result (split "010" x)).
Proof. rewrite normalize_output_by_lines. now rewrite kept_as_flat_map. Qed.

Lemma normalize_output_padding a x b :
  blank a -> blank b -> normalize_output (a ++ x ++ b) = normalize_output x.
Proof.
  intros Ha Hb. rewrite !normalize_output_flat.
  now rewrite lines_front_space, lines_app_space.
Qed.

(** X3: white space in front of the output and after it, a trailing
    newline for one, does not change the normalized output. *)
Theorem normalize_output_ignores_padding (a x b : text) :
  blank a -> blank b ->
  normalize_output (a ++ x ++ b) = normalize_output x
  /\ normalize_output (x ++ ["010"%char]) = normalize_output x.
Proof.
  intros Ha Hb. split; [now apply normalize_output_padding|].
  apply (normalize_output_padding [] x ["010"%char]); repeat constructor.
Qed.

Lemma normalize_output_ignores_padding_witness :
  normalize_output (str "  " ++ str "1|2" ++ ["010"%char]) = normalize_output (str "1|2").
Proof.
  apply (normalize_output_ignores_padding (str "  ") (str "1|2") ["010"%char]).
  - repeat constructor.
  - repeat constructor.
Defined.

Lemma join_cons sep p (l : list text) :
  l <> [] -> join sep (p :: l) = p ++ sep ++ join sep l.
Proof. destruct l; [contradiction|reflexivity]. Qed.

Lemma stack_nil_r a : stack a [] = a.
Proof. now destruct a. Qed.

Lemma stack_both a b : a <> [] -> b <> [] -> stack a b = a ++ "010"%char :: b.
Proof. destruct a, b; try contradiction. reflexivity. Qed.

Lemma join_lines_nonempty (l : list text) :
  l <> [] -> Forall (fun o => o <> []) l -> join ["010"%char] l <> [].
Proof.
  intros Hne Hall. destruct l as [|p r]; [contradiction|].
  apply join_nonempty. now inversion Hall.
Qed.

Lemma join_app_lines (l1 l2 : list text) :
  Forall (fun o => o <> []) l1 -> Forall (fun o => o <> []) l2 ->
  join ["010"%char] (l1 ++ l2) = stack (join ["010"%char] l1) (join ["010"%char] l2).
Proof.
  intros H1 H2. induction H1 as [|p l1 Hp Hl1 IH]; [reflexivity|].
  destruct l2 as [|q2 r2].
  { now rewrite app_nil_r, stack_nil_r. }
  assert (join ["010"%char] (q2 :: r2) <> []) as Hn2
    by (apply join_lines_nonempty; [discriminate|exact H2]).
  cbn [app]. rewrite join_cons by (destruct l1; discriminate).
  rewrite IH. destruct l1 as [|q r].
  - change (stack (join ["010"%char] []) (join ["010"%char] (q2 :: r2)))
      with (join ["010"%char] (q2 :: r2)).
    change (join ["010"%char] [p]) with p.
    rewrite stack_both by assumption. reflexivity.
  - assert (join ["010"%char] (q :: r) <> []) as Hn1
      by (apply join_lines_nonempty; [discriminate|exact Hl1]).
    rewrite (join_cons _ p (q :: r)) by discriminate.
    rewrite !stack_both; try assumption.
    + now rewrite <- !app_assoc.
    + destruct p; discriminate.
Qed.

(** X4: the normalizer works line by line: two outputs one above the
    other normalize to the two normalized outputs one above the other,
    without a newline between them when one is empty. *)
Theorem normalize_output_line_by_line (x y : text) :
  normalize_output (x ++ "010"%char :: y)
  = stack (normalize_output x) (normalize_output y).
Proof.
  rewrite !normalize_output_rows. unfold rows at 1.
  rewrite split_app_sep, List.filter_app, map_app. fold (rows x) (rows y).
  apply join_app_lines.
  - eapply Forall_impl; [apply rows_normalized|]. simpl. tauto.
  - eapply Forall_impl; [apply rows_normalized|]. simpl. tauto.
Qed.

(** X5: a normalized output has no white space at either end, no empty
    line, and no line and no field with white space at either end. *)
Theorem normalize_output_is_clean (x : text) :
  strip (normalize_output x) = normalize_output x
  /\ (normalize_output x <> [] ->
      Forall (fun line =>
                line <> [] /\ strip line = line
                /\ Forall (fun field => strip field = field) (split "|" line))
        (split "010" (normalize_output x))).
Proof.
  destruct (rows x) as [|l0 r0] eqn:E.
  - rewrite normalize_output_nil by exact E. split; [reflexivity|]. congruence.
  - assert (rows x <> []) as Hne by (rewrite E; discriminate).
    split.
    + apply trimmed_strip_id. rewrite normalize_output_rows.
      apply join_trimmed_lines.
      * rewrite E. discriminate.
      * eapply Forall_impl; [apply rows_normalized|]. simpl. tauto.
    + intros _. rewrite split_normalize_output by exact Hne.
      apply Forall_forall. intros o Ho.
      apply list_elem_of_In, in_map_iff in Ho as (l & <- & Hl).
      pose proof (rows_kept x) as Hk. rewrite Forall_forall in Hk.
      destruct (Hk l (proj2 (list_elem_of_In _ _) Hl)) as [H1 H2].
      destruct (normalize_line_props l H1 H2) as (A & B & _).
      split; [exact A|]. split; [now apply trimmed_strip_id|].
      rewrite split_normalize_line.
      apply Forall_forall. intros p Hp.
      apply list_elem_of_In, in_map_iff in Hp as (q & <- & _).
      apply trimmed_strip_id, normalize_part_trimmed.
Qed.

(** X6: a field without a decimal point never normalizes to the text of a
    field with one that reads as a finite float: 1 and 1.0 stay apart. *)
Theorem decimal_point_tells_apart (p q : text) (neg : bool) (m k : Z) :
  contains "." (strip p) = false ->
  contains "." (strip q) = true ->
  float_of_str (strip q) = Some (FFin neg m k) ->
  normalize_part p <> normalize_part q.
Proof.
  intros Hp Hq Hv E.
  assert (normalize_part p = strip p) as Ep.
  { unfold normalize_part. rewrite Hp. now destruct (float_of_str (strip p)). }
  assert (contains "." (normalize_part q) = true) as Eq.
  { unfold normalize_part. rewrite Hv, Hq, fmt10_finite. apply rendered_has_point. }
  rewrite <- E, Ep, Hp in Eq. discriminate.
Qed.

Lemma decimal_point_tells_apart_witness :
  normalize_part (str "1") <> normalize_part (str "1.0").
Proof.
  eapply (decimal_point_tells_apart (str "1") (str "1.0")).
  - reflexivity.
  - reflexivity.
  - vm_compute. reflexivity.
Defined.

(** ** Symmetries of the classifier *)

(** X7: exchanging target and reference turns CRASH into REFERENCE_ERROR
    and back, and keeps PASS, LOGIC_BUG, INVALID_QUERY and the error
    raised on a missing output. *)
Theorem classify_mirror (a b : ExecResult) :
  classify b a
  = match classify a b with
    | Ok o => Ok (mirror o)
    | Raise e => Raise e
    end.
Proof.
  unfold classify.
  destruct (returncode a =? 0), (returncode b =? 0); simpl; try reflexivity.
  destruct (stdout a) as [oa|], (stdout b) as [ob|]; try reflexivity.
  destruct (decide (normalize_output oa <> normalize_output ob)) as [H|H],
    (decide (normalize_output ob <> normalize_output oa)) as [H'|H'];
    try reflexivity; exfalso.
  - apply H'. intros E. apply H. congruence.
  - apply H. intros E. apply H'. congruence.
Qed.

(** X8: a result of [_run_sqlite] compared with itself is PASS when the
    program exited with zero and INVALID_QUERY when it did not: never a
    bug. *)
Theorem classify_same_result (r : ExecResult) :
  well_formed r ->
  classify r r = Ok (if returncode r =? 0 then PASS else INVALID_QUERY).
Proof.
  intros Hwf. unfold classify.
  destruct (returncode r =? 0) eqn:E; simpl; [|reflexivity].
  destruct (Hwf (proj1 (Z.eqb_eq _ _) E)) as [out ->].
  destruct (decide (normalize_output out <> normalize_output out)) as [H|H];
    [contradiction|reflexivity].
Qed.

Lemma classify_same_result_witness :
  classify {| returncode := 0; stdout := Some (str "1"); stderr := None |}
           {| returncode := 0; stdout := Some (str "1"); stderr := None |} = Ok PASS.
Proof.
  apply (classify_same_result {| returncode := 0; stdout := Some (str "1"); stderr := None |}).
  intros _. simpl. eauto.
Defined.

(** X9: a launch that times out or cannot be started gives the status -1,
    and its target is then CRASH when the reference exited with zero and
    INVALID_QUERY when it did not, whatever output was captured. *)
Theorem failed_launch_never_passes env (p sql db : text) (s : State)
    (reference_res : ExecResult) :
  io_fault env (clock s) = None ->
  (forall rc out err,
     fst (process env (S (clock s)) p db sql (files s)) <> Completed rc out err) ->
  exists r s',
    run_sqlite env p sql (Some db) s = (Ok r, s')
    /\ returncode r = -1
    /\ classify reference_res r
       = Ok (if returncode reference_res =? 0 then CRASH else INVALID_QUERY).
Proof.
  intros Hio Hfail.
  unfold run_sqlite, write_script, try_except, subprocess_run, unlink_script,
    bind, tick, log, modify, ret, raise.
  simpl. rewrite Hio. simpl.
  destruct (process env _ p db sql (files s)) as [[rc out err|out err|cls msg] f] eqn:E;
    simpl in *.
  - exfalso. now apply (Hfail rc out err).
  - do 2 eexists. split; [reflexivity|]. split; [reflexivity|].
    unfold classify. simpl. destruct (returncode reference_res =? 0); reflexivity.
  - do 2 eexists. split; [reflexivity|]. split; [reflexivity|].
    unfold classify. simpl. destruct (returncode reference_res =? 0); reflexivity.
Qed.

Lemma failed_launch_never_passes_witness :
  exists r s',
    run_sqlite stalled (str "/opt/sqlite3-3.26.0") (str "SELECT 1;")
      (Some (str "/data/test.db")) sample_state = (Ok r, s')
    /\ classify {| returncode := 0; stdout := Some (str "1"); stderr := Some [] |} r
       = Ok CRASH.
Proof.
  destruct (failed_launch_never_passes stalled (str "/opt/sqlite3-3.26.0")
              (str "SELECT 1;") (str "/data/test.db") sample_state
              {| returncode := 0; stdout := Some (str "1"); stderr := Some [] |})
    as (r & s' & E & _ & Hc).
  - reflexivity.
  - intros rc out err. discriminate.
  - exists r, s'. split; [exact E|exact Hc].
Defined.

(** X10: white space around either captured output does not change the
    outcome. *)
Theorem classify_ignores_padding (rc_r rc_t : Z) (out_r out_t a b a' b' : text)
    (err_r err_t : option text) :
  blank a -> blank b -> blank a' -> blank b' ->
  classify {| returncode := rc_r; stdout := Some (a ++ out_r ++ b); stderr := err_r |}
           {| returncode := rc_t; stdout := Some (a' ++ out_t ++ b'); stderr := err_t |}
  = classify {| returncode := rc_r; stdout := Some out_r; stderr := err_r |}
             {| returncode := rc_t; stdout := Some out_t; stderr := err_t |}.
Proof.
  intros Ha Hb Ha' Hb'. unfold classify. cbn [returncode stdout].
  now rewrite !normalize_output_padding.
Qed.

Lemma classify_ignores_padding_witness :
  classify {| returncode := 0; stdout := Some (str " " ++ str "1|2" ++ ["010"%char]);
              stderr := None |}
           {| returncode := 0; stdout := Some ([] ++ str "1|2" ++ []); stderr := None |}
  = Ok PASS.
Proof.
  rewrite (classify_ignores_padding 0 0 (str "1|2") (str "1|2")
             (str " ") ["010"%char] [] [] None None).
  - vm_compute. reflexivity.
  - repeat constructor.
  - repeat constructor.
  - constructor.
  - constructor.
Defined.

(** ** A trial, whatever the system answers *)

Lemma books_kept_refl s : books_kept s s.
Proof. repeat split; auto. Qed.

Lemma books_kept_trans a b c : books_kept a b -> books_kept b c -> books_kept a c.
Proof.
  intros (A1 & A2 & A3 & A4) (B1 & B2 & B3 & B4).
  repeat split; try congruence; [|lia]. etransitivity; eassumption.
Qed.

Lemma io_failure_later env a b c e :
  (clock a <= clock b)%nat -> io_failure env b c e -> io_failure env a c e.
Proof. intros H (t & Ht & E). exists t. split; [lia|exact E]. Qed.

(** The snapshotter, whatever the system answers. *)
Lemma save_any env db s res s' :
  save_database_state env db s = (res, s') ->
  books_kept s s' /\ heap s' = heap s
  /\ (exists cs, trace s' = trace s ++ cs /\ Forall (is_copy_of db) cs
                 /\ (length cs <= 1)%nat)
  /\ (forall e, res = Raise e -> io_failure env s s' e).
Proof.
  destruct (decide (db = str ":memory:")) as [Hm|Hm].
  { rewrite save_absent by auto. intros [= <- <-].
    split; [apply books_kept_refl|]. split; [reflexivity|]. split.
    - exists []. rewrite app_nil_r. repeat split; [constructor|simpl; lia].
    - discriminate. }
  destruct (path_exists (files s) db) eqn:He.
  2:{ rewrite save_absent by auto. intros [= <- <-].
      split; [apply books_kept_refl|]. split; [reflexivity|]. split.
      - exists []. rewrite app_nil_r. repeat split; [constructor|simpl; lia].
      - discriminate. }
  destruct (path_exists_lookup _ _ He) as [c Hc].
  rewrite (save_present env db s c Hm He Hc).
  destruct (io_fault env (S (clock s))) as [e0|] eqn:Eio; intros [= <- <-].
  - split; [repeat split; simpl; auto; lia|]. split; [reflexivity|]. split.
    + exists []. rewrite app_nil_r. repeat split; [constructor|simpl; lia].
    + intros e [= <-]. exists (S (clock s)). simpl. split; [lia|exact Eio].
  - split; [repeat split; simpl; auto; lia|]. split; [reflexivity|]. split.
    + eexists. split; [reflexivity|]. split; [|simpl; lia].
      constructor; [|constructor]. do 2 eexists. reflexivity.
    + discriminate.
Qed.

Lemma dict_get_set {V} (k k' : text) (v : V) d :
  dict_get k (dict_set k' v d) = if decide (k' = k) then Some v else dict_get k d.
Proof.
  induction d as [|[k0 v0] d IH]; simpl.
  - destruct (decide (k' = k)); reflexivity.
  - destruct (decide (k0 = k')) as [->|Hn]; simpl.
    + destruct (decide (k' = k)); reflexivity.
    + destruct (decide (k0 = k)) as [->|Hk].
      * rewrite decide_False by congruence. reflexivity.
      * exact IH.
Qed.

Lemma snapshot_loop_cons env db t ts d s :
  for_each (fun d target =>
              let! p := save_database_state env db in ret (dict_set target p d))
    (t :: ts) d s
  = match save_database_state env db s with
    | (Ok p, s1) =>
        for_each (fun d target =>
                    let! p := save_database_state env db in ret (dict_set target p d))
          ts (dict_set t p d) s1
    | (Raise e, s1) => (Raise e, s1)
    end.
Proof.
  simpl. unfold bind at 1. unfold bind at 1.
  destruct (save_database_state env db s) as [[p|e] s1]; reflexivity.
Qed.

(** The loop that fills [target_db_paths], whatever the system answers. *)
Lemma snapshot_loop_any env db ts : forall d s res s',
  for_each (fun d target =>
              let! p := save_database_state env db in ret (dict_set target p d))
    ts d s = (res, s') ->
  books_kept s s' /\ heap s' = heap s
  /\ (exists cs, trace s' = trace s ++ cs /\ Forall (is_copy_of db) cs
                 /\ (length cs <= length ts)%nat)
  /\ (forall e, res = Raise e -> io_failure env s s' e)
  /\ (forall d', res = Ok d' ->
        forall t, In t ts \/ is_Some (dict_get t d) -> is_Some (dict_get t d')).
Proof.
  induction ts as [|t ts IH]; intros d s res s' H.
  - injection H as <- <-. split; [apply books_kept_refl|]. split; [reflexivity|].
    split; [exists []; rewrite app_nil_r; repeat split; [constructor|simpl; lia]|].
    split; [discriminate|]. intros d' [= <-] t [[]|Ht]. exact Ht.
  - rewrite snapshot_loop_cons in H.
    destruct (save_database_state env db s) as [[p|e1] s1] eqn:E1.
    + destruct (save_any _ _ _ _ _ E1) as (Hb1 & Hh1 & (cs1 & Ht1 & Hc1 & Hl1) & _).
      destruct (IH _ _ _ _ H) as (Hb & Hh & (cs & Ht & Hc & Hl) & Hr & Hd).
      split; [eapply books_kept_trans; eassumption|]. split; [congruence|].
      split.
      { exists (cs1 ++ cs). rewrite Ht, Ht1, <- app_assoc. split; [reflexivity|].
        split; [apply Forall_app; now split|]. rewrite length_app. simpl. lia. }
      split.
      { intros e He. eapply io_failure_later; [apply Hb1|]. now apply Hr. }
      intros d' Hd' t0 Ht0. apply (Hd d' Hd' t0).
      rewrite dict_get_set.
      destruct (decide (t = t0)) as [->|Hn]; [right; eauto|].
      destruct Ht0 as [[E|Hin]|Hs]; [congruence|now left|now right].
    + injection H as <- <-.
      destruct (save_any _ _ _ _ _ E1) as (Hb1 & Hh1 & (cs1 & Ht1 & Hc1 & Hl1) & Hr1).
      split; [exact Hb1|]. split; [exact Hh1|]. split.
      { exists cs1. repeat split; auto. simpl. lia. }
      split; [|discriminate]. intros e [= <-]. now apply Hr1.
Qed.

(** A launch, whatever the system answers. *)
Lemma run_sqlite_any env p sql db s res s' :
  run_sqlite env p sql db s = (res, s') ->
  books_kept s s' /\ heap s' = heap s
  /\ (exists rs, trace s' = trace s ++ rs /\ Forall is_launch rs
                 /\ (length rs <= 1)%nat)
  /\ (forall e, res = Raise e -> io_failure env s s' e)
  /\ (forall r, res = Ok r -> well_formed r).
Proof.
  unfold run_sqlite, write_script, try_except, subprocess_run, unlink_script,
    bind, tick, log, modify, ret, raise, well_formed, books_kept.
  simpl. destruct (io_fault env (clock s)) as [e0|] eqn:Eio.
  { intros [= <- <-]. simpl. split; [repeat split; auto; lia|].
    split; [reflexivity|]. split.
    - exists []. rewrite app_nil_r. repeat split; [constructor|simpl; lia].
    - split; [|discriminate]. intros e [= <-]. exists (clock s). simpl.
      split; [lia|exact Eio]. }
  assert (Forall is_launch [EvRun p db]) as Hl.
  { constructor; [|constructor]. do 2 eexists. reflexivity. }
  destruct db as [d|]; simpl.
  - destruct (process env _ p d sql (files s)) as [[rc out err|out err|cls msg] f];
      simpl; intros [= <- <-]; simpl;
      (split; [repeat split; auto; lia|]); (split; [reflexivity|]);
      (split; [eexists; split; [reflexivity|split; [exact Hl|simpl; lia]]|]);
      (split; [discriminate|]); intros r [= <-]; simpl; eauto; discriminate.
  - intros [= <- <-]. simpl.
    split; [repeat split; auto; lia|]. split; [reflexivity|].
    split; [eexists; split; [reflexivity|split; [exact Hl|simpl; lia]]|].
    split; [discriminate|]. intros r [= <-]. simpl. discriminate.
Qed.

Lemma alloc_subseteq (h : gmap nat RunResult) r : h ⊆ <[fresh (dom h) := r]> h.
Proof.
  apply insert_subseteq, not_elem_of_dom, is_fresh.
Qed.

(** One pass of the loop over the targets, whatever the system answers. *)
Lemma run_target_any env sql tdp saved rv ref_res results target p s res s' :
  dict_get target tdp = Some p -> well_formed ref_res ->
  run_target env sql tdp saved rv ref_res results target s = (res, s') ->
  books_kept s s'
  /\ (exists rs, trace s' = trace s ++ rs /\ Forall is_launch rs
                 /\ (length rs <= 1)%nat)
  /\ (forall e, res = Raise e -> io_failure env s s' e).
Proof.
  intros Hp Hwf. unfold run_target. rewrite Hp.
  unfold bind at 1. unfold ret at 1. unfold bind at 1.
  destruct (run_sqlite env target sql p s) as [[tr|e1] s1] eqn:E1.
  - destruct (run_sqlite_any _ _ _ _ _ _ _ E1) as (Hb1 & Hh1 & Htr1 & _ & Hw1).
    destruct (classify_well_formed ref_res tr Hwf (Hw1 tr eq_refl)) as [o Ho].
    unfold bind at 1. unfold lift at 1. rewrite Ho.
    unfold bind, alloc, ret. intros [= <- <-]. simpl.
    split.
    { destruct Hb1 as (A & B & C & D). repeat split; auto.
      etransitivity; [exact C|]. apply alloc_subseteq. }
    split; [exact Htr1|]. discriminate.
  - intros [= <- <-].
    destruct (run_sqlite_any _ _ _ _ _ _ _ E1) as (Hb1 & Hh1 & Htr1 & Hr1 & _).
    split; [exact Hb1|]. split; [exact Htr1|].
    intros e [= <-]. now apply Hr1.
Qed.

Lemma for_each_cons {A B} (body : B -> A -> M B) x xs acc s :
  for_each body (x :: xs) acc s
  = match body acc x s with
    | (Ok acc', s1) => for_each body xs acc' s1
    | (Raise e, s1) => (Raise e, s1)
    end.
Proof. reflexivity. Qed.

Lemma target_loop_any env sql tdp saved rv ref_res ts : forall results s res s',
  (forall t, In t ts -> is_Some (dict_get t tdp)) ->
  well_formed ref_res ->
  for_each (run_target env sql tdp saved rv ref_res) ts results s = (res, s') ->
  books_kept s s'
  /\ (exists rs, trace s' = trace s ++ rs /\ Forall is_launch rs
                 /\ (length rs <= length ts)%nat)
  /\ (forall e, res = Raise e -> io_failure env s s' e).
Proof.
  induction ts as [|t ts IH]; intros results s res s' Hget Hwf H.
  - injection H as <- <-. split; [apply books_kept_refl|].
    split; [exists []; rewrite app_nil_r; repeat split; [constructor|simpl; lia]|].
    discriminate.
  - rewrite for_each_cons in H.
    destruct (Hget t (or_introl eq_refl)) as [p Hp].
    destruct (run_target env sql tdp saved rv ref_res results t s)
      as [[results1|e1] s1] eqn:E1.
    + destruct (run_target_any _ _ _ _ _ _ _ _ _ _ _ _ Hp Hwf E1)
        as (Hb1 & (rs1 & Ht1 & Hl1 & Hn1) & _).
      destruct (IH results1 s1 res s') as (Hb & (rs & Ht & Hl & Hn) & Hr).
      { intros t' Ht'. apply Hget. now right. }
      { exact Hwf. }
      { exact H. }
      split; [eapply books_kept_trans; eassumption|]. split.
      { exists (rs1 ++ rs). rewrite Ht, Ht1, <- app_assoc. split; [reflexivity|].
        split; [apply Forall_app; now split|]. rewrite length_app. simpl. lia. }
      intros e He. eapply io_failure_later; [apply Hb1|]. apply Hr. now rewrite He.
    + injection H as <- <-.
      destruct (run_target_any _ _ _ _ _ _ _ _ _ _ _ _ Hp Hwf E1)
        as (Hb1 & (rs1 & Ht1 & Hl1 & Hn1) & Hr1).
      split; [exact Hb1|]. split; [|intros e [= <-]; now apply Hr1].
      exists rs1. repeat split; auto. simpl. lia.
Qed.

(** A whole trial, whatever the system answers. *)
Lemma run_any env sql db s res s' :
  run env (sql, db) s = (res, s') ->
  books_kept s s'
  /\ (exists cs rs,
        trace s' = trace s ++ cs ++ rs
        /\ Forall (is_copy_of db) cs /\ Forall is_launch rs
        /\ (length cs <= length (target_sqlite_paths (self s)) + 2)%nat
        /\ (length rs <= length (target_sqlite_paths (self s)) + 1)%nat)
  /\ (forall e, res = Raise e -> io_failure env s s' e).
Proof.
  unfold run. unfold bind at 1.
  destruct (save_database_state env db s) as [[p_ref|e1] sa] eqn:E1.
  2:{ intros [= <- <-].
      destruct (save_any _ _ _ _ _ E1) as (Hb & _ & (cs & Ht & Hc & Hl) & Hr).
      split; [exact Hb|]. split; [|intros e [= <-]; now apply Hr].
      exists cs, []. rewrite app_nil_r. repeat split; auto; simpl; lia. }
  destruct (save_any _ _ _ _ _ E1) as (Hba & _ & (csa & Hta & Hca & Hla) & _).
  assert (self sa = self s) as Hsa by apply Hba.
  unfold bind at 1. unfold gets at 1. rewrite Hsa.
  set (targets := target_sqlite_paths (self s)).
  unfold bind at 1.
  destruct (for_each
              (fun d target =>
                 let! p := save_database_state env db in ret (dict_set target p d))
              targets [] sa) as [[tdp|e2] sb] eqn:E2.
  2:{ intros [= <- <-].
      destruct (snapshot_loop_any _ _ _ _ _ _ _ E2)
        as (Hb & _ & (cs & Ht & Hc & Hl) & Hr & _).
      split; [eapply books_kept_trans; eassumption|]. split.
      - exists (csa ++ cs), []. rewrite app_nil_r, Ht, Hta, <- app_assoc.
        split; [reflexivity|]. split; [apply Forall_app; now split|].
        split; [constructor|]. rewrite length_app. simpl. lia.
      - intros e [= <-]. eapply io_failure_later; [apply Hba|]. now apply Hr. }
  destruct (snapshot_loop_any _ _ _ _ _ _ _ E2)
    as (Hbb & _ & (csb & Htb & Hcb & Hlb) & _ & Hd).
  specialize (Hd tdp eq_refl).
  unfold bind at 1.
  destruct (save_database_state env db sb) as [[p_saved|e3] sc] eqn:E3.
  2:{ intros [= <- <-].
      destruct (save_any _ _ _ _ _ E3) as (Hb & _ & (cs & Ht & Hc & Hl) & Hr).
      pose proof (books_kept_trans _ _ _ Hba Hbb) as Hab.
      split; [eapply books_kept_trans; eassumption|]. split.
      - exists (csa ++ csb ++ cs), []. rewrite app_nil_r, Ht, Htb, Hta, <- !app_assoc.
        split; [reflexivity|]. split; [rewrite !Forall_app; tauto|].
        split; [constructor|]. rewrite !length_app. simpl. lia.
      - intros e [= <-]. eapply io_failure_later; [apply Hab|]. now apply Hr. }
  destruct (save_any _ _ _ _ _ E3) as (Hbc & _ & (csc & Htc & Hcc & Hlc) & _).
  pose proof (books_kept_trans _ _ _ (books_kept_trans _ _ _ Hba Hbb) Hbc) as Hac.
  assert (self sc = self s) as Hsc by apply Hac.
  unfold bind at 1. unfold gets at 1. rewrite Hsc.
  assert (trace sc = trace s ++ (csa ++ csb ++ csc)) as Hcopies
    by (rewrite Htc, Htb, Hta, <- !app_assoc; reflexivity).
  assert (Forall (is_copy_of db) (csa ++ csb ++ csc)) as Hall
    by (rewrite !Forall_app; tauto).
  assert (length (csa ++ csb ++ csc) <= length targets + 2)%nat as Hlen
    by (rewrite !length_app; lia).
  unfold bind at 1.
  destruct (run_sqlite env (reference_sqlite_path (self s)) sql p_ref sc)
    as [[ref_res|e4] sd] eqn:E4.
  2:{ intros [= <- <-].
      destruct (run_sqlite_any _ _ _ _ _ _ _ E4) as (Hb & _ & (rs & Ht & Hl & Hn) & Hr & _).
      split; [eapply books_kept_trans; eassumption|]. split.
      - exists (csa ++ csb ++ csc), rs. rewrite Ht, Hcopies, <- app_assoc.
        repeat split; auto. lia.
      - intros e [= <-]. eapply io_failure_later; [apply Hac|]. now apply Hr. }
  destruct (run_sqlite_any _ _ _ _ _ _ _ E4) as (Hbd & _ & (rsd & Htd & Hld & Hnd) & _ & Hwf).
  specialize (Hwf ref_res eq_refl).
  pose proof (books_kept_trans _ _ _ Hac Hbd) as Had.
  intros H.
  destruct (target_loop_any _ _ _ _ _ _ _ _ _ _ _
              (fun t Ht => Hd t (or_introl Ht)) Hwf H)
    as (Hb & (rs & Ht & Hl & Hn) & Hr).
  split; [eapply books_kept_trans; eassumption|]. split.
  - exists (csa ++ csb ++ csc), (rsd ++ rs).
    rewrite Ht, Htd, Hcopies, <- !app_assoc.
    split; [reflexivity|]. split; [exact Hall|].
    split; [apply Forall_app; now split|]. split; [exact Hlen|].
    rewrite length_app. fold targets. lia.
  - intros e He. eapply io_failure_later; [apply Had|]. apply Hr. now rewrite He.
Qed.

(** X11: whatever fails, a trial changes neither the runner nor what the
    tracker was asked, and no object that exists; all it copies, it copies
    before it launches anything: at most one copy per target and two more,
    then at most one launch per target and one more. *)
Theorem run_copies_then_launches env (sql db : text) (s : State) :
  let s' := snd (run env (sql, db) s) in
  self s' = self s /\ tracker s' = tracker s /\ heap s ⊆ heap s'
  /\ exists copies runs,
       trace s' = trace s ++ copies ++ runs
       /\ Forall (is_copy_of db) copies /\ Forall is_launch runs
       /\ (length copies <= length (target_sqlite_paths (self s)) + 2)%nat
       /\ (length runs <= length (target_sqlite_paths (self s)) + 1)%nat.
Proof.
  cbv zeta. destruct (run env (sql, db) s) as [res s'] eqn:E.
  destruct (run_any _ _ _ _ _ _ E) as ((A & B & C & _) & H & _). simpl. auto.
Qed.

(** X12: an exception leaves [run] only when a file operation of the
    trial fails (a copy, the writing of the statement), and it is that
    failure: no missing key, no missing output. *)
Theorem run_raises_only_io_failures env (sql db : text) (s : State) (e : exn) :
  fst (run env (sql, db) s) = Raise e ->
  exists t, (clock s <= t < clock (snd (run env (sql, db) s)))%nat
            /\ io_fault env t = Some e.
Proof.
  destruct (run env (sql, db) s) as [res s'] eqn:E. simpl. intros ->.
  destruct (run_any _ _ _ _ _ _ E) as (_ & _ & H). now apply H.
Qed.

Lemma run_raises_only_io_failures_witness :
  exists t, io_fault disk_full t
            = Some (Error (str "OSError") (str "No space left on device")).
Proof.
  destruct (run_raises_only_io_failures disk_full (str "SELECT 1;")
              (str "/data/test.db") sample_state
              (Error (str "OSError") (str "No space left on device")))
    as (t & _ & H).
  - vm_compute. reflexivity.
  - exists t. exact H.
Defined.

(** X13: when no file operation fails [run] returns, also when a target
    path is listed twice. *)
Theorem run_returns_without_io_failure env (sql db : text) (s : State) :
  (forall t, io_fault env t = None) ->
  exists results s', run env (sql, db) s = (Ok results, s').
Proof.
  intros Hio. destruct (run env (sql, db) s) as [[results|e] s'] eqn:E; [eauto|].
  destruct (run_any _ _ _ _ _ _ E) as (_ & _ & H).
  destruct (H e eq_refl) as (t & _ & Ht). rewrite Hio in Ht. discriminate.
Qed.

Lemma run_returns_without_io_failure_witness :
  exists results s',
    run calm (str "SELECT 1;", str "/data/test.db")
      (with_self (new_runner [str "/opt/sqlite3-3.26.0"; str "/opt/sqlite3-3.26.0"]
                    (str "/opt/sqlite3-3.49.1") 100 30 (str "/tmp/fuzzqlite_k3x9"))
         sample_state)
    = (Ok results, s').
Proof.
  apply (run_returns_without_io_failure calm).
  intros t. reflexivity.
Defined.

(** ** A trial without a base file *)

Lemma can_snapshot_false f db :
  can_snapshot f db = false -> db = str ":memory:" \/ path_exists f db = false.
Proof.
  unfold can_snapshot. intros H. apply andb_false_iff in H as [H|H]; [|now right].
  left. apply bool_decide_eq_false in H.
  destruct (decide (db = str ":memory:")); [assumption|contradiction].
Qed.

Lemma snapshot_loop_absent env db ts : forall d s,
  can_snapshot (files s) db = false ->
  (forall t v, dict_get t d = Some v -> v = None) ->
  exists d',
    for_each (fun d target =>
                let! p := save_database_state env db in ret (dict_set target p d))
      ts d s = (Ok d', s)
    /\ (forall t v, dict_get t d' = Some v -> v = None).
Proof.
  induction ts as [|t ts IH]; intros d s Hc Hd.
  - exists d. split; [reflexivity|exact Hd].
  - rewrite snapshot_loop_cons, save_absent by now apply can_snapshot_false.
    apply (IH (dict_set t None d) s Hc).
    intros t0 v. rewrite dict_get_set. destruct (decide (t = t0)); [congruence|apply Hd].
Qed.

Lemma run_sqlite_none env p sql s :
  io_fault env (clock s) = None ->
  run_sqlite env p sql None s
  = (Ok no_data_path,
     {| files := files s; clock := S (S (clock s));
        trace := trace s ++ [EvRun p None];
        heap := heap s; self := self s; tracker := tracker s |}).
Proof.
  intros Hio.
  unfold run_sqlite, write_script, try_except, subprocess_run, unlink_script,
    bind, tick, log, modify, ret, raise.
  simpl. rewrite Hio. reflexivity.
Qed.

Lemma run_target_none env sql tdp saved rv ref_res results target s :
  io_fault env (clock s) = None ->
  dict_get target tdp = Some None -> returncode ref_res <> 0 ->
  run_target env sql tdp saved rv ref_res results target s
  = (Ok (dict_set target (fresh (dom (heap s))) results),
     {| files := files s; clock := S (S (clock s));
        trace := trace s ++ [EvRun target None];
        heap := <[fresh (dom (heap s)) :=
                    {| outcome := INVALID_QUERY; sql_query := sql;
                       db_path := None; saved_db_path := saved;
                       target_sqlite_version := version_of target;
                       target_result := no_data_path;
                       reference_sqlite_version := rv;
                       reference_result := ref_res;
                       bug_dir := None |}]> (heap s);
        self := self s; tracker := tracker s |}).
Proof.
  intros Hio Hp Hrc. unfold run_target. rewrite Hp.
  unfold bind at 1. unfold ret at 1. unfold bind at 1.
  rewrite run_sqlite_none by exact Hio.
  assert (classify ref_res no_data_path = Ok INVALID_QUERY) as Hc.
  { unfold classify. simpl. apply Z.eqb_neq in Hrc. now rewrite Hrc. }
  unfold bind at 1. unfold lift at 1. rewrite Hc.
  reflexivity.
Qed.

Lemma target_loop_none env sql tdp saved rv ref_res ts : forall results s,
  (forall t, io_fault env t = None) ->
  (forall t, In t ts -> dict_get t tdp = Some None) ->
  returncode ref_res <> 0 ->
  exists results' s',
    for_each (run_target env sql tdp saved rv ref_res) ts results s
    = (Ok results', s')
    /\ files s' = files s /\ heap s ⊆ heap s'
    /\ trace s' = trace s ++ map (fun t => EvRun t None) ts
    /\ (forall t, In t ts \/ In t (map fst results) -> In t (map fst results'))
    /\ (forall t l, In (t, l) results' ->
          In (t, l) results
          \/ exists rr, heap s' !! l = Some rr
               /\ outcome rr = INVALID_QUERY
               /\ db_path rr = None /\ saved_db_path rr = saved
               /\ target_result rr = no_data_path
               /\ reference_result rr = ref_res).
Proof.
  induction ts as [|t ts IH]; intros results s Hio Hget Hrc.
  - exists results, s. split; [reflexivity|]. rewrite app_nil_r.
    repeat split; auto. intros t [[]|H]; exact H.
  - rewrite for_each_cons, run_target_none; auto; [|apply Hget; now left].
    set (l0 := fresh (dom (heap s))).
    set (rr0 := {| outcome := INVALID_QUERY; sql_query := sql; db_path := None;
                   saved_db_path := saved; target_sqlite_version := version_of t;
                   target_result := no_data_path; reference_sqlite_version := rv;
                   reference_result := ref_res; bug_dir := None |}).
    set (s1 := {| files := files s; clock := S (S (clock s));
                  trace := trace s ++ [EvRun t None];
                  heap := <[l0 := rr0]> (heap s);
                  self := self s; tracker := tracker s |}).
    destruct (IH (dict_set t l0 results) s1 Hio) as (results' & s' & E & Hf & Hh & Htr & Hk & Hin).
    { intros t' Ht'. apply Hget. now right. }
    { exact Hrc. }
    exists results', s'. split; [exact E|]. split; [exact Hf|].
    assert (heap s ⊆ heap s1) as Hsub by apply alloc_subseteq.
    split; [etransitivity; eassumption|].
    split; [rewrite Htr; simpl; now rewrite <- app_assoc|].
    split.
    { intros t0 Ht0. apply Hk. rewrite dict_set_keys.
      destruct (decide (t ∈ map fst results)) as [Hi|Hi].
      - destruct Ht0 as [[<-|Ht0]|Ht0]; [right; now apply list_elem_of_In|now left|now right].
      - destruct Ht0 as [[<-|Ht0]|Ht0]; [|now left|].
        + right. apply in_or_app. right. now left.
        + right. apply in_or_app. now left. }
    intros t0 l Hi. destruct (Hin t0 l Hi) as [Hold|Hnew]; [|now right].
    apply dict_set_elem in Hold as [[= -> ->]|Hold]; [|now left].
    right. exists rr0. split; [|repeat split].
    eapply lookup_weaken; [|exact Hh]. apply lookup_insert_eq.
Qed.

(** X14: when the base file is missing, or is ":memory:", a trial copies
    nothing, launches every program without a data path, none of which
    reaches the program, and gives INVALID_QUERY for every target; the
    files are left as they were. *)
Theorem run_without_base_file env (sql db : text) (s : State) :
  can_snapshot (files s) db = false ->
  (forall t, io_fault env t = None) ->
  exists results s',
    run env (sql, db) s = (Ok results, s')
    /\ files s' = files s
    /\ trace s' = trace s
                  ++ EvRun (reference_sqlite_path (self s)) None
                     :: map (fun t => EvRun t None) (target_sqlite_paths (self s))
    /\ (forall target, In target (target_sqlite_paths (self s)) ->
          In target (map fst results))
    /\ (forall target l, In (target, l) results ->
          exists rr, heap s' !! l = Some rr
            /\ outcome rr = INVALID_QUERY
            /\ db_path rr = None /\ saved_db_path rr = None
            /\ target_result rr = no_data_path
            /\ reference_result rr = no_data_path).
Proof.
  intros Hc Hio.
  pose proof (can_snapshot_false _ _ Hc) as Habs.
  destruct (snapshot_loop_absent env db (target_sqlite_paths (self s)) [] s Hc)
    as (tdp & E2 & Hnone).
  { intros t v. discriminate. }
  destruct (snapshot_loop_any _ _ _ _ _ _ _ E2) as (_ & _ & _ & _ & Hsome).
  specialize (Hsome tdp eq_refl).
  assert (forall t, In t (target_sqlite_paths (self s)) -> dict_get t tdp = Some None)
    as Hget.
  { intros t Ht. destruct (Hsome t (or_introl Ht)) as [v Hv].
    rewrite Hv. f_equal. eapply Hnone, Hv. }
  set (s1 := {| files := files s; clock := S (S (clock s));
                trace := trace s ++ [EvRun (reference_sqlite_path (self s)) None];
                heap := heap s; self := self s; tracker := tracker s |}).
  destruct (target_loop_none env sql tdp None
              (version_of (reference_sqlite_path (self s))) no_data_path
              (target_sqlite_paths (self s)) [] s1 Hio Hget)
    as (results & s' & E & Hf & _ & Htr & Hk & Hin).
  { discriminate. }
  exists results, s'. split.
  { unfold run. unfold bind at 1. rewrite save_absent by exact Habs.
    unfold bind at 1. unfold gets at 1.
    unfold bind at 1. rewrite E2.
    unfold bind at 1. rewrite save_absent by exact Habs.
    unfold bind at 1. unfold gets at 1.
    unfold bind at 1. rewrite run_sqlite_none by apply Hio. exact E. }
  split; [exact Hf|]. split; [rewrite Htr; simpl; now rewrite <- app_assoc|].
  split; [intros t Ht; apply Hk; now left|].
  intros t l Hi. destruct (Hin t l Hi) as [[]|H]. exact H.
Qed.

Lemma run_without_base_file_witness :
  exists results s',
    run calm (str "SELECT 1;", str ":memory:") sample_state = (Ok results, s')
    /\ files s' = files sample_state.
Proof.
  destruct (run_without_base_file calm (str "SELECT 1;") (str ":memory:") sample_state)
    as (results & s' & E & Hf & _).
  - vm_compute. reflexivity.
  - intros t. reflexivity.
  - exists results, s'. split; [exact E|exact Hf].
Defined.

(** ** Recording, whatever happens *)

Lemma record_one_frame env target l s res s' :
  record_one env (target, l) s = (res, s') ->
  files s' = files s /\ trace s' = trace s
  /\ current_trial (self s') = current_trial (self s)
  /\ settings (self s') = settings (self s)
  /\ (forall t, is_Some (stats (self s') !! t) <-> is_Some (stats (self s) !! t))
  /\ (forall l0 r, heap s !! l0 = Some r ->
        exists r', heap s' !! l0 = Some r' /\ repro_args r' = repro_args r
                   /\ (l0 <> l -> r' = r))
  /\ (forall l0, heap s !! l0 = None -> heap s' !! l0 = None).
Proof.
  rewrite record_one_eq.
  destruct (heap s !! l) as [rr|] eqn:El.
  2:{ intros [= <- <-]. repeat split; auto. intros l0 r Hl0. eauto. }
  destruct (stats (self s) !! target) as [counts|] eqn:Ec.
  2:{ intros [= <- <-]. repeat split; auto. intros l0 r Hl0. eauto. }
  cbv zeta.
  assert (forall (v : gmap Outcome Z) t,
            is_Some (<[target := v]> (stats (self s)) !! t)
            <-> is_Some (stats (self s) !! t)) as Hdom.
  { intros v t. destruct (decide (target = t)) as [<-|Hn].
    - rewrite lookup_insert_eq, Ec. split; eauto.
    - now rewrite lookup_insert_ne. }
  destruct (archived (outcome rr)).
  - destruct (save_reproducer env (clock s) (repro_args rr)) as [dir|e];
      intros [= <- <-]; simpl; repeat split; auto; try apply Hdom.
    + intros l0 r Hl0. destruct (decide (l0 = l)) as [->|Hn].
      * rewrite lookup_alter_eq, Hl0. simpl. eexists. split; [reflexivity|].
        split; [reflexivity|]. contradiction.
      * rewrite lookup_alter_ne by congruence. eauto.
    + intros l0 Hl0. destruct (decide (l0 = l)) as [->|Hn].
      * now rewrite lookup_alter_eq, Hl0.
      * now rewrite lookup_alter_ne by congruence.
    + intros l0 r Hl0. eauto.
  - intros [= <- <-]. simpl. repeat split; auto; try apply Hdom.
    intros l0 r Hl0. eauto.
Qed.

Lemma record_loop_frame env results : forall s res s',
  for_each (fun _ item => record_one env item) results tt s = (res, s') ->
  files s' = files s /\ trace s' = trace s
  /\ current_trial (self s') = current_trial (self s)
  /\ settings (self s') = settings (self s)
  /\ (forall t, is_Some (stats (self s') !! t) <-> is_Some (stats (self s) !! t))
  /\ (forall l0 r, heap s !! l0 = Some r ->
        exists r', heap s' !! l0 = Some r' /\ repro_args r' = repro_args r
                   /\ (~ In l0 (map snd results) -> r' = r))
  /\ (forall l0, heap s !! l0 = None -> heap s' !! l0 = None).
Proof.
  induction results as [|[target l] rest IH]; intros s res s' H.
  - injection H as <- <-. repeat split; auto. intros l0 r Hl0. eauto.
  - rewrite (for_each_unit_cons (record_one env)) in H.
    destruct (record_one env (target, l) s) as [[[]|e] s1] eqn:E1.
    + destruct (record_one_frame _ _ _ _ _ _ E1) as (A1 & A2 & A3 & A4 & A5 & A6 & A7).
      destruct (IH _ _ _ H) as (B1 & B2 & B3 & B4 & B5 & B6 & B7).
      split; [congruence|]. split; [congruence|]. split; [congruence|].
      split; [congruence|]. split; [intros t; now rewrite B5|].
      split.
      * intros l0 r Hl0. destruct (A6 l0 r Hl0) as (r1 & Hr1 & Ha1 & Hs1).
        destruct (B6 l0 r1 Hr1) as (r' & Hr' & Ha' & Hs').
        exists r'. split; [exact Hr'|]. split; [congruence|].
        simpl. intros Hn. rewrite Hs', Hs1; [reflexivity|intros ->|]; tauto.
      * intros l0 Hl0. auto.
    + injection H as <- <-.
      destruct (record_one_frame _ _ _ _ _ _ E1) as (A1 & A2 & A3 & A4 & A5 & A6 & A7).
      repeat split; auto; try apply A5.
      intros l0 r Hl0. destruct (A6 l0 r Hl0) as (r1 & Hr1 & Ha1 & Hs1).
      exists r1. split; [exact Hr1|]. split; [exact Ha1|].
      simpl. intros Hn. apply Hs1. intros ->. tauto.
Qed.

Lemma record_results_frame env results s res s' :
  record_results env results s = (res, s') ->
  files s' = files s /\ trace s' = trace s
  /\ current_trial (self s') = current_trial (self s) + 1
  /\ settings (self s') = settings (self s)
  /\ (forall t, is_Some (stats (self s') !! t) <-> is_Some (stats (self s) !! t))
  /\ (forall l0 r, heap s !! l0 = Some r ->
        exists r', heap s' !! l0 = Some r' /\ repro_args r' = repro_args r
                   /\ (~ In l0 (map snd results) -> r' = r))
  /\ (forall l0, heap s !! l0 = None -> heap s' !! l0 = None).
Proof.
  rewrite record_results_eq.
  destruct (for_each _ results tt _) as [[[]|e] s1] eqn:E;
    apply record_loop_frame in E as (A1 & A2 & A3 & A4 & A5 & A6 & A7);
    simpl in A1, A2, A3, A4, A5, A6, A7; intros [= <- <-].
  - destruct (max_results_to_keep <? _)%nat; simpl; repeat split; auto; apply A5.
  - repeat split; auto; apply A5.
Qed.


(** ** Counting by outcome *)

Lemma tally_cons h t o target l rest :
  tally h t o ((target, l) :: rest)
  = (if bool_decide (target = t /\ outcome <$> h !! l = Some o) then 1 else 0)
    + tally h t o rest.
Proof.
  unfold tally. simpl.
  destruct (bool_decide (target = t /\ outcome <$> h !! l = Some o)); simpl length; lia.
Qed.

Lemma tally_ext h h' t o entries :
  (forall l, outcome <$> h' !! l = outcome <$> h !! l) ->
  tally h' t o entries = tally h t o entries.
Proof.
  intros H. induction entries as [|[target l] rest IH]; [reflexivity|].
  now rewrite !tally_cons, IH, H.
Qed.

Lemma record_one_counter env target l s s' :
  record_one env (target, l) s = (Ok tt, s') ->
  (forall t o, counter (self s') t o
               = counter (self s) t o + tally (heap s) t o [(target, l)])
  /\ (forall l0, outcome <$> heap s' !! l0 = outcome <$> heap s !! l0).
Proof.
  rewrite record_one_eq.
  destruct (heap s !! l) as [rr|] eqn:El; [|discriminate].
  destruct (stats (self s) !! target) as [counts|] eqn:Ec; [|discriminate].
  cbv zeta. intros H.
  assert (self s'
          = with_run_results (run_results (self s) ++ [(target, l)])
              (with_stats
                 (<[target := <[outcome rr := default 0 (counts !! outcome rr) + 1]> counts]>
                    (stats (self s))) (self s))
          /\ forall l0, outcome <$> heap s' !! l0 = outcome <$> heap s !! l0)
    as [Hs Hh].
  { destruct (archived (outcome rr)).
    - destruct (save_reproducer env (clock s) (repro_args rr)); [|discriminate].
      injection H as <-. simpl. split; [reflexivity|].
      intros l0. destruct (decide (l0 = l)) as [->|Hn].
      + rewrite lookup_alter_eq, El. reflexivity.
      + now rewrite lookup_alter_ne by congruence.
    - injection H as <-. simpl. split; reflexivity. }
  split; [|exact Hh].
  intros t o. rewrite Hs, tally_cons.
  assert (tally (heap s) t o [] = 0) as -> by reflexivity.
  rewrite El. change (outcome <$> Some rr) with (Some (outcome rr)).
  unfold counter. cbn [stats with_run_results with_stats].
  destruct (decide (target = t)) as [->|Hn].
  - rewrite lookup_insert_eq, Ec.
    destruct (decide (outcome rr = o)) as [Ho|Ho].
    + rewrite Ho, lookup_insert_eq, bool_decide_eq_true_2 by auto. simpl. lia.
    + rewrite lookup_insert_ne by exact Ho.
      rewrite bool_decide_eq_false_2; [lia|]. intros [_ [= E]]. contradiction.
  - rewrite lookup_insert_ne by exact Hn.
    rewrite bool_decide_eq_false_2; [lia|]. intros [E _]. contradiction.
Qed.

Lemma record_loop_counter env results : forall s s',
  for_each (fun _ item => record_one env item) results tt s = (Ok tt, s') ->
  (forall t o, counter (self s') t o = counter (self s) t o + tally (heap s) t o results)
  /\ (forall l0, outcome <$> heap s' !! l0 = outcome <$> heap s !! l0).
Proof.
  induction results as [|[target l] rest IH]; intros s s' H.
  - injection H as <-. split; [|reflexivity]. intros t o. unfold tally. simpl. lia.
  - rewrite (for_each_unit_cons (record_one env)) in H.
    destruct (record_one env (target, l) s) as [[[]|e] s1] eqn:E1; [|discriminate].
    destruct (record_one_counter _ _ _ _ _ E1) as [Hc1 Hh1].
    destruct (IH _ _ H) as [Hc Hh].
    split.
    + intros t o. rewrite Hc, Hc1, (tally_ext (heap s) (heap s1)) by exact Hh1.
      rewrite (tally_cons (heap s) t o target l rest).
      rewrite (tally_cons (heap s) t o target l []).
      assert (tally (heap s) t o [] = 0) as -> by reflexivity. lia.
    + intros l0. now rewrite Hh, Hh1.
Qed.

(** X16: when [record_results] returns, each counter has grown by the
    number of results recorded for its target with its outcome. *)
Theorem record_results_counts_by_outcome env (results : dict nat) (s s' : State) :
  record_results env results s = (Ok tt, s') ->
  forall target o,
    counter (self s') target o
    = counter (self s) target o + tally (heap s) target o results.
Proof.
  rewrite record_results_eq.
  destruct (for_each _ results tt _) as [[[]|e] s1] eqn:E; [|discriminate].
  apply record_loop_counter in E as [Hc _]. simpl in Hc.
  intros [= <-] target o.
  transitivity (counter (self s1) target o).
  { destruct (max_results_to_keep <? _)%nat; reflexivity. }
  rewrite Hc. reflexivity.
Qed.

Lemma record_results_counts_by_outcome_witness :
  counter (self (snd (record_results calm sample_trial recorded_state)))
    (str "/opt/sqlite3-3.26.0") CRASH = 1.
Proof.
  rewrite (record_results_counts_by_outcome calm sample_trial recorded_state
             (snd (record_results calm sample_trial recorded_state))).
  - vm_compute. reflexivity.
  - vm_compute. reflexivity.
Defined.

(** ** When recording returns, and what it raises *)





(** ** What recording raises *)





(** ** The trial counter *)

Lemma reset_loop_frame ps : forall s res s',
  reset_loop ps s = (res, s') ->
  current_trial (self s') = current_trial (self s)
  /\ settings (self s') = settings (self s)
  /\ run_results (self s') = run_results (self s).
Proof.
  induction ps as [|p ps IH]; intros s res s' H.
  - injection H as <- <-. auto.
  - rewrite reset_loop_cons in H.
    destruct (stats (self s) !! p) as [counts|]; [|injection H as <- <-; auto].
    destruct (IH _ _ _ H) as (A & B & C). simpl in *. auto.
Qed.

Lemma record_all_trials env trials : forall s s',
  record_all env trials s = (Ok tt, s') ->
  current_trial (self s') = current_trial (self s) + Z.of_nat (length trials)
  /\ settings (self s') = settings (self s).
Proof.
  unfold record_all.
  induction trials as [|results rest IH]; intros s s' H.
  - injection H as <-. simpl. split; [lia|reflexivity].
  - rewrite (for_each_unit_cons (record_results env)) in H.
    destruct (record_results env results s) as [[[]|e] s1] eqn:E1; [|discriminate].
    destruct (record_results_frame _ _ _ _ _ E1) as (_ & _ & A & B & _).
    destruct (IH _ _ H) as (C & D).
    split; [|congruence]. rewrite C, A. simpl length. lia.
Qed.

(** X19: after the start of a session and its trials the trial counter is
    the number of trials, the start time is the time of the start, and the
    targets, the reference, the timeout, the scratch directory and the
    total of trials are as before. *)
Theorem session_counts_trials env (trials : list (dict nat)) (s s' : State) :
  session env trials s = (Ok tt, s') ->
  current_trial (self s') = Z.of_nat (length trials)
  /\ start_time (self s') = Some (clock s)
  /\ target_sqlite_paths (self s') = target_sqlite_paths (self s)
  /\ reference_sqlite_path (self s') = reference_sqlite_path (self s)
  /\ timeout (self s') = timeout (self s)
  /\ temp_dir (self s') = temp_dir (self s)
  /\ total_trials (self s') = total_trials (self s).
Proof.
  unfold session, bind. intros H.
  destruct (start_fuzzing_session s) as [[[]|e] s0] eqn:E0; [|discriminate].
  unfold start_fuzzing_session, bind, gets, modify_self, modify in E0. simpl in E0.
  apply reset_loop_frame in E0 as (A & B & _). simpl in A.
  apply record_all_trials in H as (C & D).
  rewrite B in D. unfold settings in D. simpl in D.
  injection D as D1 D2 D3 D4 D5 D6.
  split; [rewrite C, A; lia|]. auto 10.
Qed.

Lemma session_counts_trials_witness :
  current_trial (self (snd (session calm sample_trials recorded_state))) = 30.
Proof.
  destruct (session_counts_trials calm sample_trials recorded_state
              (snd (session calm sample_trials recorded_state))) as (H & _).
  - vm_compute. reflexivity.
  - rewrite H. reflexivity.
Defined.

(** ** The constructor *)

Lemma fresh_stats ts : forall (acc : gmap text (gmap Outcome Z)) t,
  fold_left (fun st path => <[path := zero_counts]> st) ts acc !! t
  = if decide (t ∈ ts) then Some zero_counts else acc !! t.
Proof.
  induction ts as [|p ts IH]; intros acc t.
  - cbn [fold_left]. destruct (decide (t ∈ [])) as [H|H]; [|reflexivity].
    now apply elem_of_nil in H.
  - cbn [fold_left]. rewrite IH.
    destruct (decide (t ∈ ts)) as [Hi|Hi].
    + rewrite decide_True; [reflexivity|]. apply elem_of_cons. now right.
    + destruct (decide (p = t)) as [->|Hn].
      * rewrite lookup_insert_eq, decide_True; [reflexivity|].
        apply elem_of_cons. now left.
      * rewrite lookup_insert_ne by exact Hn.
        rewrite decide_False; [reflexivity|].
        intros H. apply elem_of_cons in H as [E|E]; [congruence|contradiction].
Qed.

Lemma zero_counts_lookup o : zero_counts !! o = Some 0.
Proof.
  unfold zero_counts.
  destruct o; repeat (rewrite lookup_insert_eq || rewrite lookup_insert_ne by discriminate);
    reflexivity.
Qed.

(** X20: the constructor gives the five counters, all zero, to every
    target, and nothing to any other path. *)
Theorem new_runner_counters (targets : list text) (reference : text)
    (total tmo : Z) (tmp : text) :
  let r := new_runner targets reference total tmo tmp in
  (forall t, stats r !! t = if decide (t ∈ targets) then Some zero_counts else None)
  /\ (forall o, zero_counts !! o = Some 0)
  /\ (forall t o, counter r t o = 0)
  /\ (forall t, In t targets ->
        exists counts, stats r !! t = Some counts /\ total_count counts = 0).
Proof.
  cbv zeta.
  assert (forall t, stats (new_runner targets reference total tmo tmp) !! t
                    = if decide (t ∈ targets) then Some zero_counts else None) as H.
  { intros t. unfold new_runner. cbn [stats]. rewrite fresh_stats.
    destruct (decide (t ∈ targets)); [reflexivity|apply lookup_empty]. }
  split; [exact H|]. split; [exact zero_counts_lookup|]. split.
  - intros t o. unfold counter. rewrite H.
    destruct (decide (t ∈ targets)); [|reflexivity].
    now rewrite zero_counts_lookup.
  - intros t Ht. exists zero_counts. rewrite H, decide_True by now apply list_elem_of_In.
    split; [reflexivity|]. rewrite total_count_five, !zero_counts_lookup. reflexivity.
Qed.

Lemma zeroed_zero_counts : (fun _ : Z => 0) <$> zero_counts = zero_counts.
Proof.
  apply map_eq. intros o. rewrite lookup_fmap, zero_counts_lookup. reflexivity.
Qed.

Lemma with_same_stats s :
  with_self (with_stats (stats (self s)) (self s)) s = s.
Proof. destruct s as [f c t h [] tr]. reflexivity. Qed.

Lemma reset_loop_fresh ps : forall s,
  (forall p, In p ps -> stats (self s) !! p = Some zero_counts) ->
  reset_loop ps s = (Ok tt, s).
Proof.
  induction ps as [|p ps IH]; intros s H; [reflexivity|].
  rewrite reset_loop_cons, (H p (or_introl eq_refl)).
  rewrite zeroed_zero_counts, insert_id by (apply H; now left).
  rewrite with_same_stats. apply IH. intros q Hq. apply H. now right.
Qed.

Lemma reset_loop_known ps : forall s s',
  reset_loop ps s = (Ok tt, s') ->
  forall p, In p ps -> is_Some (stats (self s) !! p).
Proof.
  intros s s' H p Hp. apply reset_loop_ok in H as (_ & _ & Hin & _).
  destruct (Hin p Hp) as (c & _ & Hc & _). eauto.
Qed.

Lemma reset_loop_returns ps : forall s,
  (forall p, In p ps -> is_Some (stats (self s) !! p)) ->
  exists s', reset_loop ps s = (Ok tt, s').
Proof.
  induction ps as [|p ps IH]; intros s H; [eexists; reflexivity|].
  rewrite reset_loop_cons. destruct (H p (or_introl eq_refl)) as [c Hc]. rewrite Hc.
  apply IH. intros q Hq. simpl.
  destruct (decide (p = q)) as [->|Hn].
  - rewrite lookup_insert_eq. eauto.
  - rewrite lookup_insert_ne by exact Hn. apply H. now right.
Qed.

(** X21: on a runner as constructed, the reset loop of
    [start_fuzzing_session] changes nothing; run over any list of paths, it
    completes exactly when they are all targets. *)
Theorem reset_loop_on_fresh_runner (targets : list text) (reference : text)
    (total tmo : Z) (tmp : text) (s : State) :
  self s = new_runner targets reference total tmo tmp ->
  reset_loop targets s = (Ok tt, s)
  /\ forall ps, (exists s', reset_loop ps s = (Ok tt, s'))
                <-> (forall p, In p ps -> In p targets).
Proof.
  intros Hs.
  assert (forall t, stats (self s) !! t
                    = if decide (t ∈ targets) then Some zero_counts else None) as H.
  { intros t. rewrite Hs. unfold new_runner. cbn [stats]. rewrite fresh_stats.
    destruct (decide (t ∈ targets)); [reflexivity|apply lookup_empty]. }
  split.
  - apply reset_loop_fresh. intros p Hp. rewrite H, decide_True; [reflexivity|].
    now apply list_elem_of_In.
  - intros ps. split.
    + intros [s' E] p Hp. destruct (reset_loop_known _ _ _ E p Hp) as [c Hc].
      rewrite H in Hc. destruct (decide (p ∈ targets)) as [Hi|]; [|discriminate].
      now apply list_elem_of_In.
    + intros Hin. apply reset_loop_returns. intros p Hp. rewrite H, decide_True; [eauto|].
      apply list_elem_of_In. now apply Hin.
Qed.

Lemma reset_loop_on_fresh_runner_witness :
  reset_loop (target_sqlite_paths sample_runner) sample_state = (Ok tt, sample_state).
Proof.
  apply (reset_loop_on_fresh_runner
           [str "/opt/sqlite3-3.26.0"; str "/opt/sqlite3-3.39.4"]
           (str "/opt/sqlite3-3.49.1") 100 30 (str "/tmp/fuzzqlite_k3x9") sample_state).
  reflexivity.
Defined.

(** ** Version labels *)

Lemma last_separator sep p :
  contains sep p = true ->
  exists pre suf, p = pre ++ sep :: suf /\ contains sep suf = false.
Proof.
  induction p as [|c t IH]; [discriminate|].
  change (contains sep (c :: t)) with (Ascii.eqb sep c || contains sep t).
  destruct (contains sep t) eqn:Et.
  - intros _. destruct (IH eq_refl) as (pre & suf & -> & Hs).
    exists (c :: pre), suf. now split.
  - rewrite orb_false_r. intros Hc. apply Ascii.eqb_eq in Hc as <-.
    exists [], t. now split.
Qed.

Lemma last_split_app sep pre suf :
  contains sep suf = false -> List.last (split sep (pre ++ sep :: suf)) [] = suf.
Proof.
  intros H. rewrite split_app_sep.
  rewrite last_app_nonempty by apply split_nonempty.
  now rewrite split_without_sep.
Qed.

(** X22: the version label is "unknown" for a path without a hyphen, and
    otherwise what follows the last hyphen, itself without a hyphen; the
    statistics panel shows the same label, except "unknown" for an empty
    one: its label is never empty. *)
Theorem version_labels (p : text) :
  (contains "-" p = false -> version_of p = str "unknown")
  /\ (contains "-" p = true ->
      exists pre, p = pre ++ "-"%char :: version_of p
                  /\ contains "-" (version_of p) = false)
  /\ panel_version p
     = (if is_empty (version_of p) then str "unknown" else version_of p)
  /\ panel_version p <> []
  /\ (panel_version p = version_of p <-> version_of p <> []).
Proof.
  assert (panel_version p
          = (if is_empty (version_of p) then str "unknown" else version_of p)) as Hpanel.
  { unfold panel_version, version_of. destruct (contains "-" p); [|reflexivity].
    simpl. now destruct (List.last (split "-" p) []). }
  split; [|split; [|split; [exact Hpanel|split]]].
  - intros H. unfold version_of. now rewrite H.
  - intros H. destruct (last_separator _ _ H) as (pre & suf & Hp & Hs).
    exists pre. unfold version_of. rewrite H.
    rewrite Hp at 2 3. rewrite last_split_app by exact Hs. now split.
  - rewrite Hpanel. destruct (version_of p); discriminate.
  - rewrite Hpanel. destruct (version_of p); simpl; split; congruence.
Qed.

(** ** The recent trials *)

Lemma available_width_min cw : 30 <= available_width cw.
Proof. unfold available_width. lia. Qed.

Lemma truncate_length w q :
  3 <= w ->
  Z.of_nat (length (truncate w q)) = Z.min w (Z.of_nat (length q)).
Proof.
  intros Hw. unfold truncate, slice_to.
  destruct (Z.ltb_spec w (Z.of_nat (length q))); [|lia].
  destruct (Z.leb_spec 0 (w - 3)); [|lia].
  rewrite length_app, length_take. simpl length. lia.
Qed.

(** X23: the statement shown in the recent trials is the trimmed
    statement when it fits the available width, which is at least thirty,
    and otherwise its first characters and three dots, exactly the width. *)
Theorem display_query_fits (console_width : Z) (sql_query : text) :
  let w := available_width console_width in
  let q := strip sql_query in
  30 <= w
  /\ Z.of_nat (length (display_query console_width sql_query)) <= w
  /\ (Z.of_nat (length q) <= w -> display_query console_width sql_query = q)
  /\ (w < Z.of_nat (length q) ->
      display_query console_width sql_query = take (Z.to_nat (w - 3)) q ++ str "..."
      /\ Z.of_nat (length (display_query console_width sql_query)) = w).
Proof.
  cbv zeta. pose proof (available_width_min console_width) as Hw.
  split; [exact Hw|]. unfold display_query. split; [|split].
  - rewrite truncate_length by lia. lia.
  - intros H. unfold truncate.
    destruct (Z.ltb_spec (available_width console_width)
                (Z.of_nat (length (strip sql_query)))); [lia|reflexivity].
  - intros H. split; [|rewrite truncate_length by lia; lia].
    unfold truncate, slice_to.
    destruct (Z.ltb_spec (available_width console_width)
                (Z.of_nat (length (strip sql_query)))); [|lia].
    destruct (Z.leb_spec 0 (available_width console_width - 3)); [reflexivity|lia].
Qed.



(** ** A trial and its recording *)





